(** * NCC-1701-D: combat, flight, weapon and enemy-AI core

    A shallow embedding of the simulation core of the browser game
    (src/game/combat-system.ts, ship-controller.ts, input-manager.ts,
    game-state.ts, weapon-system.ts, three/effects.ts, enemy-ai.ts,
    universe.ts, universe-manager.ts, mission-system.ts, voice-executor.ts
    and the game loop of components/EnterpriseGame.vue) and the properties
    its specification states about it.

    Every TypeScript function that mutates a record in place becomes a
    function from the old record to the new one.  The scene graph, meshes,
    materials, audio and console output are presentation and are left out;
    a comment says so wherever a statement of the source is dropped. *)

From Stdlib Require Import QArith Qminmax Lqa Lia Floats Uint63 Bool List.
From stdpp Require Import base gmap sets strings pretty.
Import ListNotations.

Set Default Proof Using "Type".

(** ** The JavaScript [number] type

    The source computes with IEEE-754 doubles.  The model is written once
    over an interface of the operations the source uses, and read at two
    instances: exact rational arithmetic ([Q]), in which the arithmetic
    laws the properties rely on are proved, and binary64 floats ([float]), in
    which the concrete scenarios are replayed bit for bit.  Comparisons are
    kept as the source writes them ([<], [<=], [>], [>=], [===], [!==]),
    since on doubles [a <= b] and [!(a > b)] differ at NaN. *)

Class Number (N : Type) : Type := {
  lit : Q -> N;               (* a numeric literal, by its decimal value *)
  js_add : N -> N -> N;
  js_sub : N -> N -> N;
  js_mul : N -> N -> N;
  js_div : N -> N -> N;
  js_neg : N -> N;
  js_lt : N -> N -> bool;
  js_le : N -> N -> bool;
  js_eq : N -> N -> bool;     (* === on numbers *)
  Math_max : N -> N -> N;
  Math_min : N -> N -> N
}.

Arguments lit {N _} q%_Q.

Declare Scope js_scope.
Delimit Scope js_scope with js.
Notation "a + b" := (js_add a b) : js_scope.
Notation "a - b" := (js_sub a b) : js_scope.
Notation "a * b" := (js_mul a b) : js_scope.
Notation "a / b" := (js_div a b) : js_scope.
Notation "- a" := (js_neg a) : js_scope.
Notation "a <? b" := (js_lt a b) (at level 70) : js_scope.
Notation "a <=? b" := (js_le a b) (at level 70) : js_scope.
Notation "a >? b" := (js_lt b a) (at level 70) : js_scope.
Notation "a >=? b" := (js_le b a) (at level 70) : js_scope.
Notation "a =? b" := (js_eq a b) (at level 70) : js_scope.
Notation "a !=? b" := (negb (js_eq a b)) (at level 70) : js_scope.

(** *** Exact rationals *)

Definition Qltb (a b : Q) : bool := negb (Qle_bool b a).
Definition Qmaxb (a b : Q) : Q := if Qle_bool a b then b else a.
Definition Qminb (a b : Q) : Q := if Qle_bool a b then a else b.

#[export] Instance Number_Q : Number Q := {|
  lit := fun q => q;
  js_add := Qplus;
  js_sub := Qminus;
  js_mul := Qmult;
  js_div := Qdiv;             (* 0 on a zero divisor, where a double is NaN or
                                 infinite; no claim divides by zero *)
  js_neg := Qopp;
  js_lt := Qltb;
  js_le := Qle_bool;
  js_eq := Qeq_bool;
  Math_max := Qmaxb;
  Math_min := Qminb
|}.

(** *** IEEE-754 binary64 *)

Definition float_of_Z (z : Z) : float :=
  match z with
  | Z0 => PrimFloat.zero
  | Zpos p => PrimFloat.of_uint63 (Uint63.of_pos p)
  | Zneg p => PrimFloat.opp (PrimFloat.of_uint63 (Uint63.of_pos p))
  end.

(** A decimal literal [n/d] with [n] and [d] below 2^53 is the correctly
    rounded quotient of two exact doubles, which is the double the
    JavaScript parser produces for it. *)
Definition float_lit (q : Q) : float :=
  PrimFloat.div (float_of_Z (Qnum q)) (float_of_Z (Zpos (Qden q))).

(** [Math.max]: NaN if either argument is NaN, and +0 is larger than -0. *)
Definition float_max (a b : float) : float :=
  if PrimFloat.is_nan a || PrimFloat.is_nan b then PrimFloat.nan
  else if PrimFloat.ltb a b then b
  else if PrimFloat.ltb b a then a
  else if PrimFloat.get_sign a then b else a.

(** [Math.min]: NaN if either argument is NaN, and -0 is smaller than +0. *)
Definition float_min (a b : float) : float :=
  if PrimFloat.is_nan a || PrimFloat.is_nan b then PrimFloat.nan
  else if PrimFloat.ltb a b then a
  else if PrimFloat.ltb b a then b
  else if PrimFloat.get_sign a then a else b.

#[export] Instance Number_float : Number float := {|
  lit := float_lit;
  js_add := PrimFloat.add;
  js_sub := PrimFloat.sub;
  js_mul := PrimFloat.mul;
  js_div := PrimFloat.div;
  js_neg := PrimFloat.opp;
  js_lt := PrimFloat.ltb;
  js_le := PrimFloat.leb;
  js_eq := PrimFloat.eqb;
  Math_max := float_max;
  Math_min := float_min
|}.

(** ** three.js and the host's [Math]

    three.js is an external library: its vectors are records of three
    numbers, and the operations the game calls on vectors and quaternions
    are taken as an interface.  [Math.random()] and [Date.now()] are read
    from the frame's environment (see [EnemyAI.Frame]). *)

Record Vector3 (N : Type) : Type := mkVector3 { vx : N; vy : N; vz : N }.
Arguments mkVector3 {N} _ _ _.
Arguments vx {N} _.
Arguments vy {N} _.
Arguments vz {N} _.

Class Three (N : Type) : Type := {
  Quaternion : Type;
  quat_identity : Quaternion;                              (* new Quaternion() *)
  setFromAxisAngle : Vector3 N -> N -> Quaternion;
  quat_multiply : Quaternion -> Quaternion -> Quaternion;   (* a.multiply(b) *)
  quat_normalize : Quaternion -> Quaternion;
  quat_slerp : Quaternion -> Quaternion -> N -> Quaternion; (* a.slerp(b, t) *)
  (* Matrix4.lookAt(eye, target, up) followed by setFromRotationMatrix *)
  lookAt_quat : Vector3 N -> Vector3 N -> Vector3 N -> Quaternion;
  applyQuaternion : Vector3 N -> Quaternion -> Vector3 N;
  subVectors : Vector3 N -> Vector3 N -> Vector3 N;         (* a - b *)
  addVectors : Vector3 N -> Vector3 N -> Vector3 N;
  addScaledVector : Vector3 N -> Vector3 N -> N -> Vector3 N; (* a + v*s *)
  multiplyScalar : Vector3 N -> N -> Vector3 N;
  normalize : Vector3 N -> Vector3 N;
  vec_length : Vector3 N -> N;
  lengthSq : Vector3 N -> N;
  distanceTo : Vector3 N -> Vector3 N -> N;
  dot : Vector3 N -> Vector3 N -> N;
  angleTo : Vector3 N -> Vector3 N -> N;
  vec_lerp : Vector3 N -> Vector3 N -> N -> Vector3 N;      (* a.lerp(b, t) *)
  Math_cos : N -> N;
  Math_sin : N -> N
}.

(** ** input-manager.ts *)

Module InputManager.

Record t : Type := mk {
  keys : gset string;
  justPressed : gset string
}.

(** [isPressed(code)]: true while the key is held down. *)
Definition isPressed (im : t) (code : string) : bool :=
  bool_decide (code ∈ keys im).

(** [wasJustPressed(code)]: true once per press; reading the flag
    clears it. *)
Definition wasJustPressed (im : t) (code : string) : bool * t :=
  if bool_decide (code ∈ justPressed im)
  then (true, mk (keys im) (justPressed im ∖ {[code]}))
  else (false, im).

(** [endFrame()]: nothing to do, the flags are consumed by reading. *)
Definition endFrame (im : t) : t := im.

(** The [keydown] handler ([preventDefault] on the game's keys is the
    browser's business). *)
Definition onKeyDown (im : t) (code : string) : t :=
  let jp := if bool_decide (code ∈ keys im) then justPressed im
            else justPressed im ∪ {[code]} in
  mk (keys im ∪ {[code]}) jp.

(** The [keyup] handler. *)
Definition onKeyUp (im : t) (code : string) : t :=
  mk (keys im ∖ {[code]}) (justPressed im).

End InputManager.

(** ** game-state.ts *)

Module GameState.
Section GameState.
Context {N : Type} `{Number N} `{Three N}.
Local Open Scope js_scope.

(** The central, per-frame mutated state of the player's ship. *)
Record t : Type := mk {
  position : Vector3 N;
  quaternion : Quaternion;
  velocity : Vector3 N;
  throttle : N;
  speed : N;
  isWarp : bool;
  shieldsActive : bool;
  shieldStrength : N;
  phaserCharge : N;
  torpedoCount : N;
  phaserFiring : bool;
  torpedoFiring : bool;
  heading : N;
  bearing : N;
  speedDisplay : string
}.


(** Field assignments, [state.f = v]. *)
Definition set_position (s : t) (v : Vector3 N) : t :=
  mk v (quaternion s) (velocity s) (throttle s) (speed s) (isWarp s)
     (shieldsActive s) (shieldStrength s) (phaserCharge s) (torpedoCount s)
     (phaserFiring s) (torpedoFiring s) (heading s) (bearing s)
     (speedDisplay s).
Definition set_quaternion (s : t) (v : Quaternion) : t :=
  mk (position s) v (velocity s) (throttle s) (speed s) (isWarp s)
     (shieldsActive s) (shieldStrength s) (phaserCharge s) (torpedoCount s)
     (phaserFiring s) (torpedoFiring s) (heading s) (bearing s)
     (speedDisplay s).
Definition set_velocity (s : t) (v : Vector3 N) : t :=
  mk (position s) (quaternion s) v (throttle s) (speed s) (isWarp s)
     (shieldsActive s) (shieldStrength s) (phaserCharge s) (torpedoCount s)
     (phaserFiring s) (torpedoFiring s) (heading s) (bearing s)
     (speedDisplay s).
Definition set_throttle (s : t) (v : N) : t :=
  mk (position s) (quaternion s) (velocity s) v (speed s) (isWarp s)
     (shieldsActive s) (shieldStrength s) (phaserCharge s) (torpedoCount s)
     (phaserFiring s) (torpedoFiring s) (heading s) (bearing s)
     (speedDisplay s).
Definition set_speed (s : t) (v : N) : t :=
  mk (position s) (quaternion s) (velocity s) (throttle s) v (isWarp s)
     (shieldsActive s) (shieldStrength s) (phaserCharge s) (torpedoCount s)
     (phaserFiring s) (torpedoFiring s) (heading s) (bearing s)
     (speedDisplay s).
Definition set_isWarp (s : t) (v : bool) : t :=
  mk (position s) (quaternion s) (velocity s) (throttle s) (speed s) v
     (shieldsActive s) (shieldStrength s) (phaserCharge s) (torpedoCount s)
     (phaserFiring s) (torpedoFiring s) (heading s) (bearing s)
     (speedDisplay s).
Definition set_shieldsActive (s : t) (v : bool) : t :=
  mk (position s) (quaternion s) (velocity s) (throttle s) (speed s)
     (isWarp s) v (shieldStrength s) (phaserCharge s) (torpedoCount s)
     (phaserFiring s) (torpedoFiring s) (heading s) (bearing s)
     (speedDisplay s).
Definition set_shieldStrength (s : t) (v : N) : t :=
  mk (position s) (quaternion s) (velocity s) (throttle s) (speed s)
     (isWarp s) (shieldsActive s) v (phaserCharge s) (torpedoCount s)
     (phaserFiring s) (torpedoFiring s) (heading s) (bearing s)
     (speedDisplay s).
Definition set_phaserCharge (s : t) (v : N) : t :=
  mk (position s) (quaternion s) (velocity s) (throttle s) (speed s)
     (isWarp s) (shieldsActive s) (shieldStrength s) v (torpedoCount s)
     (phaserFiring s) (torpedoFiring s) (heading s) (bearing s)
     (speedDisplay s).
Definition set_torpedoCount (s : t) (v : N) : t :=
  mk (position s) (quaternion s) (velocity s) (throttle s) (speed s)
     (isWarp s) (shieldsActive s) (shieldStrength s) (phaserCharge s) v
     (phaserFiring s) (torpedoFiring s) (heading s) (bearing s)
     (speedDisplay s).
Definition set_phaserFiring (s : t) (v : bool) : t :=
  mk (position s) (quaternion s) (velocity s) (throttle s) (speed s)
     (isWarp s) (shieldsActive s) (shieldStrength s) (phaserCharge s)
     (torpedoCount s) v (torpedoFiring s) (heading s) (bearing s)
     (speedDisplay s).
Definition set_torpedoFiring (s : t) (v : bool) : t :=
  mk (position s) (quaternion s) (velocity s) (throttle s) (speed s)
     (isWarp s) (shieldsActive s) (shieldStrength s) (phaserCharge s)
     (torpedoCount s) (phaserFiring s) v (heading s) (bearing s)
     (speedDisplay s).

Definition INITIAL_TORPEDO_COUNT : N := lit 64.

Definition createGameState : t := {|
  position := mkVector3 (lit 0) (lit 0) (lit 0);
  quaternion := quat_identity;
  velocity := mkVector3 (lit 0) (lit 0) (lit 0);
  throttle := lit 0;
  speed := lit 0;
  isWarp := false;
  shieldsActive := false;
  shieldStrength := lit 100;
  phaserCharge := lit 100;
  torpedoCount := INITIAL_TORPEDO_COUNT;
  phaserFiring := false;
  torpedoFiring := false;
  heading := lit 0;
  bearing := lit 0;
  speedDisplay := "All Stop"
|}.

End GameState.
Arguments t N {_}.
End GameState.

(** ** combat-system.ts *)

Module CombatSystem.

Inductive GameOver : Type := victory | defeat.

Section CombatSystem.
Context {N : Type} `{Number N} `{Three N}.
Local Open Scope js_scope.

Definition PHASER_DPS : N := lit 8.
Definition TORPEDO_DAMAGE : N := lit 18.
Definition HIT_DISTANCE_PHASER : N := lit 20.
Definition HIT_DISTANCE_TORPEDO : N := lit 12.
Definition SHIELD_ABSORPTION : N := lit 0.7.

Record ShipHealth : Type := mkShipHealth {
  hull : N;
  maxHull : N;
  shieldsUp : bool;
  shieldStrength : N;
  isDestroyed : bool;
  damageFlash : N
}.

Record CombatState : Type := mkCombatState {
  playerHealth : ShipHealth;
  enemyHealth : ShipHealth;
  gameOver : option GameOver      (* [None] is the source's [null] *)
}.

(** Field assignments, [health.f = v]. *)
Definition set_hull (h : ShipHealth) (v : N) : ShipHealth :=
  mkShipHealth v (maxHull h) (shieldsUp h) (shieldStrength h)
               (isDestroyed h) (damageFlash h).
Definition set_shieldsUp (h : ShipHealth) (v : bool) : ShipHealth :=
  mkShipHealth (hull h) (maxHull h) v (shieldStrength h)
               (isDestroyed h) (damageFlash h).
Definition set_shieldStrength (h : ShipHealth) (v : N) : ShipHealth :=
  mkShipHealth (hull h) (maxHull h) (shieldsUp h) v
               (isDestroyed h) (damageFlash h).
Definition set_isDestroyed (h : ShipHealth) (v : bool) : ShipHealth :=
  mkShipHealth (hull h) (maxHull h) (shieldsUp h) (shieldStrength h)
               v (damageFlash h).
Definition set_damageFlash (h : ShipHealth) (v : N) : ShipHealth :=
  mkShipHealth (hull h) (maxHull h) (shieldsUp h) (shieldStrength h)
               (isDestroyed h) v.

Definition set_playerHealth (c : CombatState) (h : ShipHealth) : CombatState :=
  mkCombatState h (enemyHealth c) (gameOver c).
Definition set_enemyHealth (c : CombatState) (h : ShipHealth) : CombatState :=
  mkCombatState (playerHealth c) h (gameOver c).
Definition set_gameOver (c : CombatState) (g : option GameOver) : CombatState :=
  mkCombatState (playerHealth c) (enemyHealth c) g.

Definition createShipHealth (maxHull : N) : ShipHealth := {|
  hull := maxHull;
  maxHull := maxHull;
  shieldsUp := false;
  shieldStrength := lit 100;
  isDestroyed := false;
  damageFlash := lit 0
|}.

Definition createCombatState : CombatState := {|
  playerHealth := createShipHealth (lit 100);
  enemyHealth := createShipHealth (lit 100);
  gameOver := None
|}.

(** Apply raw damage to a ship, accounting for shields. *)
Definition applyDamage (health : ShipHealth) (rawDamage : N) : ShipHealth :=
  if isDestroyed health then health
  else
    let '(health, effectiveDamage) :=
      if shieldsUp health && (shieldStrength health >? lit 0) then
        let absorbed := rawDamage * SHIELD_ABSORPTION in
        let health :=
          set_shieldStrength health
            (Math_max (lit 0) (shieldStrength health - absorbed * lit 0.5)) in
        let effectiveDamage := rawDamage - absorbed in
        let health :=
          if shieldStrength health <=? lit 0
          then set_shieldsUp health false else health in
        (health, effectiveDamage)
      else (health, rawDamage) in
    let health := set_hull health (Math_max (lit 0) (hull health - effectiveDamage)) in
    let health := set_damageFlash health (lit 1.0) in
    if hull health <=? lit 0 then set_isDestroyed health true else health.

(** The beam's angular tolerance, [minDot] in [checkPhaserHits]; the
    source comments it as 'some spread, wider at close range'. *)
Definition phaserMinDot (dist : N) : N :=
  Math_max (lit 0.85) (lit 1.0 - lit 30 / Math_max dist (lit 1)).

(** Do the player's phasers hit the enemy this frame?  Applies
    DPS-scaled damage on a hit. *)
Definition checkPhaserHits (combat : CombatState) (playerState : GameState.t N)
    (enemyPosition : Vector3 N) (delta : N) : bool * CombatState :=
  if negb (GameState.phaserFiring playerState) || isDestroyed (enemyHealth combat)
  then (false, combat)
  else
    let toEnemy := subVectors enemyPosition (GameState.position playerState) in
    let dist := vec_length toEnemy in
    if dist >? lit 200 then (false, combat)
    else
      let forward :=
        applyQuaternion (mkVector3 (lit 0) (lit 0) (lit (-1)))
                        (GameState.quaternion playerState) in
      let toEnemy := normalize toEnemy in
      let dot := dot forward toEnemy in
      let minDot := phaserMinDot dist in
      if dot >? minDot
      then (true, set_enemyHealth combat
                    (applyDamage (enemyHealth combat) (PHASER_DPS * delta)))
      else (false, combat).

(** The loop of [checkTorpedoHits], from index [i] on. *)
Fixpoint checkTorpedoHits_from (combat : CombatState) (i : nat)
    (torpedoPositions : list (Vector3 N)) (enemyPosition : Vector3 N)
    : list nat * CombatState :=
  match torpedoPositions with
  | [] => ([], combat)
  | p :: rest =>
      let dist := distanceTo p enemyPosition in
      if dist <? HIT_DISTANCE_TORPEDO then
        let combat :=
          set_enemyHealth combat (applyDamage (enemyHealth combat) TORPEDO_DAMAGE) in
        let '(hits, combat) := checkTorpedoHits_from combat (S i) rest enemyPosition in
        (i :: hits, combat)
      else checkTorpedoHits_from combat (S i) rest enemyPosition
  end.

(** Which active torpedoes hit the enemy (their indices), each applying
    one damage quantum. *)
Definition checkTorpedoHits (combat : CombatState)
    (torpedoPositions : list (Vector3 N)) (enemyPosition : Vector3 N)
    : list nat * CombatState :=
  if isDestroyed (enemyHealth combat) then ([], combat)
  else checkTorpedoHits_from combat 0%nat torpedoPositions enemyPosition.

Definition applyEnemyDamageToPlayer (combat : CombatState) (damage : N)
    : CombatState :=
  set_playerHealth combat (applyDamage (playerHealth combat) damage).

Definition syncPlayerShields (combat : CombatState) (gs : GameState.t N)
    : CombatState :=
  set_playerHealth combat
    (set_shieldStrength
       (set_shieldsUp (playerHealth combat) (GameState.shieldsActive gs))
       (GameState.shieldStrength gs)).

(** Decay the damage-flash timers and evaluate the game-over condition. *)
Definition updateCombatTimers (combat : CombatState) (delta : N) : CombatState :=
  let combat :=
    if damageFlash (playerHealth combat) >? lit 0 then
      set_playerHealth combat
        (set_damageFlash (playerHealth combat)
           (Math_max (lit 0) (damageFlash (playerHealth combat) - lit 3 * delta)))
    else combat in
  let combat :=
    if damageFlash (enemyHealth combat) >? lit 0 then
      set_enemyHealth combat
        (set_damageFlash (enemyHealth combat)
           (Math_max (lit 0) (damageFlash (enemyHealth combat) - lit 3 * delta)))
    else combat in
  match gameOver combat with
  | None =>
      if isDestroyed (enemyHealth combat) then set_gameOver combat (Some victory)
      else if isDestroyed (playerHealth combat) then set_gameOver combat (Some defeat)
      else combat
  | Some _ => combat
  end.

End CombatSystem.
Arguments ShipHealth : clear implicits.
Arguments CombatState : clear implicits.
End CombatSystem.

(** ** ship-controller.ts *)

Module ShipController.
Section ShipController.
Context {N : Type} `{Number N} `{Three N}.
Local Open Scope js_scope.
Import GameState.

(* Rotation speeds (radians per second) *)
Definition PITCH_SPEED : N := lit 0.8.
Definition YAW_SPEED : N := lit 0.8.
Definition ROLL_SPEED : N := lit 1.0.
(* Throttle *)
Definition IMPULSE_MAX_SPEED : N := lit 1.0.
Definition WARP_MULTIPLIER : N := lit 8.0.
(* Movement scale (world units per second at speed=1) *)
Definition MOVEMENT_SCALE : N := lit 15.0.
(* Phaser recharge rate (per second) *)
Definition PHASER_RECHARGE : N := lit 10.

(** The key code [`Digit${d}`] for a digit [d] in 0..9. *)
Definition digitCode (d : nat) : string :=
  String.append "Digit" (String (Ascii.ascii_of_nat (48 + d)) EmptyString).

(** One iteration of the throttle loop: key [Digit d] sets the throttle
    to [d / 9] (to [0] for [d = 0]). *)
Definition throttleKey (si : GameState.t N * InputManager.t) (d : nat)
    : GameState.t N * InputManager.t :=
  let '(state, input) := si in
  let '(pressed, input) := InputManager.wasJustPressed input (digitCode d) in
  if pressed then
    (set_throttle state
       (if Nat.eqb d 0 then lit 0 else lit (inject_Z (Z.of_nat d)) / lit 9),
     input)
  else (state, input).

(** [updateShip] is one function in the source; its commented blocks
    are named here so that each can be reasoned about on its own. *)

(** --- Rotation (WASDQE) --- *)
Definition updateRotation (state : GameState.t N) (input : InputManager.t)
    (delta : N) : GameState.t N :=
  let pitchDelta := lit 0 in
  let yawDelta := lit 0 in
  let rollDelta := lit 0 in
  let pitchDelta :=
    if InputManager.isPressed input "KeyS" then PITCH_SPEED * delta else pitchDelta in
  let pitchDelta :=
    if InputManager.isPressed input "KeyW" then - PITCH_SPEED * delta else pitchDelta in
  let yawDelta :=
    if InputManager.isPressed input "KeyQ" then YAW_SPEED * delta else yawDelta in
  let yawDelta :=
    if InputManager.isPressed input "KeyE" then - YAW_SPEED * delta else yawDelta in
  let rollDelta :=
    if InputManager.isPressed input "KeyA" then ROLL_SPEED * delta else rollDelta in
  let rollDelta :=
    if InputManager.isPressed input "KeyD" then - ROLL_SPEED * delta else rollDelta in
  (* rotations in local space: pitch around X, yaw around Y, roll around Z *)
  let state :=
    if pitchDelta !=? lit 0 then
      set_quaternion state
        (quat_multiply (quaternion state)
           (setFromAxisAngle (mkVector3 (lit 1) (lit 0) (lit 0)) pitchDelta))
    else state in
  let state :=
    if yawDelta !=? lit 0 then
      set_quaternion state
        (quat_multiply (quaternion state)
           (setFromAxisAngle (mkVector3 (lit 0) (lit 1) (lit 0)) yawDelta))
    else state in
  let state :=
    if rollDelta !=? lit 0 then
      set_quaternion state
        (quat_multiply (quaternion state)
           (setFromAxisAngle (mkVector3 (lit 0) (lit 0) (lit 1)) rollDelta))
    else state in
  set_quaternion state (quat_normalize (quaternion state)).

(** --- Throttle (number keys 0-9) --- *)
Definition updateThrottle (state : GameState.t N) (input : InputManager.t)
    : GameState.t N * InputManager.t :=
  fold_left throttleKey (seq 0 10) (state, input).

(** --- Warp toggle (CapsLock) ---, with the auto-disengage that follows
    it. *)
Definition updateWarp (state : GameState.t N) (input : InputManager.t)
    : GameState.t N * InputManager.t :=
  let '(capsLock, input) := InputManager.wasJustPressed input "CapsLock" in
  let state :=
    if capsLock then
      if negb (isWarp state) && (throttle state >? lit 0.1)
      then set_isWarp state true
      else set_isWarp state false
    else state in
  (* Auto-disengage warp if throttle drops too low *)
  let state :=
    if isWarp state && (throttle state <=? lit 0.05)
    then set_isWarp state false else state in
  (state, input).

(** Effective speed with smooth acceleration, then --- Position ---. *)
Definition updateMotion (state : GameState.t N) (delta : N) : GameState.t N :=
  let targetSpeed := throttle state * IMPULSE_MAX_SPEED in
  let effectiveTarget :=
    if isWarp state then targetSpeed * WARP_MULTIPLIER else targetSpeed in
  let accelRate := lit 2.5 in
  let state :=
    if speed state <? effectiveTarget then
      set_speed state (Math_min effectiveTarget (speed state + accelRate * delta))
    else if speed state >? effectiveTarget then
      set_speed state (Math_max effectiveTarget (speed state - accelRate * delta))
    else state in
  (* Ship forward is -Z in local space *)
  let _forward :=
    applyQuaternion (mkVector3 (lit 0) (lit 0) (lit (-1))) (quaternion state) in
  let state :=
    set_velocity state (multiplyScalar _forward (speed state * MOVEMENT_SCALE)) in
  set_position state (addScaledVector (position state) (velocity state) delta).

(** --- Weapons --- *)
Definition updateTriggers (state : GameState.t N) (input : InputManager.t)
    (delta : N) : GameState.t N * InputManager.t :=
  (* Phaser recharge *)
  let state :=
    if phaserCharge state <? lit 100 then
      set_phaserCharge state
        (Math_min (lit 100) (phaserCharge state + PHASER_RECHARGE * delta))
    else state in
  (* Phaser fire (hold Space) *)
  let state :=
    set_phaserFiring state
      (InputManager.isPressed input "Space" && (phaserCharge state >? lit 5)) in
  (* Torpedo fire (single press T); the key is read before the ammo test *)
  let '(keyT, input) := InputManager.wasJustPressed input "KeyT" in
  let state := set_torpedoFiring state (keyT && (torpedoCount state >? lit 0)) in
  (state, input).

(** --- Shields toggle (X) ---, and the drain while active. *)
Definition updateShieldToggle (state : GameState.t N) (input : InputManager.t)
    (delta : N) : GameState.t N * InputManager.t :=
  let '(keyX, input) := InputManager.wasJustPressed input "KeyX" in
  let state :=
    if keyX then set_shieldsActive state (negb (shieldsActive state)) else state in
  (* Shield drain when active *)
  let state :=
    if shieldsActive state && (shieldStrength state >? lit 0) then
      let state :=
        set_shieldStrength state
          (Math_max (lit 0) (shieldStrength state - lit 0.5 * delta)) in
      if shieldStrength state <=? lit 0
      then set_shieldsActive state false else state
    else state in
  (state, input).

(** Reads input each frame and updates the ship transform, speed and
    weapon triggers. *)
Definition updateShip (state : GameState.t N) (input : InputManager.t)
    (delta : N) : GameState.t N * InputManager.t :=
  let state := updateRotation state input delta in
  let '(state, input) := updateThrottle state input in
  let '(state, input) := updateWarp state input in
  let state := updateMotion state delta in
  let '(state, input) := updateTriggers state input delta in
  updateShieldToggle state input delta.

End ShipController.
End ShipController.

(** ** three/effects.ts: projectile records

  Only the simulation part of a projectile is kept: its age, lifetime,
  position and velocity, and the material opacity where the code reads it
  back.  Geometry, materials and the particle trail are presentation. *)

Module Effects.
Section Effects.
Context {N : Type} `{Number N} `{Three N}.
Local Open Scope js_scope.

Record PhaserBeam : Type := mkPhaserBeam {
  beam_opacity : N;           (* mesh.material.opacity *)
  beam_age : N;
  beam_maxAge : N
}.

Definition createPhaserBeamMesh (origin direction : Vector3 N) : PhaserBeam :=
  {| beam_opacity := lit 0.9; beam_age := lit 0; beam_maxAge := lit 0.5 |}.

(** The inner core of a beam is a bare mesh; its material opacity is its
    only state. *)
Record PhaserCore : Type := mkPhaserCore { core_opacity : N }.

Definition createPhaserCoreMesh (origin direction : Vector3 N) : PhaserCore :=
  {| core_opacity := lit 0.3 |}.

Record PhotonTorpedo : Type := mkPhotonTorpedo {
  mesh_position : Vector3 N;  (* mesh.position *)
  velocity : Vector3 N;
  age : N;
  maxAge : N;
  targetPosition : option (Vector3 N)
}.

Definition TORPEDO_SPEED : N := lit 80.

Definition createTorpedoMesh (origin direction : Vector3 N) : PhotonTorpedo := {|
  mesh_position := origin;
  velocity := multiplyScalar (normalize direction) TORPEDO_SPEED;
  age := lit 0;
  maxAge := lit 5.0;
  targetPosition := None
|}.

Definition TORPEDO_HOMING_TURN : N := lit 3.0.

(** Steer toward the homing target, if any, then integrate position and
    age.  (The fade-out of the child materials is presentation.) *)
Definition updateTorpedo (torpedo : PhotonTorpedo) (delta : N) : PhotonTorpedo :=
  let velocity1 :=
    match targetPosition torpedo with
    | Some target =>
        let toTarget := subVectors target (mesh_position torpedo) in
        let dist := vec_length toTarget in
        if dist >? lit 1 then
          let desiredDir := normalize toTarget in
          let currentDir := normalize (velocity torpedo) in
          let currentSpeed := vec_length (velocity torpedo) in
          let maxTurn := TORPEDO_HOMING_TURN * delta in
          let angle := angleTo currentDir desiredDir in
          let currentDir :=
            if angle >? lit 0.001 then
              let t := Math_min (maxTurn / angle) (lit 1) in
              normalize (vec_lerp currentDir desiredDir t)
            else currentDir in
          multiplyScalar currentDir currentSpeed
        else velocity torpedo
    | None => velocity torpedo
    end in
  {| mesh_position := addScaledVector (mesh_position torpedo) velocity1 delta;
     velocity := velocity1;
     age := age torpedo + delta;
     maxAge := maxAge torpedo;
     targetPosition := targetPosition torpedo |}.

End Effects.
Arguments PhaserBeam : clear implicits.
Arguments PhaserCore : clear implicits.
Arguments PhotonTorpedo : clear implicits.
End Effects.

(** ** weapon-system.ts *)

Module WeaponSystem.
Section WeaponSystem.
Context {N : Type} `{Number N} `{Three N}.
Local Open Scope js_scope.
Import Effects.

(* Phaser strip position (on the saucer dorsal, forward) *)
Definition PHASER_ORIGIN_OFFSET : Vector3 N := mkVector3 (lit 0) (lit 0.6) (lit (-3.5)).
(* Torpedo launcher position (lower engineering hull) *)
Definition TORPEDO_ORIGIN_OFFSET : Vector3 N := mkVector3 (lit 0) (lit (-0.4)) (lit (-2.5)).

Definition PHASER_DRAIN_RATE : N := lit 35.
Definition PHASER_COOLDOWN : N := lit 0.15.

Record WeaponSystemState : Type := mkWeaponSystemState {
  phaserBeams : list (PhaserBeam N);
  phaserCores : list (PhaserCore N);
  torpedoes : list (PhotonTorpedo N);
  phaserCooldown : N
}.

Definition createWeaponSystem : WeaponSystemState := {|
  phaserBeams := [];
  phaserCores := [];
  torpedoes := [];
  phaserCooldown := lit 0
|}.

(** The three ageing loops run from the last index down to 0 and splice
    out the expired element; the recursion handles the tail first. *)
Fixpoint ageBeams (beams : list (PhaserBeam N)) (delta : N) : list (PhaserBeam N) :=
  match beams with
  | [] => []
  | beam :: rest =>
      let rest := ageBeams rest delta in
      let age1 := beam_age beam + delta in
      let beam :=
        {| beam_opacity :=
             Math_max (lit 0) (lit 0.9 * (lit 1 - age1 / beam_maxAge beam));
           beam_age := age1;
           beam_maxAge := beam_maxAge beam |} in
      if beam_age beam >=? beam_maxAge beam then rest else beam :: rest
  end.

Fixpoint ageCores (cores : list (PhaserCore N)) (delta : N) : list (PhaserCore N) :=
  match cores with
  | [] => []
  | core :: rest =>
      let rest := ageCores rest delta in
      let core := {| core_opacity := core_opacity core - delta * lit 0.6 |} in
      if core_opacity core <=? lit 0 then rest else core :: rest
  end.

Fixpoint ageTorpedoes (torps : list (PhotonTorpedo N)) (delta : N)
    : list (PhotonTorpedo N) :=
  match torps with
  | [] => []
  | torp :: rest =>
      let rest := ageTorpedoes rest delta in
      let torp := updateTorpedo torp delta in
      if age torp >=? maxAge torp then rest else torp :: rest
  end.

(** --- Phaser beams ---: cooldown, beam spawn and charge drain. *)
Definition firePhasers (ws : WeaponSystemState) (gameState : GameState.t N)
    (delta : N) : WeaponSystemState * GameState.t N :=
  let cooldown := Math_max (lit 0) (phaserCooldown ws - delta) in
  let '(beams, cores, cooldown) :=
    if GameState.phaserFiring gameState
       && (GameState.phaserCharge gameState >? lit 5)
       && (cooldown <=? lit 0)
    then
      let _origin :=
        addVectors
          (applyQuaternion PHASER_ORIGIN_OFFSET (GameState.quaternion gameState))
          (GameState.position gameState) in
      let _direction :=
        applyQuaternion (mkVector3 (lit 0) (lit 0) (lit (-1)))
                        (GameState.quaternion gameState) in
      (phaserBeams ws ++ [createPhaserBeamMesh _origin _direction],
       phaserCores ws ++ [createPhaserCoreMesh _origin _direction],
       PHASER_COOLDOWN)
    else (phaserBeams ws, phaserCores ws, cooldown) in
  (* Drain phaser charge while firing *)
  let gameState :=
    if GameState.phaserFiring gameState then
      let gameState :=
        GameState.set_phaserCharge gameState
          (Math_max (lit 0)
             (GameState.phaserCharge gameState - PHASER_DRAIN_RATE * delta)) in
      if GameState.phaserCharge gameState <=? lit 0
      then GameState.set_phaserFiring gameState false else gameState
    else gameState in
  ({| phaserBeams := beams; phaserCores := cores; torpedoes := torpedoes ws;
      phaserCooldown := cooldown |},
   gameState).

(** --- Photon torpedoes ---: one torpedo per fire intent while ammo
    lasts. *)
Definition fireTorpedo (torps : list (PhotonTorpedo N)) (gameState : GameState.t N)
    : list (PhotonTorpedo N) * GameState.t N :=
  if GameState.torpedoFiring gameState
     && (GameState.torpedoCount gameState >? lit 0)
  then
    let _origin :=
      addVectors
        (applyQuaternion TORPEDO_ORIGIN_OFFSET (GameState.quaternion gameState))
        (GameState.position gameState) in
    let _direction :=
      applyQuaternion (mkVector3 (lit 0) (lit 0) (lit (-1)))
                      (GameState.quaternion gameState) in
    let torpedo := createTorpedoMesh _origin _direction in
    let gameState :=
      GameState.set_torpedoCount gameState
        (GameState.torpedoCount gameState - lit 1) in
    (torps ++ [torpedo], GameState.set_torpedoFiring gameState false)
  else (torps, gameState).

(** Updates weapon state each frame: fires, ages and removes
    projectiles. *)
Definition updateWeapons (ws : WeaponSystemState) (gameState : GameState.t N)
    (delta : N) : WeaponSystemState * GameState.t N :=
  let '(ws, gameState) := firePhasers ws gameState delta in
  (* Age and remove expired beams and cores *)
  let beams := ageBeams (phaserBeams ws) delta in
  let cores := ageCores (phaserCores ws) delta in
  let '(torps, gameState) := fireTorpedo (torpedoes ws) gameState in
  (* Update active torpedoes *)
  let torps := ageTorpedoes torps delta in
  ({| phaserBeams := beams; phaserCores := cores; torpedoes := torps;
      phaserCooldown := phaserCooldown ws |},
   gameState).

End WeaponSystem.
Arguments WeaponSystemState : clear implicits.
End WeaponSystem.

(** ** enemy-ai.ts *)

Module EnemyAI.

Inductive EnemyBehavior : Type := idle | alert | attack | evasive.

Section EnemyAI.
Context {N : Type} `{Number N} `{Three N}.
Local Open Scope js_scope.
Import CombatSystem.

Definition ENEMY_SPEED : N := lit 8.0.
Definition ENEMY_TURN_SPEED : N := lit 0.6.
Definition DETECTION_RANGE : N := lit 500.
Definition ATTACK_RANGE : N := lit 150.
Definition PHASER_RANGE : N := lit 120.
Definition PHASER_COOLDOWN : N := lit 2.0.
Definition TORPEDO_COOLDOWN : N := lit 5.0.
Definition PHASER_BURST_DPS : N := lit 6.
Definition TORPEDO_DAMAGE : N := lit 15.
Definition EVASIVE_HULL_THRESHOLD : N := lit 30.

(** The enemy ship.  [group] (its scene-graph node) is presentation and
    is left out; [phaserBeam] records whether the beam mesh exists. *)
Record EnemyShip : Type := mkEnemyShip {
  position : Vector3 N;
  quaternion : Quaternion;
  behavior : EnemyBehavior;
  speed : N;
  phaserCooldown : N;
  torpedoCooldown : N;
  phaserFiring : bool;
  torpedoJustFired : bool;
  alertTimer : N;
  orbitAngle : N;
  orbitCenter : Vector3 N;
  orbitRadius : N;
  modelReady : bool;
  phaserBeam : bool;
  phaserBeamAge : N
}.

(** Field assignments, [enemy.f = v]. *)
Definition set_position (e : EnemyShip) (v : Vector3 N) : EnemyShip :=
  mkEnemyShip v (quaternion e) (behavior e) (speed e) (phaserCooldown e)
     (torpedoCooldown e) (phaserFiring e) (torpedoJustFired e)
     (alertTimer e) (orbitAngle e) (orbitCenter e) (orbitRadius e)
     (modelReady e) (phaserBeam e) (phaserBeamAge e).
Definition set_quaternion (e : EnemyShip) (v : Quaternion) : EnemyShip :=
  mkEnemyShip (position e) v (behavior e) (speed e) (phaserCooldown e)
     (torpedoCooldown e) (phaserFiring e) (torpedoJustFired e)
     (alertTimer e) (orbitAngle e) (orbitCenter e) (orbitRadius e)
     (modelReady e) (phaserBeam e) (phaserBeamAge e).
Definition set_behavior (e : EnemyShip) (v : EnemyBehavior) : EnemyShip :=
  mkEnemyShip (position e) (quaternion e) v (speed e) (phaserCooldown e)
     (torpedoCooldown e) (phaserFiring e) (torpedoJustFired e)
     (alertTimer e) (orbitAngle e) (orbitCenter e) (orbitRadius e)
     (modelReady e) (phaserBeam e) (phaserBeamAge e).
Definition set_speed (e : EnemyShip) (v : N) : EnemyShip :=
  mkEnemyShip (position e) (quaternion e) (behavior e) v (phaserCooldown e)
     (torpedoCooldown e) (phaserFiring e) (torpedoJustFired e)
     (alertTimer e) (orbitAngle e) (orbitCenter e) (orbitRadius e)
     (modelReady e) (phaserBeam e) (phaserBeamAge e).
Definition set_phaserCooldown (e : EnemyShip) (v : N) : EnemyShip :=
  mkEnemyShip (position e) (quaternion e) (behavior e) (speed e) v
     (torpedoCooldown e) (phaserFiring e) (torpedoJustFired e)
     (alertTimer e) (orbitAngle e) (orbitCenter e) (orbitRadius e)
     (modelReady e) (phaserBeam e) (phaserBeamAge e).
Definition set_torpedoCooldown (e : EnemyShip) (v : N) : EnemyShip :=
  mkEnemyShip (position e) (quaternion e) (behavior e) (speed e)
     (phaserCooldown e) v (phaserFiring e) (torpedoJustFired e)
     (alertTimer e) (orbitAngle e) (orbitCenter e) (orbitRadius e)
     (modelReady e) (phaserBeam e) (phaserBeamAge e).
Definition set_phaserFiring (e : EnemyShip) (v : bool) : EnemyShip :=
  mkEnemyShip (position e) (quaternion e) (behavior e) (speed e)
     (phaserCooldown e) (torpedoCooldown e) v (torpedoJustFired e)
     (alertTimer e) (orbitAngle e) (orbitCenter e) (orbitRadius e)
     (modelReady e) (phaserBeam e) (phaserBeamAge e).
Definition set_torpedoJustFired (e : EnemyShip) (v : bool) : EnemyShip :=
  mkEnemyShip (position e) (quaternion e) (behavior e) (speed e)
     (phaserCooldown e) (torpedoCooldown e) (phaserFiring e) v
     (alertTimer e) (orbitAngle e) (orbitCenter e) (orbitRadius e)
     (modelReady e) (phaserBeam e) (phaserBeamAge e).
Definition set_alertTimer (e : EnemyShip) (v : N) : EnemyShip :=
  mkEnemyShip (position e) (quaternion e) (behavior e) (speed e)
     (phaserCooldown e) (torpedoCooldown e) (phaserFiring e)
     (torpedoJustFired e) v (orbitAngle e) (orbitCenter e) (orbitRadius e)
     (modelReady e) (phaserBeam e) (phaserBeamAge e).
Definition set_orbitAngle (e : EnemyShip) (v : N) : EnemyShip :=
  mkEnemyShip (position e) (quaternion e) (behavior e) (speed e)
     (phaserCooldown e) (torpedoCooldown e) (phaserFiring e)
     (torpedoJustFired e) (alertTimer e) v (orbitCenter e) (orbitRadius e)
     (modelReady e) (phaserBeam e) (phaserBeamAge e).
Definition set_phaserBeam (e : EnemyShip) (v : bool) : EnemyShip :=
  mkEnemyShip (position e) (quaternion e) (behavior e) (speed e)
     (phaserCooldown e) (torpedoCooldown e) (phaserFiring e)
     (torpedoJustFired e) (alertTimer e) (orbitAngle e) (orbitCenter e)
     (orbitRadius e) (modelReady e) v (phaserBeamAge e).
Definition set_phaserBeamAge (e : EnemyShip) (v : N) : EnemyShip :=
  mkEnemyShip (position e) (quaternion e) (behavior e) (speed e)
     (phaserCooldown e) (torpedoCooldown e) (phaserFiring e)
     (torpedoJustFired e) (alertTimer e) (orbitAngle e) (orbitCenter e)
     (orbitRadius e) (modelReady e) (phaserBeam e) v.

(** What one frame reads from its environment: the clamped frame time,
    and the values [Math.random()] and [Date.now()] return when the
    update calls them. *)
Record Frame : Type := mkFrame {
  delta : N;
  Math_random : N;
  Date_now1 : N;
  Date_now2 : N
}.

(** The enemy, positioned beyond Saturn.  The scene-graph node, its light
    and the asynchronous model load (which sets [modelReady] later) are
    presentation. *)
Definition createEnemyShip : EnemyShip :=
  let saturnAngle := lit 1.5 in
  let beyondSaturnRadius := lit 2800 in
  let startPos :=
    mkVector3 (Math_cos saturnAngle * beyondSaturnRadius)
              (lit 20)
              (Math_sin saturnAngle * beyondSaturnRadius) in
  {| position := startPos;
     quaternion := quat_identity;
     behavior := idle;
     speed := lit 0;
     phaserCooldown := lit 0;
     torpedoCooldown := lit 0;
     phaserFiring := false;
     torpedoJustFired := false;
     alertTimer := lit 0;
     orbitAngle := lit 0;
     orbitCenter := startPos;
     orbitRadius := lit 60;
     modelReady := false;
     phaserBeam := false;
     phaserBeamAge := lit 0 |}.

(** Turn the enemy ship toward a target point.  The function writes the
    module-level scratch vector [_toPlayer]; its new value is returned
    with the ship. *)
Definition turnToward (enemy : EnemyShip) (target : Vector3 N) (delta : N)
    : EnemyShip * Vector3 N :=
  let _toPlayer := subVectors target (position enemy) in
  if lengthSq _toPlayer <? lit 0.01 then (enemy, _toPlayer)
  else
    let _targetQuat :=
      lookAt_quat (position enemy) target (mkVector3 (lit 0) (lit 1) (lit 0)) in
    let t := Math_min (ENEMY_TURN_SPEED * delta) (lit 1) in
    (set_quaternion enemy
       (quat_normalize (quat_slerp (quaternion enemy) _targetQuat t)),
     _toPlayer).

(** Create, keep or remove the enemy's phaser beam visual. *)
Definition updateEnemyPhaserBeam (enemy : EnemyShip) (delta : N) : EnemyShip :=
  if phaserFiring enemy then
    let enemy := if negb (phaserBeam enemy) then set_phaserBeam enemy true else enemy in
    set_phaserBeamAge enemy (lit 0.3)
  else if phaserBeam enemy then
    let enemy := set_phaserBeamAge enemy (phaserBeamAge enemy - delta) in
    if phaserBeamAge enemy <=? lit 0 then set_phaserBeam enemy false else enemy
  else enemy.

(** The [idle] case of the behaviour switch. *)
Definition behaviorIdle (enemy : EnemyShip) (distToPlayer : N) (delta : N)
    : EnemyShip :=
  (* Orbit slowly *)
  let enemy := set_orbitAngle enemy (orbitAngle enemy + delta * lit 0.15) in
  let enemy :=
    set_position enemy
      (mkVector3
         (vx (orbitCenter enemy) + Math_cos (orbitAngle enemy) * orbitRadius enemy)
         (vy (orbitCenter enemy))
         (vz (orbitCenter enemy) + Math_sin (orbitAngle enemy) * orbitRadius enemy)) in
  let enemy := set_speed enemy (lit 0) in
  (* Detect player *)
  if distToPlayer <? DETECTION_RANGE then
    let enemy := set_behavior enemy alert in
    set_alertTimer enemy (lit 2.0)
  else enemy.

(** The [alert] case. *)
Definition behaviorAlert (enemy : EnemyShip) (playerState : GameState.t N)
    (combat : CombatState N) (delta : N) : EnemyShip * CombatState N :=
  (* Turn to face player *)
  let '(enemy, _) := turnToward enemy (GameState.position playerState) delta in
  let enemy := set_speed enemy (lit 0) in
  let enemy := set_alertTimer enemy (alertTimer enemy - delta) in
  (* Raise shields *)
  let combat := set_enemyHealth combat (set_shieldsUp (enemyHealth combat) true) in
  if alertTimer enemy <=? lit 0
  then (set_behavior enemy attack, combat)
  else (enemy, combat).

(** The [attack] case. *)
Definition behaviorAttack (enemy : EnemyShip) (playerState : GameState.t N)
    (combat : CombatState N) (distToPlayer : N) (fr : Frame)
    : EnemyShip * CombatState N :=
  if hull (enemyHealth combat) <? EVASIVE_HULL_THRESHOLD
  then (set_behavior enemy evasive, combat)
  else
    let '(enemy, _toPlayer) :=
      turnToward enemy (GameState.position playerState) (delta fr) in
    (* Approach or maintain distance *)
    let enemy :=
      if distToPlayer >? ATTACK_RANGE then set_speed enemy ENEMY_SPEED
      else if distToPlayer <? ATTACK_RANGE * lit 0.4
      then set_speed enemy (ENEMY_SPEED * lit 0.3)
      else set_speed enemy (ENEMY_SPEED * lit 0.5) in
    (* Fire weapons if in range and facing player *)
    let _forward :=
      applyQuaternion (mkVector3 (lit 0) (lit 0) (lit (-1))) (quaternion enemy) in
    let _toPlayer := normalize _toPlayer in
    let facingDot := dot _forward _toPlayer in
    let '(enemy, combat) :=
      if (facingDot >? lit 0.8) && (distToPlayer <? PHASER_RANGE) then
        if phaserCooldown enemy <=? lit 0 then
          let enemy := set_phaserFiring enemy true in
          let combat := applyEnemyDamageToPlayer combat (PHASER_BURST_DPS * delta fr) in
          (* Phaser fires for a burst, then cooldown *)
          if Math_random fr <? delta fr * lit 0.8
          then (set_phaserCooldown enemy PHASER_COOLDOWN, combat)
          else (enemy, combat)
        else (enemy, combat)
      else (enemy, combat) in
    if (facingDot >? lit 0.9) && (distToPlayer <? ATTACK_RANGE)
       && (torpedoCooldown enemy <=? lit 0)
    then
      let enemy := set_torpedoJustFired enemy true in
      let enemy := set_torpedoCooldown enemy TORPEDO_COOLDOWN in
      (enemy, applyEnemyDamageToPlayer combat TORPEDO_DAMAGE)
    else (enemy, combat).

(** The [evasive] case. *)
Definition behaviorEvasive (enemy : EnemyShip) (playerState : GameState.t N)
    (combat : CombatState N) (distToPlayer : N) (fr : Frame)
    : EnemyShip * CombatState N :=
  (* Fly erratically, still shooting *)
  let _evasiveDir :=
    normalize
      (mkVector3 (Math_sin (Date_now1 fr * lit 0.001) * lit 0.5)
                 (Math_cos (Date_now2 fr * lit 0.0015) * lit 0.3)
                 (lit (-1))) in
  let _evasiveDir := applyQuaternion _evasiveDir (quaternion enemy) in
  let targetPos := addScaledVector (position enemy) _evasiveDir (lit 50) in
  let '(enemy, _) := turnToward enemy targetPos (delta fr * lit 1.5) in
  let enemy := set_speed enemy (ENEMY_SPEED * lit 1.2) in
  (* Still fire if opportunity arises *)
  let _forward :=
    applyQuaternion (mkVector3 (lit 0) (lit 0) (lit (-1))) (quaternion enemy) in
  let _toPlayer :=
    normalize (subVectors (GameState.position playerState) (position enemy)) in
  let evDot := dot _forward _toPlayer in
  let '(enemy, combat) :=
    if (evDot >? lit 0.7) && (distToPlayer <? PHASER_RANGE)
       && (phaserCooldown enemy <=? lit 0)
    then
      let enemy := set_phaserFiring enemy true in
      let combat :=
        applyEnemyDamageToPlayer combat (PHASER_BURST_DPS * delta fr * lit 0.5) in
      if Math_random fr <? delta fr * lit 0.5
      then (set_phaserCooldown enemy (PHASER_COOLDOWN * lit 1.5), combat)
      else (enemy, combat)
    else (enemy, combat) in
  (* Return to attack if hull recovers a bit (shields recharge) *)
  if (hull (enemyHealth combat) >? EVASIVE_HULL_THRESHOLD + lit 10)
     || (distToPlayer >? DETECTION_RANGE)
  then (set_behavior enemy attack, combat)
  else (enemy, combat).

(** Update enemy AI each frame. *)
Definition updateEnemyAI (enemy : EnemyShip) (playerState : GameState.t N)
    (combat : CombatState N) (fr : Frame) : EnemyShip * CombatState N :=
  if isDestroyed (enemyHealth combat) then
    (* Destroyed: stop; the spin and shrink of the mesh are presentation *)
    let enemy := set_speed enemy (lit 0) in
    let enemy := set_phaserFiring enemy false in
    (enemy, combat)
  else
    (* Distance to player *)
    let _toPlayer := subVectors (GameState.position playerState) (position enemy) in
    let distToPlayer := vec_length _toPlayer in
    (* Reset per-frame flags *)
    let enemy := set_phaserFiring enemy false in
    let enemy := set_torpedoJustFired enemy false in
    (* Cooldown timers *)
    let enemy :=
      set_phaserCooldown enemy (Math_max (lit 0) (phaserCooldown enemy - delta fr)) in
    let enemy :=
      set_torpedoCooldown enemy (Math_max (lit 0) (torpedoCooldown enemy - delta fr)) in
    (* Behavior state machine *)
    let '(enemy, combat) :=
      match behavior enemy with
      | idle => (behaviorIdle enemy distToPlayer (delta fr), combat)
      | alert => behaviorAlert enemy playerState combat (delta fr)
      | attack => behaviorAttack enemy playerState combat distToPlayer fr
      | evasive => behaviorEvasive enemy playerState combat distToPlayer fr
      end in
    (* Move *)
    let enemy :=
      if speed enemy >? lit 0 then
        let _forward :=
          applyQuaternion (mkVector3 (lit 0) (lit 0) (lit (-1))) (quaternion enemy) in
        set_position enemy
          (addScaledVector (position enemy) _forward (speed enemy * delta fr))
      else enemy in
    (* Apply transform: copies position and quaternion to the mesh *)
    (* Update enemy phaser beam visual *)
    (updateEnemyPhaserBeam enemy (delta fr), combat).

End EnemyAI.
Arguments EnemyShip N {_}.
Arguments Frame : clear implicits.
End EnemyAI.

(** ** A rational realisation of the three.js interface

  Used to run the model on concrete inputs, and a coarse stand-in for
  the library.  The component-wise vector operations are exact; [Qsqrt]
  is exact on squares of rationals and rounds down elsewhere; sine and
  cosine are their Taylor polynomials of degree three and two; [slerp]
  interpolates linearly.  Every theorem below is stated for an arbitrary
  realisation of the interface, and the inputs of the examples are
  chosen so that the lengths they need are exact. *)

Module RationalThree.
Local Open Scope Q_scope.

Definition Qsqrt (q : Q) : Q :=
  Z.sqrt (Qnum q * Zpos (Qden q)) # Qden q.

Definition Qcos (x : Q) : Q := (1 - x * x / 2)%Q.
Definition Qsin (x : Q) : Q := (x - x * x * x / 6)%Q.

Definition V := Vector3 Q.

Definition sub (a b : V) : V :=
  mkVector3 (vx a - vx b)%Q (vy a - vy b)%Q (vz a - vz b)%Q.
Definition add (a b : V) : V :=
  mkVector3 (vx a + vx b)%Q (vy a + vy b)%Q (vz a + vz b)%Q.
Definition scale (a : V) (s : Q) : V :=
  mkVector3 (vx a * s)%Q (vy a * s)%Q (vz a * s)%Q.
Definition dotQ (a b : V) : Q := (vx a * vx b + vy a * vy b + vz a * vz b)%Q.
Definition cross (a b : V) : V :=
  mkVector3 (vy a * vz b - vz a * vy b)%Q
            (vz a * vx b - vx a * vz b)%Q
            (vx a * vy b - vy a * vx b)%Q.
Definition len (a : V) : Q := Qsqrt (dotQ a a).
(** [normalize] divides by [length() || 1]. *)
Definition unit (a : V) : V :=
  let l := len a in
  scale a (/ (if Qeq_bool l 0 then 1 else l))%Q.

(** A quaternion [(x, y, z, w)]. *)
Record Quat : Type := mkQuat { qx : Q; qy : Q; qz : Q; qw : Q }.

Definition qmul (a b : Quat) : Quat :=
  mkQuat
    (qx a * qw b + qw a * qx b + qy a * qz b - qz a * qy b)%Q
    (qy a * qw b + qw a * qy b + qz a * qx b - qx a * qz b)%Q
    (qz a * qw b + qw a * qz b + qx a * qy b - qy a * qx b)%Q
    (qw a * qw b - qx a * qx b - qy a * qy b - qz a * qz b)%Q.

Definition qnormalize (a : Quat) : Quat :=
  let l := Qsqrt (qx a * qx a + qy a * qy a + qz a * qz a + qw a * qw a)%Q in
  if Qeq_bool l 0 then mkQuat 0 0 0 1
  else mkQuat (qx a / l)%Q (qy a / l)%Q (qz a / l)%Q (qw a / l)%Q.

Definition axisAngle (axis : V) (angle : Q) : Quat :=
  let s := Qsin (angle / 2) in
  mkQuat (vx axis * s)%Q (vy axis * s)%Q (vz axis * s)%Q (Qcos (angle / 2)).

Definition qlerp (a b : Quat) (t : Q) : Quat :=
  mkQuat (qx a + (qx b - qx a) * t)%Q (qy a + (qy b - qy a) * t)%Q
         (qz a + (qz b - qz a) * t)%Q (qw a + (qw b - qw a) * t)%Q.

Definition rotate (v : V) (q : Quat) : V :=
  let u := mkVector3 (qx q) (qy q) (qz q) in
  let t := scale (cross u v) 2 in
  add (add v (scale t (qw q))) (cross u t).

(** The rotation whose local -Z axis is carried onto the direction from
    [eye] to [target]: the half-way quaternion between the two
    directions ([up] only matters for the roll, which is left at
    zero). *)
Definition lookAt (eye target up : V) : Quat :=
  let f := unit (sub target eye) in
  let z := mkVector3 0 0 (-1) in
  let c := cross z f in
  qnormalize (mkQuat (vx c) (vy c) (vz c) (1 + dotQ z f)%Q).

#[export] Instance Three_Q : Three Q := {|
  Quaternion := Quat;
  quat_identity := mkQuat 0 0 0 1;
  setFromAxisAngle := axisAngle;
  quat_multiply := qmul;
  quat_normalize := qnormalize;
  quat_slerp := qlerp;
  lookAt_quat := lookAt;
  applyQuaternion := rotate;
  subVectors := sub;
  addVectors := add;
  addScaledVector := fun a v s => add a (scale v s);
  multiplyScalar := scale;
  normalize := unit;
  vec_length := len;
  lengthSq := fun a => dotQ a a;
  distanceTo := fun a b => len (sub a b);
  dot := dotQ;
  angleTo := fun a b => (1 - dotQ (unit a) (unit b))%Q;
  vec_lerp := fun a b t => add a (scale (sub b a) t);
  Math_cos := Qcos;
  Math_sin := Qsin
|}.

End RationalThree.

(** ** The throttle keys, read as a function of the pending flags

    [throttleAfter ds pending t] is the throttle the loop over the digits
    [ds] leaves when it starts from throttle [t] with the one-shot flags
    [pending]: every pending digit assigns its value, the last one wins. *)

Module ThrottleKeys.
Section ThrottleKeys.
Context {N : Type} `{Number N}.
Local Open Scope js_scope.

(** The throttle a digit key asks for. *)
Definition throttleOf (d : nat) : N :=
  if Nat.eqb d 0 then lit 0 else lit (inject_Z (Z.of_nat d)) / lit 9.

Definition throttleAfter (ds : list nat) (pending : gset string) (t : N) : N :=
  fold_left
    (fun t d =>
       if bool_decide (ShipController.digitCode d ∈ pending) then throttleOf d else t)
    ds t.

(** The one-shot flags [updateShip] reads, and so clears. *)
Definition polled : gset string :=
  list_to_set (map ShipController.digitCode (seq 0 10))
  ∪ {["CapsLock"; "KeyT"; "KeyX"]}.

End ThrottleKeys.
End ThrottleKeys.

(** ** Sequences of enemy updates

    The enemy AI run over a list of frames against a player state and with
    no other writer of the combat state in between. *)

Module EnemyTrace.
Import CombatSystem EnemyAI.
Section EnemyTrace.
Context {N : Type} `{Number N} `{Three N}.
Local Open Scope js_scope.

Fixpoint runEnemyAI (enemy : EnemyShip N) (playerState : GameState.t N)
    (combat : CombatState N) (frames : list (Frame N))
    : EnemyShip N * CombatState N :=
  match frames with
  | [] => (enemy, combat)
  | fr :: rest =>
      let '(enemy, combat) := updateEnemyAI enemy playerState combat fr in
      runEnemyAI enemy playerState combat rest
  end.

(** The simulated time a list of frames spans. *)
Definition elapsed (frames : list (Frame N)) : N :=
  fold_right (fun fr t => delta fr + t) (lit 0) frames.

End EnemyTrace.
End EnemyTrace.

(** ** Sequences of combat calls

    The calls that write a [CombatState] during a mission: damage to either
    ship and the per-frame timer and game-over check. *)

Module CombatTrace.
Import CombatSystem.
Section CombatTrace.
Context {N : Type} `{Number N}.

Inductive CombatCall : Type :=
| DamagePlayer (rawDamage : N)   (* applyDamage(combat.playerHealth, rawDamage) *)
| DamageEnemy (rawDamage : N)    (* applyDamage(combat.enemyHealth, rawDamage) *)
| CombatTimers (delta : N).      (* updateCombatTimers(combat, delta) *)

Definition call (combat : CombatState N) (c : CombatCall) : CombatState N :=
  match c with
  | DamagePlayer rawDamage =>
      set_playerHealth combat (applyDamage (playerHealth combat) rawDamage)
  | DamageEnemy rawDamage =>
      set_enemyHealth combat (applyDamage (enemyHealth combat) rawDamage)
  | CombatTimers delta => updateCombatTimers combat delta
  end.

Definition calls (combat : CombatState N) (cs : list CombatCall) : CombatState N :=
  fold_left call cs combat.

End CombatTrace.
Arguments CombatCall : clear implicits.
End CombatTrace.

(** ** universe.ts

    The star catalogue and its helpers.  The systems are objects the rest
    of the game holds references to, and [discovered] is written through
    such a reference: the table is state, and a reference is a place in
    it.  Star, planets, station, NPC ships, display name and description
    are the renderer's data and are left out. *)

(** [Math.sqrt], the one host function [getMapDistance] calls. *)
Class HostSqrt (N : Type) : Type := { Math_sqrt : N -> N }.

Module Universe.
Section Universe.
Context {N : Type} `{Number N} `{HostSqrt N}.
Local Open Scope js_scope.

Record StarSystem : Type := mkStarSystem {
  id : string;
  sector : string;
  mapX : N;
  mapY : N;
  connections : list string;     (* IDs of directly connected systems *)
  discovered : bool
}.

Definition set_discovered (s : StarSystem) (v : bool) : StarSystem :=
  mkStarSystem (id s) (sector s) (mapX s) (mapY s) (connections s) v.

(** A reference to a system object: its index in the table. *)
Definition SystemRef : Type := nat.

Definition STAR_SYSTEMS : list StarSystem := [
  {| id := "sol"; sector := "Alpha Quadrant"; mapX := (lit 0); mapY := (lit 0);
     connections := ["vulcan"; "alpha-centauri"; "wolf359"];
     discovered := true |};
  {| id := "vulcan"; sector := "Alpha Quadrant"; mapX := (lit (-180)); mapY := (lit (-120));
     connections := ["sol"; "andoria"; "rigel"];
     discovered := false |};
  {| id := "alpha-centauri"; sector := "Alpha Quadrant"; mapX := (lit 120); mapY := (lit (-80));
     connections := ["sol"; "betazed"];
     discovered := false |};
  {| id := "wolf359"; sector := "Alpha Quadrant"; mapX := (lit 60); mapY := (lit 100);
     connections := ["sol"; "starbase74"];
     discovered := false |};
  {| id := "andoria"; sector := "Beta Quadrant"; mapX := (lit (-280)); mapY := (lit (-40));
     connections := ["vulcan"; "deep-space-5"];
     discovered := false |};
  {| id := "rigel"; sector := "Beta Quadrant"; mapX := (lit (-200)); mapY := (lit (-220));
     connections := ["vulcan"; "deep-space-5"];
     discovered := false |};
  {| id := "betazed"; sector := "Alpha Quadrant"; mapX := (lit 200); mapY := (lit (-180));
     connections := ["alpha-centauri"; "starbase74"];
     discovered := false |};
  {| id := "starbase74"; sector := "Alpha Quadrant"; mapX := (lit 140); mapY := (lit 30);
     connections := ["wolf359"; "betazed"; "deep-space-5"];
     discovered := false |};
  {| id := "deep-space-5"; sector := "Beta Quadrant"; mapX := (lit (-100)); mapY := (lit 120);
     connections := ["andoria"; "rigel"; "starbase74"; "frontier"];
     discovered := false |};
  {| id := "frontier"; sector := "Frontier"; mapX := (lit (-50)); mapY := (lit 260);
     connections := ["deep-space-5"];
     discovered := false |}
].

(** Look up a system by ID: the first entry with that id. *)
Definition getSystem (systems : list StarSystem) (i : string) : option SystemRef :=
  fst <$> list_find (fun s => id s = i) systems.

(** Get all systems connected to the given system; connections that do
    not resolve are dropped. *)
Definition getConnectedSystems (systems : list StarSystem) (systemId : string)
    : list SystemRef :=
  match getSystem systems systemId with
  | None => []
  | Some r =>
      match systems !! r with
      | Some sys => omap (getSystem systems) (connections sys)
      | None => []
      end
  end.

(** [[...new Set(xs)]]: the distinct elements in order of first
    appearance. *)
Fixpoint distinct (xs : list string) : list string :=
  match xs with
  | [] => []
  | x :: rest => x :: List.filter (fun y => negb (String.eqb y x)) (distinct rest)
  end.

(** Get all sectors in the universe. *)
Definition getSectors (systems : list StarSystem) : list string :=
  distinct (map sector systems).

(** Get all systems in a sector. *)
Definition getSystemsInSector (systems : list StarSystem) (sec : string)
    : list StarSystem :=
  List.filter (fun s => String.eqb (sector s) sec) systems.

(** Map distance between two systems (for warp travel time). *)
Definition getMapDistance (a b : StarSystem) : N :=
  let dx := mapX a - mapX b in
  let dy := mapY a - mapY b in
  Math_sqrt (dx * dx + dy * dy).

End Universe.
Arguments StarSystem : clear implicits.
End Universe.

(** ** universe-manager.ts

    Functions that read a system through a reference return [None] where
    the source would read a field of [undefined]; the properties below
    show that references obtained from the table never get there. *)

Module UniverseManager.
Import Universe.

Inductive TravelPhase : Type := idle | charging | warping | arriving.

Inductive TravelResult : Type := none | started_warp | arrived.

Section UniverseManager.
Context {N : Type} `{Number N} `{Three N} `{HostSqrt N}.
Local Open Scope js_scope.

Record UniverseState : Type := mkUniverseState {
  currentSystemId : string;
  currentSystem : SystemRef;
  destinationId : option string;          (* [None] is [null] *)
  destination : option SystemRef;
  travelPhase : TravelPhase;
  travelProgress : N;                     (* 0-1 during 'warping' *)
  travelDuration : N;
  travelTimer : N;
  starMapOpen : bool
}.

Definition set_destination (u : UniverseState) (i : option string)
    (r : option SystemRef) : UniverseState :=
  mkUniverseState (currentSystemId u) (currentSystem u) i r (travelPhase u)
    (travelProgress u) (travelDuration u) (travelTimer u) (starMapOpen u).
Definition set_travelPhase (u : UniverseState) (v : TravelPhase) : UniverseState :=
  mkUniverseState (currentSystemId u) (currentSystem u) (destinationId u)
    (destination u) v (travelProgress u) (travelDuration u) (travelTimer u)
    (starMapOpen u).
Definition set_travelProgress (u : UniverseState) (v : N) : UniverseState :=
  mkUniverseState (currentSystemId u) (currentSystem u) (destinationId u)
    (destination u) (travelPhase u) v (travelDuration u) (travelTimer u)
    (starMapOpen u).
Definition set_travelDuration (u : UniverseState) (v : N) : UniverseState :=
  mkUniverseState (currentSystemId u) (currentSystem u) (destinationId u)
    (destination u) (travelPhase u) (travelProgress u) v (travelTimer u)
    (starMapOpen u).
Definition set_travelTimer (u : UniverseState) (v : N) : UniverseState :=
  mkUniverseState (currentSystemId u) (currentSystem u) (destinationId u)
    (destination u) (travelPhase u) (travelProgress u) (travelDuration u) v
    (starMapOpen u).
Definition set_current (u : UniverseState) (i : string) (r : SystemRef)
    : UniverseState :=
  mkUniverseState i r (destinationId u) (destination u) (travelPhase u)
    (travelProgress u) (travelDuration u) (travelTimer u) (starMapOpen u).

Definition WARP_CHARGE_TIME : N := lit 2.0.    (* seconds to charge before jump *)
Definition WARP_MIN_DURATION : N := lit 3.0.   (* minimum warp travel time *)
Definition WARP_SPEED_FACTOR : N := lit 0.025. (* map distance -> seconds *)
Definition ARRIVAL_TIME : N := lit 1.5.        (* seconds for deceleration *)

Definition isIdle (phase : TravelPhase) : bool :=
  match phase with idle => true | _ => false end.

(** [getSystem('sol')!]: without a system of that id the state would hold
    [undefined]. *)
Definition createUniverseState (systems : list (StarSystem N)) : option UniverseState :=
  match getSystem systems "sol" with
  | Some startSystem =>
      Some {| currentSystemId := "sol";
              currentSystem := startSystem;
              destinationId := None;
              destination := None;
              travelPhase := idle;
              travelProgress := lit 0;
              travelDuration := lit 0;
              travelTimer := lit 0;
              starMapOpen := false |}
  | None => None
  end.

(** Set a destination system for warp travel.  Only allows connected
    systems (direct warp routes). *)
Definition setDestination (state : UniverseState) (systems : list (StarSystem N))
    (systemId : string) : bool * UniverseState :=
  if String.eqb systemId (currentSystemId state) then (false, state)
  else
    (* Must be a connected system *)
    let connected := getConnectedSystems systems (currentSystemId state) in
    let target :=
      List.find
        (fun r => match systems !! r with
                  | Some s => String.eqb (id s) systemId
                  | None => false
                  end)
        connected in
    match target with
    | None => (false, state)
    | Some target => (true, set_destination state (Some systemId) (Some target))
    end.

(** Clear the current destination. *)
Definition clearDestination (state : UniverseState) : UniverseState :=
  let state := set_destination state None None in
  if isIdle (travelPhase state) then set_travelTimer state (lit 0) else state.

(** Initiate warp travel to the selected destination. *)
Definition initiateWarp (uState : UniverseState) (systems : list (StarSystem N))
    (gameState : GameState.t N) : option (bool * UniverseState) :=
  match destination uState with
  | None => Some (false, uState)
  | Some dest =>
      if negb (isIdle (travelPhase uState)) then Some (false, uState)
      else if GameState.throttle gameState <? lit 0.1 then Some (false, uState)
      else
        match systems !! currentSystem uState, systems !! dest with
        | Some a, Some b =>
            (* Calculate travel duration based on map distance *)
            let dist := getMapDistance a b in
            let uState :=
              set_travelDuration uState
                (Math_max WARP_MIN_DURATION (dist * WARP_SPEED_FACTOR)) in
            let uState := set_travelPhase uState charging in
            let uState := set_travelTimer uState (lit 0) in
            let uState := set_travelProgress uState (lit 0) in
            Some (true, uState)
        | _, _ => None
        end
  end.

(** What a call leaves behind: the result, the travel state, the table
    and the game state. *)
Record Travel : Type := mkTravel {
  result : TravelResult;
  universe : UniverseState;
  table : list (StarSystem N);
  ship : GameState.t N
}.

(** Complete the arrival at the destination system. *)
Definition arriveAtDestination (uState : UniverseState)
    (systems : list (StarSystem N)) (gameState : GameState.t N) : option Travel :=
  match destination uState with
  | None => Some (mkTravel arrived (set_travelPhase uState idle) systems gameState)
  | Some dest =>
      match systems !! dest with
      | None => None
      | Some sys =>
          (* Update current system *)
          let uState := set_current uState (id sys) dest in
          (* Mark as discovered *)
          let systems := <[dest := set_discovered sys true]> systems in
          (* Reset player position in the new system *)
          let gameState :=
            GameState.set_position gameState (mkVector3 (lit 0) (lit 0) (lit 0)) in
          let gameState := GameState.set_speed gameState (lit 0.3) in
          let gameState := GameState.set_throttle gameState (lit 0.3) in
          let gameState := GameState.set_isWarp gameState false in
          (* Clear destination *)
          let uState := set_destination uState None None in
          let uState := set_travelPhase uState idle in
          let uState := set_travelTimer uState (lit 0) in
          let uState := set_travelProgress uState (lit 0) in
          Some (mkTravel arrived uState systems gameState)
      end
  end.

(** Update the warp travel state machine each frame. *)
Definition updateTravel (uState : UniverseState) (systems : list (StarSystem N))
    (gameState : GameState.t N) (delta : N) : option Travel :=
  match travelPhase uState with
  | idle => Some (mkTravel none uState systems gameState)
  | phase =>
      let uState := set_travelTimer uState (travelTimer uState + delta) in
      match phase with
      | charging =>
          (* Charging phase: build up energy before jump *)
          if travelTimer uState >=? WARP_CHARGE_TIME then
            let uState := set_travelPhase uState warping in
            let uState := set_travelTimer uState (lit 0) in
            Some (mkTravel started_warp uState systems
                    (GameState.set_isWarp gameState true))
          else Some (mkTravel none uState systems gameState)
      | warping =>
          (* In warp: update progress *)
          let uState :=
            set_travelProgress uState
              (Math_min (lit 1) (travelTimer uState / travelDuration uState)) in
          let gameState := GameState.set_isWarp gameState true in
          let gameState :=
            GameState.set_speed gameState
              (lit 5.0 + travelProgress uState * lit 3.0) in
          let uState :=
            if travelProgress uState >=? lit 1 then
              set_travelTimer (set_travelPhase uState arriving) (lit 0)
            else uState in
          Some (mkTravel none uState systems gameState)
      | arriving =>
          (* Deceleration phase *)
          let gameState := GameState.set_isWarp gameState false in
          let gameState :=
            GameState.set_speed gameState
              (Math_max (lit 0.3) (lit 1.0 - travelTimer uState / ARRIVAL_TIME)) in
          if travelTimer uState >=? ARRIVAL_TIME
          then arriveAtDestination uState systems gameState
          else Some (mkTravel none uState systems gameState)
      | idle => Some (mkTravel none uState systems gameState)
      end
  end.

(** Cancel an in-progress warp (only during charging phase). *)
Definition cancelWarp (uState : UniverseState) (gameState : GameState.t N)
    : bool * UniverseState :=
  match travelPhase uState with
  | charging => (true, set_travelTimer (set_travelPhase uState idle) (lit 0))
  | _ => (false, uState)   (* can't cancel mid-warp *)
  end.

End UniverseManager.
Arguments UniverseState : clear implicits.
Arguments Travel N {_}.
End UniverseManager.

(** [Math.sqrt] on rationals: exact on squares, rounded down elsewhere. *)
#[export] Instance Sqrt_Q : HostSqrt Q := {| Math_sqrt := RationalThree.Qsqrt |}.

(** ** EnterpriseGame.vue: the combat block of the game loop

    The block of [gameLoop] that runs while a mission is active: shield
    sync, enemy AI, the player's hits, the removal of the torpedoes that
    hit, the timers, and the copy of the shield state back into the game
    state.  Explosions and the rounded HUD values are presentation and are
    left out.  During an active mission [enemy] and [combatState] are set
    ([startMission] creates them), so the record holds them as they are. *)

Module GameLoop.
Import CombatSystem.

Inductive MissionPhase : Type :=
| phase_free | phase_briefing | phase_active | phase_victory | phase_defeat.

Definition isActive (phase : MissionPhase) : bool :=
  match phase with phase_active => true | _ => false end.

Section GameLoop.
Context {N : Type} `{Number N} `{Three N}.
Local Open Scope js_scope.

(** The removal loop walks [hits] from its last index down and splices
    each index out of the torpedo array.  It reads the torpedo's mesh
    first: at an index the array does not have that is a [TypeError],
    [None] here.  [removeHits_down] takes the indices in the order the
    loop visits them. *)
Fixpoint removeHits_down (torpedoes : list (Effects.PhotonTorpedo N))
    (visited : list nat) : option (list (Effects.PhotonTorpedo N)) :=
  match visited with
  | [] => Some torpedoes
  | idx :: rest =>
      match torpedoes !! idx with
      | Some _torp => removeHits_down (delete idx torpedoes) rest
      | None => None
      end
  end.

Definition removeHits (torpedoes : list (Effects.PhotonTorpedo N))
    (hits : list nat) : option (list (Effects.PhotonTorpedo N)) :=
  removeHits_down torpedoes (rev hits).

(** The variables of the component the block reads and writes. *)
Record Game : Type := mkGame {
  state : GameState.t N;
  weaponState : WeaponSystem.WeaponSystemState N;
  enemy : EnemyAI.EnemyShip N;
  combatState : CombatState N;
  missionPhase : MissionPhase
}.

(** The torpedo check of the block: positions are cloned, hits are
    computed, hit torpedoes are removed. *)
Definition torpedoHits (combat : CombatState N)
    (torpedoes : list (Effects.PhotonTorpedo N)) (enemyPosition : Vector3 N)
    : option (list (Effects.PhotonTorpedo N)) * CombatState N :=
  if (0 <? length torpedoes)%nat then
    let torpPositions := map Effects.mesh_position torpedoes in
    let '(hits, combat) := checkTorpedoHits combat torpPositions enemyPosition in
    (removeHits torpedoes hits, combat)
  else (Some torpedoes, combat).

(** -- Enemy AI & Combat (only during active mission) -- *)
Definition combatFrame (g : Game) (fr : EnemyAI.Frame N) : option Game :=
  if isActive (missionPhase g) then
    (* Sync player shields *)
    let combat := syncPlayerShields (combatState g) (state g) in
    (* Update enemy AI *)
    let '(enemy, combat) := EnemyAI.updateEnemyAI (enemy g) (state g) combat fr in
    (* Check player weapons hitting enemy *)
    let '(_phaserHit, combat) :=
      checkPhaserHits combat (state g) (EnemyAI.position enemy) (EnemyAI.delta fr) in
    (* Check torpedo hits *)
    let '(remaining, combat) :=
      torpedoHits combat (WeaponSystem.torpedoes (weaponState g))
                  (EnemyAI.position enemy) in
    match remaining with
    | None => None
    | Some torpedoes =>
        let weaponState :=
          {| WeaponSystem.phaserBeams := WeaponSystem.phaserBeams (weaponState g);
             WeaponSystem.phaserCores := WeaponSystem.phaserCores (weaponState g);
             WeaponSystem.torpedoes := torpedoes;
             WeaponSystem.phaserCooldown := WeaponSystem.phaserCooldown (weaponState g) |} in
        (* Update combat timers *)
        let combat := updateCombatTimers combat (EnemyAI.delta fr) in
        (* Sync player hull back into game state shield strength *)
        let state :=
          GameState.set_shieldStrength (state g) (shieldStrength (playerHealth combat)) in
        let state :=
          if shieldStrength (playerHealth combat) <=? lit 0
          then GameState.set_shieldsActive state false else state in
        (* Game over check *)
        let phase :=
          match gameOver combat with
          | Some victory =>
              if isActive (missionPhase g) then phase_victory else missionPhase g
          | Some defeat =>
              if isActive (missionPhase g) then phase_defeat else missionPhase g
          | None => missionPhase g
          end in
        Some {| state := state; weaponState := weaponState; enemy := enemy;
                combatState := combat; missionPhase := phase |}
    end
  else Some g.

(** Planet collision detection, for one body: a planet with its collision
    radius plus 2 as [minDist], or the star with its radius plus 5.  A
    ship closer than [minDist] to the body's centre is pushed out to that
    distance and slowed down. *)
Definition collide (state : GameState.t N) (centre : Vector3 N) (minDist : N)
    : GameState.t N :=
  let toShip := subVectors (GameState.position state) centre in
  let dist := vec_length toShip in
  if dist <? minDist then
    (* Push ship out to the surface *)
    let toShip := multiplyScalar (normalize toShip) minDist in
    let state := GameState.set_position state (addVectors centre toShip) in
    (* Kill velocity to prevent sliding through *)
    let state :=
      GameState.set_speed state (Math_min (GameState.speed state) (lit 0.1)) in
    let state :=
      GameState.set_throttle state (Math_min (GameState.throttle state) (lit 0.1)) in
    if GameState.isWarp state then GameState.set_isWarp state false else state
  else state.

(** [onTouchThrottle], the handler of the touch controls. *)
Definition onTouchThrottle (state : GameState.t N) (speed : N) : GameState.t N :=
  GameState.set_throttle state (if speed =? lit 0 then lit 0 else speed / lit 9).

(** [restartGame], as far as the game state goes: the ship is put back as
    a new game has it.  (The disposal of the enemy, the combat state set
    to [null] and the values of the HUD are the component's.) *)
Definition restartGame (state : GameState.t N) : GameState.t N :=
  let state := GameState.set_position state (mkVector3 (lit 0) (lit 0) (lit 0)) in
  let state := GameState.set_quaternion state quat_identity in
  let state := GameState.set_velocity state (mkVector3 (lit 0) (lit 0) (lit 0)) in
  let state := GameState.set_throttle state (lit 0) in
  let state := GameState.set_speed state (lit 0) in
  let state := GameState.set_isWarp state false in
  let state := GameState.set_shieldsActive state false in
  let state := GameState.set_shieldStrength state (lit 100) in
  let state := GameState.set_phaserCharge state (lit 100) in
  let state := GameState.set_torpedoCount state (lit 64) in
  let state := GameState.set_phaserFiring state false in
  GameState.set_torpedoFiring state false.

End GameLoop.
Arguments Game N {_}.
End GameLoop.

(** ** voice-executor.ts

    Voice commands as writes to the game state.  The callbacks of the
    execution context are the component's: [onNavigateTo] writes the
    component's [autoPilotTarget] and is modelled with the loop (see
    [FrameStart.voiceCommands]); the mission start, the reports and the
    spoken response write nothing modelled here and are left out. *)

Module VoiceExecutor.
Section VoiceExecutor.
Context {N : Type} `{Number N} `{Three N}.
Local Open Scope js_scope.
Import GameState.

Inductive CommandAction : Type :=
| SET_THROTTLE (speed : N)
| ENGAGE_WARP
| DISENGAGE_WARP
| ALL_STOP
| SHIELDS_UP
| SHIELDS_DOWN
| FIRE_PHASERS
| FIRE_TORPEDO
| ENGAGE_ENEMY
| RED_ALERT
| START_MISSION
| DAMAGE_REPORT
| STATUS_REPORT
| NAVIGATE_TO (target : string).

(** Execute a single voice command action against the game state. *)
Definition executeVoiceCommand (action : CommandAction) (gs : GameState.t N)
    : GameState.t N :=
  match action with
  | SET_THROTTLE speed =>
      set_throttle gs (if speed =? lit 0 then lit 0 else speed / lit 9)
  | ENGAGE_WARP =>
      (* Need some speed first: set to max *)
      let gs := if throttle gs <? lit 0.1 then set_throttle gs (lit 1.0) else gs in
      set_isWarp gs true
  | DISENGAGE_WARP => set_isWarp gs false
  | ALL_STOP => set_isWarp (set_throttle gs (lit 0)) false
  | SHIELDS_UP => set_shieldsActive gs true
  | SHIELDS_DOWN => set_shieldsActive gs false
  | FIRE_PHASERS => set_phaserFiring gs true
  | FIRE_TORPEDO =>
      if torpedoCount gs >? lit 0 then set_torpedoFiring gs true else gs
  | RED_ALERT => set_shieldsActive gs true
  | ENGAGE_ENEMY =>
      let gs := set_shieldsActive gs true in
      if throttle gs <? lit 0.5 then set_throttle gs (lit 1.0) else gs
  | NAVIGATE_TO _ =>
      (* Also set full impulse if stopped *)
      if throttle gs <? lit 0.5 then set_throttle gs (lit 1.0) else gs
  | START_MISSION | DAMAGE_REPORT | STATUS_REPORT => gs
  end.

End VoiceExecutor.
Arguments CommandAction : clear implicits.
End VoiceExecutor.

(** ** EnterpriseGame.vue: the start of a frame

    The blocks of [gameLoop] that run before the weapons: the queued voice
    commands, the voice-triggered phaser burst, the auto-pilot and
    [updateShip] (outside photo mode).  [voicePhaserBurstTimer] and
    [autoPilotTarget] are variables of the component;
    [resolveNavTarget] is its function from a spoken target to a place,
    which reads the planet table and the enemy, and is taken as given. *)

Module FrameStart.
Import VoiceExecutor.
Section FrameStart.
Context {N : Type} `{Number N} `{Three N}.
Local Open Scope js_scope.

Definition AUTO_PILOT_TURN_SPEED : N := lit 0.8.

(** Execute any queued voice commands.  A navigation command whose target
    resolves sets the auto-pilot target ([onNavigateTo]); a phaser command
    arms the burst timer. *)
Definition voiceCommands (resolveNavTarget : string -> option (Vector3 N))
    (commands : list (CommandAction N)) (voicePhaserBurstTimer : N)
    (autoPilotTarget : option (Vector3 N)) (state : GameState.t N)
    : N * option (Vector3 N) * GameState.t N :=
  fold_left
    (fun '(timer, target, state) action =>
       let target :=
         match action with
         | NAVIGATE_TO name =>
             match resolveNavTarget name with
             | Some pos => Some pos
             | None => target
             end
         | _ => target
         end in
       let state := executeVoiceCommand action state in
       let timer :=
         match action with
         | FIRE_PHASERS => lit 2.0
         | _ => timer
         end in
       (timer, target, state))
    commands (voicePhaserBurstTimer, autoPilotTarget, state).

(** Voice-triggered phaser burst (fire for a few seconds then stop). *)
Definition voicePhaserBurst (voicePhaserBurstTimer : N) (state : GameState.t N)
    (input : InputManager.t) (delta : N) : N * GameState.t N :=
  if voicePhaserBurstTimer >? lit 0 then
    let state := GameState.set_phaserFiring state true in
    let timer := voicePhaserBurstTimer - delta in
    if timer <=? lit 0 then
      (* Don't force-stop if player is also holding Space *)
      (lit 0,
       if negb (InputManager.isPressed input "Space")
       then GameState.set_phaserFiring state false else state)
    else (timer, state)
  else (voicePhaserBurstTimer, state).

(** Auto-pilot (voice navigation). *)
Definition autoPilot (autoPilotTarget : option (Vector3 N)) (state : GameState.t N)
    (input : InputManager.t) (delta : N) : option (Vector3 N) * GameState.t N :=
  match autoPilotTarget with
  | None => (None, state)
  | Some target =>
      let toTarget := subVectors target (GameState.position state) in
      let distToTarget := vec_length toTarget in
      if distToTarget <? lit 50 then (None, state)   (* arrived *)
      else
        (* Turn toward target *)
        let targetQuat :=
          lookAt_quat (GameState.position state) target
                      (mkVector3 (lit 0) (lit 1) (lit 0)) in
        let t := Math_min (AUTO_PILOT_TURN_SPEED * delta) (lit 1) in
        let state :=
          GameState.set_quaternion state
            (quat_normalize (quat_slerp (GameState.quaternion state) targetQuat t)) in
        (* Cancel auto-pilot if player manually steers *)
        if InputManager.isPressed input "KeyW" || InputManager.isPressed input "KeyS"
           || InputManager.isPressed input "KeyA" || InputManager.isPressed input "KeyD"
           || InputManager.isPressed input "KeyQ" || InputManager.isPressed input "KeyE"
        then (None, state) else (Some target, state)
  end.

(** The variables these blocks share. *)
Record Helm : Type := mkHelm {
  voicePhaserBurstTimer : N;
  autoPilotTarget : option (Vector3 N);
  state : GameState.t N;
  input : InputManager.t
}.

(** The four blocks in the order of the loop. *)
Definition frameStart (resolveNavTarget : string -> option (Vector3 N))
    (commands : list (CommandAction N)) (h : Helm) (delta : N) : Helm :=
  let '(timer, target, state) :=
    voiceCommands resolveNavTarget commands (voicePhaserBurstTimer h)
                  (autoPilotTarget h) (state h) in
  let '(timer, state) := voicePhaserBurst timer state (input h) delta in
  let '(target, state) := autoPilot target state (input h) delta in
  let '(state, input) := ShipController.updateShip state (input h) delta in
  {| voicePhaserBurstTimer := timer; autoPilotTarget := target;
     state := state; input := input |}.

End FrameStart.
Arguments Helm N {_}.
End FrameStart.

(** ** mission-system.ts

    Missions, their objectives and the captain's rating.  Titles,
    descriptions, briefings and the reward text are left out;
    [completedCount] and the rewards are small whole numbers, kept as
    [nat]. *)

Module MissionSystem.

Inductive MissionType : Type := explore | patrol | survey | transport | scan.

Inductive MissionStatus : Type := available | active | done | failed.
(* [done] is the status ['completed']; [completed] names the flag of an
   objective *)

Record MissionObjective : Type := mkMissionObjective {
  systemId : string;         (* system the objective is in *)
  completed : bool
}.

Record Mission : Type := mkMission {
  id : string;
  type : MissionType;
  status : MissionStatus;
  sourceSystemId : string;   (* system where this mission is offered *)
  objectives : list MissionObjective;
  torpedoReward : nat;
  shieldReward : nat
}.

Record MissionState : Type := mkMissionState {
  missions : list Mission;
  activeMissionId : option string;   (* [None] is [null] *)
  completedCount : nat;
  rating : string
}.

Definition set_status (m : Mission) (v : MissionStatus) : Mission :=
  mkMission (id m) (type m) v (sourceSystemId m) (objectives m)
            (torpedoReward m) (shieldReward m).
Definition set_objectives (m : Mission) (v : list MissionObjective) : Mission :=
  mkMission (id m) (type m) (status m) (sourceSystemId m) v
            (torpedoReward m) (shieldReward m).
Definition set_id (m : Mission) (v : string) : Mission :=
  mkMission v (type m) (status m) (sourceSystemId m) (objectives m)
            (torpedoReward m) (shieldReward m).

Definition isAvailable (st : MissionStatus) : bool :=
  match st with available => true | _ => false end.
Definition isActive (st : MissionStatus) : bool :=
  match st with active => true | _ => false end.

(** The templates; [createMissionState] gives them their ids. *)
Definition MISSION_TEMPLATES : list Mission := [
  {| id := ""; type := explore; status := available; sourceSystemId := "sol";
     objectives := [{| systemId := "vulcan"; completed := false |}];
     torpedoReward := 10; shieldReward := 0 |};
  {| id := ""; type := patrol; status := available; sourceSystemId := "sol";
     objectives := [{| systemId := "wolf359"; completed := false |}; {| systemId := "sol"; completed := false |}];
     torpedoReward := 15; shieldReward := 50 |};
  {| id := ""; type := transport; status := available; sourceSystemId := "sol";
     objectives := [{| systemId := "alpha-centauri"; completed := false |}];
     torpedoReward := 8; shieldReward := 0 |};
  {| id := ""; type := survey; status := available; sourceSystemId := "vulcan";
     objectives := [{| systemId := "rigel"; completed := false |}; {| systemId := "vulcan"; completed := false |}];
     torpedoReward := 20; shieldReward := 100 |};
  {| id := ""; type := explore; status := available; sourceSystemId := "vulcan";
     objectives := [{| systemId := "andoria"; completed := false |}];
     torpedoReward := 12; shieldReward := 30 |};
  {| id := ""; type := explore; status := available; sourceSystemId := "deep-space-5";
     objectives := [{| systemId := "frontier"; completed := false |}; {| systemId := "deep-space-5"; completed := false |}];
     torpedoReward := 30; shieldReward := 100 |};
  {| id := ""; type := transport; status := available; sourceSystemId := "sol";
     objectives := [{| systemId := "starbase74"; completed := false |}];
     torpedoReward := 10; shieldReward := 0 |};
  {| id := ""; type := patrol; status := available; sourceSystemId := "sol";
     objectives := [{| systemId := "alpha-centauri"; completed := false |}; {| systemId := "betazed"; completed := false |}];
     torpedoReward := 15; shieldReward := 100 |}
].

Definition createMissionState : MissionState := {|
  missions :=
    imap (fun i t => set_id t (String.append "mission-" (pretty i))) MISSION_TEMPLATES;
  activeMissionId := None;
  completedCount := 0;
  rating := "Ensign"
|}.

(** The truth value of a [string | null]: [null] and the empty string are
    false. *)
Definition truthy (s : option string) : bool :=
  match s with
  | Some EmptyString => false
  | Some _ => true
  | None => false
  end.

(** Get missions available at the current system's station. *)
Definition getAvailableMissions (state : MissionState) (sys : string) : list Mission :=
  List.filter
    (fun m => isAvailable (status m) && String.eqb (sourceSystemId m) sys)
    (missions state).

(** [state.missions.find(m => m.id === missionId)]: the place and the
    mission. *)
Definition findMission (state : MissionState) (missionId : string)
    : option (nat * Mission) :=
  list_find (fun m => id m = missionId) (missions state).

(** Accept a mission (set it as active). *)
Definition acceptMission (state : MissionState) (missionId : string)
    : bool * MissionState :=
  if truthy (activeMissionId state) then (false, state)  (* already have one *)
  else
    match findMission state missionId with
    | None => (false, state)
    | Some (i, mission) =>
        if negb (isAvailable (status mission)) then (false, state)
        else
          (true,
           {| missions := <[i := set_status mission active]> (missions state);
              activeMissionId := Some missionId;
              completedCount := completedCount state;
              rating := rating state |})
    end.

(** The loop over the objectives: the first one that is not completed and
    lies in the current system is completed, and the loop stops. *)
Fixpoint completeFirst (objs : list MissionObjective) (currentSystemId : string)
    : list MissionObjective :=
  match objs with
  | [] => []
  | obj :: rest =>
      if negb (completed obj) && String.eqb (systemId obj) currentSystemId
      then mkMissionObjective (systemId obj) true :: rest
      else obj :: completeFirst rest currentSystemId
  end.

Definition updateRating (state : MissionState) : MissionState :=
  let count := completedCount state in
  let r :=
    if (7 <=? count)%nat then "Admiral"
    else if (5 <=? count)%nat then "Captain"
    else if (3 <=? count)%nat then "Commander"
    else if (1 <=? count)%nat then "Lieutenant"
    else "Ensign" in
  mkMissionState (missions state) (activeMissionId state) (completedCount state) r.

(** [{ completed, mission }]: the mission is the record as the call left
    it. *)
Record CheckResult : Type := mkCheckResult {
  res_completed : bool;
  res_mission : option Mission
}.

(** Check mission objectives when arriving at a system. *)
Definition checkMissionObjectives (state : MissionState) (currentSystemId : string)
    : CheckResult * MissionState :=
  if negb (truthy (activeMissionId state)) then (mkCheckResult false None, state)
  else
    match activeMissionId state with
    | None => (mkCheckResult false None, state)
    | Some activeId =>
        match findMission state activeId with
        | None => (mkCheckResult false None, state)
        | Some (i, mission) =>
            if negb (isActive (status mission))
            then (mkCheckResult false None, state)
            else
              let mission :=
                set_objectives mission
                  (completeFirst (objectives mission) currentSystemId) in
              (* Check if all objectives are done *)
              let allDone := forallb completed (objectives mission) in
              if allDone then
                let mission := set_status mission done in
                let state :=
                  {| missions := <[i := mission]> (missions state);
                     activeMissionId := None;
                     completedCount := S (completedCount state);
                     rating := rating state |} in
                (mkCheckResult true (Some mission), updateRating state)
              else
                (mkCheckResult false (Some mission),
                 {| missions := <[i := mission]> (missions state);
                    activeMissionId := activeMissionId state;
                    completedCount := completedCount state;
                    rating := rating state |})
        end
    end.

(** Get the currently active mission. *)
Definition getActiveMission (state : MissionState) : option Mission :=
  if negb (truthy (activeMissionId state)) then None
  else
    match activeMissionId state with
    | Some activeId => snd <$> findMission state activeId
    | None => None
    end.

(** Get the next incomplete objective for the active mission. *)
Definition getNextObjective (state : MissionState) : option MissionObjective :=
  match getActiveMission state with
  | None => None
  | Some mission => List.find (fun o => negb (completed o)) (objectives mission)
  end.

(** What the player does to the mission log: accepting a mission at a
    station, and arriving in a system. *)
Inductive Event : Type :=
| Accept (missionId : string)
| Arrive (sys : string).

Definition step (state : MissionState) (e : Event) : MissionState :=
  match e with
  | Accept missionId => snd (acceptMission state missionId)
  | Arrive sys => snd (checkMissionObjectives state sys)
  end.

Definition run (state : MissionState) (events : list Event) : MissionState :=
  fold_left step events state.

(** The missions of the log whose status is ['completed']. *)
Definition isCompleted (m : Mission) : bool :=
  match status m with done => true | _ => false end.

Definition completedMissions (state : MissionState) : list Mission :=
  List.filter isCompleted (missions state).

(** The shape of a mission log in play: the missions keep the ids they
    were created with, the active mission is named by a proper id, the
    missions of status ['active'] are those named by [activeMissionId],
    [completedCount] counts the completed missions, and the rating is the
    one [updateRating] gives for that count. *)
Definition ids (state : MissionState) : list string := id <$> missions state.

Definition wellFormed (state : MissionState) : Prop :=
  ids state = ids createMissionState
  /\ activeMissionId state <> Some EmptyString
  /\ (forall j m, missions state !! j = Some m ->
        (status m = active <-> activeMissionId state = Some (id m)))
  /\ completedCount state = length (completedMissions state)
  /\ rating state = rating (updateRating state).

End MissionSystem.

(** ** EnterpriseGame.vue: travel, arrival and mission rewards

    Steps 1 and 1b of [gameLoop] in the component with the star map: the
    travel state machine, and on arrival the mission check with its
    rewards; then the key that starts a trip.  The flash, the arrival
    message, the loading of the system's scene and the HUD are
    presentation.  [missionState] is [null] until the component is
    mounted, [None] here. *)

Module Voyage.
Import MissionSystem.
Section Voyage.
Context {N : Type} `{Number N} `{Three N} `{HostSqrt N}.
Local Open Scope js_scope.

(** A whole number of the mission table as a number of the game state. *)
Definition ofCount (n : nat) : N := lit (inject_Z (Z.of_nat n)).

(** Apply rewards: [if (result.completed && result.mission)]. *)
Definition applyRewards (result : CheckResult) (state : GameState.t N)
    : GameState.t N :=
  match res_completed result, res_mission result with
  | true, Some mission =>
      let state :=
        GameState.set_torpedoCount state
          (Math_min (lit 64)
             (GameState.torpedoCount state + ofCount (torpedoReward mission))) in
      GameState.set_shieldStrength state
        (Math_min (lit 100)
           (GameState.shieldStrength state + ofCount (shieldReward mission)))
  | _, _ => state
  end.

(** Check mission objectives, on arrival in [currentSystemId]. *)
Definition checkArrival (missionState : option MissionState)
    (currentSystemId : string) (state : GameState.t N)
    : option MissionState * GameState.t N :=
  match missionState with
  | None => (None, state)
  | Some missionState =>
      let '(result, missionState) :=
        checkMissionObjectives missionState currentSystemId in
      (Some missionState, applyRewards result state)
  end.

(** 1. Update universe travel state. *)
Definition travelStep (uState : UniverseManager.UniverseState N)
    (systems : list (Universe.StarSystem N)) (missionState : option MissionState)
    (state : GameState.t N) (delta : N)
    : option (UniverseManager.Travel N * option MissionState) :=
  match UniverseManager.updateTravel uState systems state delta with
  | None => None
  | Some t =>
      match UniverseManager.result t with
      | UniverseManager.arrived =>
          (* Arrived at new system! *)
          let '(missionState, state) :=
            checkArrival missionState
              (UniverseManager.currentSystemId (UniverseManager.universe t))
              (UniverseManager.ship t) in
          Some (UniverseManager.mkTravel UniverseManager.arrived
                  (UniverseManager.universe t) (UniverseManager.table t) state,
                missionState)
      | _ => Some (t, missionState)
      end
  end.

(** 1b. The key that starts a trip, read while a destination is set and
    the travel phase is idle: the throttle is raised to one half if it is
    below 0.3, then [initiateWarp] is called. *)
Definition engageKey (uState : UniverseManager.UniverseState N)
    (systems : list (Universe.StarSystem N)) (state : GameState.t N)
    (input : InputManager.t)
    : option (UniverseManager.UniverseState N * GameState.t N * InputManager.t) :=
  match UniverseManager.destination uState with
  | Some _ =>
      if UniverseManager.isIdle (UniverseManager.travelPhase uState) then
        let '(pressed, input) := InputManager.wasJustPressed input "CapsLock" in
        if pressed then
          let state :=
            if GameState.throttle state <? lit 0.3
            then GameState.set_throttle state (lit 0.5) else state in
          match UniverseManager.initiateWarp uState systems state with
          | Some (_, uState) => Some (uState, state, input)
          | None => None
          end
        else Some (uState, state, input)
      else Some (uState, state, input)
  | None => Some (uState, state, input)
  end.

(** [onEngageWarp], the button of the star map: the same throttle and
    the same call. *)
Definition onEngageWarp (uState : UniverseManager.UniverseState N)
    (systems : list (Universe.StarSystem N)) (state : GameState.t N)
    : option (UniverseManager.UniverseState N * GameState.t N) :=
  let state :=
    if GameState.throttle state <? lit 0.3
    then GameState.set_throttle state (lit 0.5) else state in
  match UniverseManager.initiateWarp uState systems state with
  | Some (_, uState) => Some (uState, state)
  | None => None
  end.

End Voyage.
End Voyage.

(** ** The writers of the game state

    The functions, handlers and loop blocks of the game that are handed
    the game state and may write it, each with the other values it is
    called on, and what each leaves of the state.  [None] is a
    [TypeError].  [updateDerivedState] assigns the three display fields;
    their values (Euler angles, rounding, number formatting) are computed
    by the host and are given here. *)

Module Writers.
Section Writers.
Context {N : Type} `{Number N} `{Three N} `{HostSqrt N}.

Inductive Writer : Type :=
| UpdateShip (input : InputManager.t) (delta : N)
| UpdateWeapons (ws : WeaponSystem.WeaponSystemState N) (delta : N)
| CombatFrame (weaponState : WeaponSystem.WeaponSystemState N)
    (enemy : EnemyAI.EnemyShip N) (combatState : CombatSystem.CombatState N)
    (missionPhase : GameLoop.MissionPhase) (fr : EnemyAI.Frame N)
| VoiceCommands (resolveNavTarget : string -> option (Vector3 N))
    (commands : list (VoiceExecutor.CommandAction N)) (timer : N)
    (target : option (Vector3 N))
| VoicePhaserBurst (timer : N) (input : InputManager.t) (delta : N)
| AutoPilot (target : option (Vector3 N)) (input : InputManager.t) (delta : N)
| TravelStep (uState : UniverseManager.UniverseState N)
    (systems : list (Universe.StarSystem N))
    (missionState : option MissionSystem.MissionState) (delta : N)
| EngageKey (uState : UniverseManager.UniverseState N)
    (systems : list (Universe.StarSystem N)) (input : InputManager.t)
| EngageWarp (uState : UniverseManager.UniverseState N)
    (systems : list (Universe.StarSystem N))
| Collide (centre : Vector3 N) (minDist : N)
| TouchThrottle (speed : N)
| DerivedState (heading bearing : N) (speedDisplay : string)
| RestartGame.

Definition write (w : Writer) (state : GameState.t N) : option (GameState.t N) :=
  match w with
  | UpdateShip input delta => Some (fst (ShipController.updateShip state input delta))
  | UpdateWeapons ws delta => Some (snd (WeaponSystem.updateWeapons ws state delta))
  | CombatFrame weaponState enemy combatState missionPhase fr =>
      GameLoop.state <$>
        GameLoop.combatFrame
          (GameLoop.mkGame state weaponState enemy combatState missionPhase) fr
  | VoiceCommands resolveNavTarget commands timer target =>
      Some (snd (FrameStart.voiceCommands resolveNavTarget commands timer target
                   state))
  | VoicePhaserBurst timer input delta =>
      Some (snd (FrameStart.voicePhaserBurst timer state input delta))
  | AutoPilot target input delta =>
      Some (snd (FrameStart.autoPilot target state input delta))
  | TravelStep uState systems missionState delta =>
      (fun r => UniverseManager.ship (fst r)) <$>
        Voyage.travelStep uState systems missionState state delta
  | EngageKey uState systems input =>
      (fun r => snd (fst r)) <$> Voyage.engageKey uState systems state input
  | EngageWarp uState systems => snd <$> Voyage.onEngageWarp uState systems state
  | Collide centre minDist => Some (GameLoop.collide state centre minDist)
  | TouchThrottle speed => Some (GameLoop.onTouchThrottle state speed)
  | DerivedState heading bearing speedDisplay =>
      Some (GameState.mk (GameState.position state) (GameState.quaternion state)
              (GameState.velocity state) (GameState.throttle state)
              (GameState.speed state) (GameState.isWarp state)
              (GameState.shieldsActive state) (GameState.shieldStrength state)
              (GameState.phaserCharge state) (GameState.torpedoCount state)
              (GameState.phaserFiring state) (GameState.torpedoFiring state)
              heading bearing speedDisplay)
  | RestartGame => Some (GameLoop.restartGame state)
  end.

End Writers.
Arguments Writer N {_}.
End Writers.

(** ** Concrete inputs

    The records the scenarios, witnesses and counterexamples below are run
    on. *)

Module Scenario.
Import CombatSystem RationalThree.
Local Open Scope Q_scope.

(** A fresh ship, hull 100, shields down. *)
Definition fresh : ShipHealth Q := createShipHealth 100.

(** A fresh ship with its shields raised at full strength. *)
Definition shielded : ShipHealth Q := set_shieldsUp (createShipHealth 100) true.

(** The same two ships in double precision. *)
Definition fresh64 : ShipHealth float := createShipHealth (lit 100).
Definition shielded64 : ShipHealth float :=
  set_shieldsUp (createShipHealth (lit 100)) true.

(** A destroyed ship with its shields still up. *)
Definition wreck64 : ShipHealth float :=
  {| hull := lit 0; maxHull := lit 100; shieldsUp := true;
     shieldStrength := lit 40; isDestroyed := true; damageFlash := lit 0.25 |}.

(** Both ships destroyed in the same frame, no outcome recorded yet. *)
Definition mutual_kill : CombatState Q :=
  {| playerHealth := set_isDestroyed (set_hull fresh 0) true;
     enemyHealth := set_isDestroyed (set_hull fresh 0) true;
     gameOver := None |}.

(** The player's ship as the game creates it, 64 torpedoes aboard, and
    a weapon system with nothing in flight. *)
Definition armed : GameState.t Q := GameState.createGameState.
Definition nothing_in_flight : WeaponSystem.WeaponSystemState Q :=
  WeaponSystem.createWeaponSystem.

(** The player's ship at rest with its magazine empty. *)
Definition out_of_torpedoes : GameState.t Q :=
  GameState.set_torpedoCount GameState.createGameState 0.

(** The player's ship cruising at warp with the throttle at 5/9. *)
Definition at_warp : GameState.t Q :=
  GameState.set_isWarp
    (GameState.set_throttle GameState.createGameState (5 / 9)) true.

(** Keyboard states: nothing pressed, and the keys of [codes] going down
    one after the other since the last frame. *)
Definition no_keys : InputManager.t := InputManager.mk ∅ ∅.
Definition press (codes : list string) : InputManager.t :=
  fold_left InputManager.onKeyDown codes no_keys.

(** A frame of 1/60 s. *)
Definition dt : Q := 1 / 60.

(** An idle enemy on station at (-350, 20, 2625), its orbit centred there
    and every timer at 0, as [createEnemyShip] leaves them.  The position
    is written out rather than computed from the spawn angle, so that the
    distances below are exact. *)
Definition idle_enemy : EnemyAI.EnemyShip Q :=
  {| EnemyAI.position := mkVector3 (-350) 20 2625;
     EnemyAI.quaternion := quat_identity;
     EnemyAI.behavior := EnemyAI.idle;
     EnemyAI.speed := 0;
     EnemyAI.phaserCooldown := 0;
     EnemyAI.torpedoCooldown := 0;
     EnemyAI.phaserFiring := false;
     EnemyAI.torpedoJustFired := false;
     EnemyAI.alertTimer := 0;
     EnemyAI.orbitAngle := 0;
     EnemyAI.orbitCenter := mkVector3 (-350) 20 2625;
     EnemyAI.orbitRadius := 60;
     EnemyAI.modelReady := false;
     EnemyAI.phaserBeam := false;
     EnemyAI.phaserBeamAge := 0 |}.

(** The player 100 units from that enemy, along the Z axis. *)
Definition player_nearby : GameState.t Q :=
  GameState.set_position GameState.createGameState (mkVector3 (-350) 20 2525).

(** The player in front of an enemy that sits 50 units down the -Z axis,
    phasers firing. *)
Definition player_firing : GameState.t Q :=
  GameState.set_phaserFiring GameState.createGameState true.
Definition enemy_ahead : Vector3 Q := mkVector3 0 0 (-50).

(** A mission's combat state at its start, and one whose enemy is already
    destroyed. *)
Definition combat_start : CombatState Q := createCombatState.
Definition enemy_wrecked : CombatState Q :=
  set_enemyHealth createCombatState (set_isDestroyed (set_hull fresh 0) true).

(** A frame of 1/60 s and one of 1/20 s (the largest the loop lets
    through); [Math.random()] returns 0.5 and the clock reads 0. *)
Definition frame60 : EnemyAI.Frame Q := EnemyAI.mkFrame dt 0.5 0 0.
Definition frame20 : EnemyAI.Frame Q := EnemyAI.mkFrame (1 / 20) 0.5 0 0.

(** A ship whose shields are up with 1/1000 of their strength left. *)
Definition shields_failing : GameState.t Q :=
  GameState.set_shieldStrength
    (GameState.set_shieldsActive GameState.createGameState true) 0.001.

(** An enemy 5 units and one 200 units from the origin, both 0.8 aligned
    with the -Z axis (3-4-5 triangles, so every length is exact). *)
Definition enemy_close_off_axis : Vector3 Q := mkVector3 3 0 (-4).
Definition enemy_far_off_axis : Vector3 Q := mkVector3 120 0 (-160).

(** A torpedo just launched from the origin down the -Z axis. *)
Definition torpedo_away : Effects.PhotonTorpedo Q :=
  Effects.createTorpedoMesh (mkVector3 0 0 0) (mkVector3 0 0 (-1)).

(** The catalogue as the game starts, the ship in the Sol system with no
    destination, the same with Vulcan selected, and a ship with the
    throttle at one half. *)
Definition catalogue : list (Universe.StarSystem Q) := Universe.STAR_SYSTEMS.
Definition at_sol : UniverseManager.UniverseState Q :=
  {| UniverseManager.currentSystemId := "sol";
     UniverseManager.currentSystem := 0%nat;
     UniverseManager.destinationId := None;
     UniverseManager.destination := None;
     UniverseManager.travelPhase := UniverseManager.idle;
     UniverseManager.travelProgress := 0;
     UniverseManager.travelDuration := 0;
     UniverseManager.travelTimer := 0;
     UniverseManager.starMapOpen := false |}.
Definition bound_for_vulcan : UniverseManager.UniverseState Q :=
  snd (UniverseManager.setDestination at_sol catalogue "vulcan").
Definition cruising : GameState.t Q :=
  GameState.set_throttle GameState.createGameState 0.5.

(** The trip to Vulcan just initiated, and in its last phase with the
    timer about to run out. *)
Definition warp_charging : UniverseManager.UniverseState Q :=
  match UniverseManager.initiateWarp bound_for_vulcan catalogue cruising with
  | Some (_, uState) => uState
  | None => bound_for_vulcan
  end.
Definition warp_arriving : UniverseManager.UniverseState Q :=
  UniverseManager.set_travelTimer
    (UniverseManager.set_travelPhase warp_charging UniverseManager.arriving) 1.49.

(** A ship with 50 torpedoes left and the mission to Vulcan (10 torpedoes
    of reward) accepted. *)
Definition fifty_torpedoes : GameState.t Q :=
  GameState.set_torpedoCount cruising 50.
Definition first_contact : MissionSystem.MissionState :=
  snd (MissionSystem.acceptMission MissionSystem.createMissionState "mission-0").

(** The component's variables when a mission has just started: the ship
    as created, nothing in flight, the idle enemy on station. *)
Definition mission_start : GameLoop.Game Q :=
  {| GameLoop.state := armed;
     GameLoop.weaponState := nothing_in_flight;
     GameLoop.enemy := idle_enemy;
     GameLoop.combatState := combat_start;
     GameLoop.missionPhase := GameLoop.phase_active |}.

End Scenario.

(** * Properties *)

(** ** Exact arithmetic: the boolean tests of the [Q] instance *)

Lemma Qltb_true (a b : Q) : Qltb a b = true <-> (a < b)%Q.
Proof.
  unfold Qltb. rewrite negb_true_iff, <- not_true_iff_false, Qle_bool_iff.
  split; [apply Qnot_le_lt | apply Qlt_not_le].
Qed.

Lemma Qltb_false (a b : Q) : Qltb a b = false <-> (b <= a)%Q.
Proof.
  unfold Qltb. rewrite negb_false_iff. apply Qle_bool_iff.
Qed.

Lemma Qle_bool_false (a b : Q) : Qle_bool a b = false <-> (b < a)%Q.
Proof.
  rewrite <- not_true_iff_false, Qle_bool_iff.
  split; [apply Qnot_le_lt | apply Qlt_not_le].
Qed.

Lemma Qmaxb_Qmax (a b : Q) : (Qmaxb a b == Qmax a b)%Q.
Proof.
  unfold Qmaxb. destruct (Qle_bool a b) eqn:E.
  - apply Qle_bool_iff in E. symmetry. apply Q.max_r. exact E.
  - apply Qle_bool_false in E. symmetry. apply Q.max_l.
    apply Qlt_le_weak. exact E.
Qed.

Lemma Qminb_Qmin (a b : Q) : (Qminb a b == Qmin a b)%Q.
Proof.
  unfold Qminb. destruct (Qle_bool a b) eqn:E.
  - apply Qle_bool_iff in E. symmetry. apply Q.min_l. exact E.
  - apply Qle_bool_false in E. symmetry. apply Q.min_r.
    apply Qlt_le_weak. exact E.
Qed.

(** Unfold the operations of the [Q] instance. *)
Ltac js_Q :=
  cbn [lit js_add js_sub js_mul js_div js_neg js_lt js_le js_eq
       Math_max Math_min Number_Q] in *.

(** Turn the boolean comparisons in the context into order facts. *)
Ltac Q_tests :=
  repeat match goal with
  | H : Qltb _ _ = true |- _ => apply Qltb_true in H
  | H : Qltb _ _ = false |- _ => apply Qltb_false in H
  | H : Qle_bool _ _ = true |- _ => apply Qle_bool_iff in H
  | H : Qle_bool _ _ = false |- _ => apply Qle_bool_false in H
  end.

(** Split on every [Math.max] and [Math.min] of the goal. *)
Ltac Q_minmax :=
  unfold Qmaxb, Qminb in *;
  repeat match goal with
  | |- context [if Qle_bool ?a ?b then _ else _] =>
      let E := fresh "E" in destruct (Qle_bool a b) eqn:E
  end.

(** Linear arithmetic over [Qmax] and [Qmin]: name each one and split on
    its specification. *)
Ltac Qmax_lra :=
  repeat match goal with
  | |- context [Qmax ?a ?b] =>
      let m := fresh "m" in
      let Hm := fresh "Hm" in
      pose proof (Q.max_spec a b) as Hm;
      set (m := Qmax a b) in *; clearbody m
  | |- context [Qmin ?a ?b] =>
      let m := fresh "m" in
      let Hm := fresh "Hm" in
      pose proof (Q.min_spec a b) as Hm;
      set (m := Qmin a b) in *; clearbody m
  | _ : context [Qmax ?a ?b] |- _ =>
      let m := fresh "m" in
      let Hm := fresh "Hm" in
      pose proof (Q.max_spec a b) as Hm;
      set (m := Qmax a b) in *; clearbody m
  | _ : context [Qmin ?a ?b] |- _ =>
      let m := fresh "m" in
      let Hm := fresh "Hm" in
      pose proof (Q.min_spec a b) as Hm;
      set (m := Qmin a b) in *; clearbody m
  end;
  repeat match goal with
  | H : _ \/ _ |- _ => destruct H as [[? ?] | [? ?]]
  end;
  lra.

(** Project through the field assignments of a [ShipHealth]. *)
Ltac health_simpl :=
  cbn [CombatSystem.hull CombatSystem.maxHull CombatSystem.shieldsUp
       CombatSystem.shieldStrength CombatSystem.isDestroyed
       CombatSystem.damageFlash CombatSystem.set_hull
       CombatSystem.set_shieldsUp CombatSystem.set_shieldStrength
       CombatSystem.set_isDestroyed CombatSystem.set_damageFlash
       fst snd] in *.

(** ** Runs of frames *)

(** A property of every non-empty prefix of a list of frames, checked by
    running through the prefixes. *)
Lemma prefixes_checked {N : Type} (P : list N -> bool) (deltas : list N) :
  forallb (fun k => P (firstn k deltas)) (seq 1 (length deltas)) = true ->
  forall k, (0 < k <= length deltas)%nat -> P (firstn k deltas) = true.
Proof.
  intros Hall k Hk. rewrite forallb_forall in Hall.
  apply (Hall k). apply in_seq. lia.
Qed.

(** ** combat-system.ts: [applyDamage] *)

Section ApplyDamage.
Import CombatSystem.
Context {N : Type} `{Number N}.
Local Open Scope js_scope.

(** A destroyed ship is returned as it is. *)
Lemma applyDamage_destroyed (health : ShipHealth N) (rawDamage : N) :
  isDestroyed health = true -> applyDamage health rawDamage = health.
Proof. intros Hd. unfold applyDamage. rewrite Hd. reflexivity. Qed.

(** [maxHull] is never written. *)
Lemma applyDamage_maxHull (health : ShipHealth N) (rawDamage : N) :
  maxHull (applyDamage health rawDamage) = maxHull health.
Proof.
  unfold applyDamage.
  repeat match goal with
  | |- context [if ?b then _ else _] => destruct b
  end; reflexivity.
Qed.

(** The shielded branch, in the number type's own operations. *)
Lemma applyDamage_shielded (health : ShipHealth N) (rawDamage : N) :
  isDestroyed health = false -> shieldsUp health = true ->
  (shieldStrength health >? lit 0) = true ->
  let absorbed := rawDamage * SHIELD_ABSORPTION in
  let health' := applyDamage health rawDamage in
  shieldStrength health' =
    Math_max (lit 0) (shieldStrength health - absorbed * lit 0.5)
  /\ hull health' = Math_max (lit 0) (hull health - (rawDamage - absorbed))
  /\ damageFlash health' = lit 1.0.
Proof.
  intros Hd Hs Hp. cbv zeta. unfold applyDamage. rewrite Hd, Hs, Hp. cbn.
  repeat match goal with
  | |- context [if ?b then _ else _] => destruct b
  end; cbn; auto.
Qed.

(** The unshielded branch. *)
Lemma applyDamage_unshielded (health : ShipHealth N) (rawDamage : N) :
  isDestroyed health = false ->
  shieldsUp health && (shieldStrength health >? lit 0) = false ->
  let health' := applyDamage health rawDamage in
  shieldStrength health' = shieldStrength health
  /\ shieldsUp health' = shieldsUp health
  /\ hull health' = Math_max (lit 0) (hull health - rawDamage)
  /\ damageFlash health' = lit 1.0.
Proof.
  intros Hd Hs. cbv zeta. unfold applyDamage. rewrite Hd, Hs. cbn.
  destruct (_ <=? _); cbn; auto.
Qed.

End ApplyDamage.

Import CombatSystem.
Local Open Scope Q_scope.

(** C1. With shields up at positive strength, [applyDamage] absorbs
    [rawDamage * 0.7], lowers the shield strength by half of the absorbed
    amount and the hull by the rest, both floored at 0.  At strength 100
    and raw damage 10 the shields end at 96.5 and the hull is 3 lower (as
    far as the floor at 0 lets it go).  Exact arithmetic; the same scenario
    in double precision is [applyDamage_scenario_binary64]. *)
Theorem applyDamage_shields_absorb (health : ShipHealth Q) (rawDamage : Q) :
  isDestroyed health = false ->
  shieldsUp health = true ->
  (0 < shieldStrength health)%Q ->
  let absorbed := (rawDamage * 0.7)%Q in
  let health' := applyDamage health rawDamage in
  (shieldStrength health' == Qmax 0 (shieldStrength health - absorbed * 0.5))%Q
  /\ (hull health' == Qmax 0 (hull health - (rawDamage - absorbed)))%Q
  /\ ((shieldStrength health == 100)%Q -> (rawDamage == 10)%Q ->
      (shieldStrength health' == 96.5)%Q
      /\ (hull health' == Qmax 0 (hull health - 3))%Q
      /\ ((3 <= hull health)%Q -> (hull health - hull health' == 3)%Q)).
Proof.
  intros Hd Hs Hp absorbed health'.
  destruct (applyDamage_shielded health rawDamage Hd Hs) as (Es & Eh & _).
  { apply Qltb_true. exact Hp. }
  fold health' in Es, Eh. unfold SHIELD_ABSORPTION in Es, Eh. js_Q.
  fold absorbed in Es, Eh.
  assert (Hs' : (shieldStrength health'
                 == Qmax 0 (shieldStrength health - absorbed * 0.5))%Q)
    by (rewrite Es; apply Qmaxb_Qmax).
  assert (Hh' : (hull health'
                 == Qmax 0 (hull health - (rawDamage - absorbed)))%Q)
    by (rewrite Eh; apply Qmaxb_Qmax).
  split; [exact Hs' | split; [exact Hh' |]].
  intros E100 E10. subst absorbed.
  destruct (Q.max_spec 0 (shieldStrength health - rawDamage * 0.7 * 0.5))
    as [[? Ea] | [? Ea]];
  destruct (Q.max_spec 0 (hull health - (rawDamage - rawDamage * 0.7)))
    as [[? Eb] | [? Eb]];
  destruct (Q.max_spec 0 (hull health - 3)) as [[? Ec] | [? Ec]];
  rewrite Ea in Hs'; rewrite Eb in Hh'; rewrite Ec;
  repeat split; intros; lra.
Qed.

(** The witness of C1: a fresh ship with shields raised, hit for 10. *)
Lemma applyDamage_shields_absorb_witness :
  (shieldStrength (applyDamage Scenario.shielded 10) == 96.5)%Q
  /\ (hull (applyDamage Scenario.shielded 10) == Qmax 0 (100 - 3))%Q.
Proof.
  destruct (applyDamage_shields_absorb Scenario.shielded 10)
    as (_ & _ & H); [reflexivity | reflexivity | reflexivity |].
  destruct H as (H1 & H2 & _); [reflexivity | reflexivity |].
  split; [exact H1 | exact H2].
Defined.

(** The scenario of C1 on IEEE doubles: [10 * 0.7] rounds to exactly 7, so
    the shields end at 96.5 and the hull at 97. *)
Example applyDamage_scenario_binary64 :
  shieldStrength (applyDamage Scenario.shielded64 (lit 10)) = 96.5%float
  /\ hull (applyDamage Scenario.shielded64 (lit 10)) = 97%float
  /\ shieldsUp (applyDamage Scenario.shielded64 (lit 10)) = true.
Proof. vm_compute. repeat split. Qed.

(** The combat round of the specification, shields down: three hits of
    18 leave the enemy at 46, a fourth at 28, in exact arithmetic and on
    doubles. *)
Example basic_combat_round :
  let hit (h : ShipHealth Q) := applyDamage h 18 in
  let hit64 (h : ShipHealth float) := applyDamage h (lit 18) in
  (hull (hit (hit (hit Scenario.fresh))) == 46
   /\ isDestroyed (hit (hit (hit Scenario.fresh))) = false
   /\ hull (hit (hit (hit (hit Scenario.fresh)))) == 28)
  /\ (hull (hit64 (hit64 (hit64 Scenario.fresh64))) = 46%float
      /\ hull (hit64 (hit64 (hit64 (hit64 Scenario.fresh64)))) = 28%float).
Proof. vm_compute. repeat split. Qed.

(** C2. On a destroyed ship [applyDamage] changes nothing, whatever the
    damage value and whatever the number type. *)
Theorem applyDamage_destroyed_noop :
  forall (N : Type) (HN : Number N) (health : ShipHealth N) (rawDamage : N),
    isDestroyed health = true -> applyDamage health rawDamage = health.
Proof. intros N HN. exact applyDamage_destroyed. Qed.

(** The witness of C2: a wreck hit with an infinite amount of damage, in
    double precision. *)
Lemma applyDamage_destroyed_noop_witness :
  applyDamage Scenario.wreck64 PrimFloat.infinity = Scenario.wreck64.
Proof.
  apply (applyDamage_destroyed_noop float Number_float Scenario.wreck64).
  reflexivity.
Defined.

(** C5, as stated, fails: zero damage on a live ship still restarts the
    damage flash, in exact arithmetic and on doubles alike. *)
Lemma applyDamage_zero_restarts_flash :
  ~ (damageFlash (applyDamage Scenario.fresh 0) == damageFlash Scenario.fresh)%Q
  /\ (damageFlash (applyDamage Scenario.fresh64 (lit 0))
      =? damageFlash Scenario.fresh64)%js = false.
Proof. split; [intros E; discriminate E | vm_compute; reflexivity]. Qed.

(** C5, amended.  On a ship that is destroyed or has hull above 0 (every
    record the game produces), [applyDamage(target, 0)] keeps hull, maxHull,
    shieldsUp, shieldStrength and isDestroyed; damageFlash is kept on a
    destroyed ship and set to 1.0 on a live one. *)
Theorem applyDamage_zero (health : ShipHealth Q) :
  isDestroyed health = true \/ (0 < hull health)%Q ->
  let health' := applyDamage health 0 in
  (hull health' == hull health)%Q
  /\ maxHull health' = maxHull health
  /\ shieldsUp health' = shieldsUp health
  /\ (shieldStrength health' == shieldStrength health)%Q
  /\ isDestroyed health' = isDestroyed health
  /\ (damageFlash health' == if isDestroyed health then damageFlash health else 1)%Q.
Proof.
  intros Hw health'. subst health'.
  destruct (isDestroyed health) eqn:Hd.
  - rewrite applyDamage_destroyed by exact Hd.
    rewrite Hd. repeat split; reflexivity.
  - destruct Hw as [Hw | Hw]; [discriminate Hw |].
    unfold applyDamage. rewrite Hd. unfold SHIELD_ABSORPTION. js_Q.
    destruct (shieldsUp health) eqn:Hs;
      destruct (Qltb 0 (shieldStrength health)) eqn:Hp;
      cbn [andb]; health_simpl; Q_minmax; health_simpl; Q_minmax;
      health_simpl; Q_tests;
      repeat split;
      solve [reflexivity | assumption | lra | exfalso; lra].
Qed.

(** The witness of the amended C5: the fresh ship. *)
Lemma applyDamage_zero_witness :
  (hull (applyDamage Scenario.fresh 0) == 100)%Q
  /\ (damageFlash (applyDamage Scenario.fresh 0) == 1)%Q.
Proof.
  destruct (applyDamage_zero Scenario.fresh) as (Hh & _ & _ & _ & _ & Hf).
  - right. reflexivity.
  - split; [exact Hh | exact Hf].
Defined.

(** C10. With shields down nothing bounds the hull from above: the new
    hull is [max(0, hull - rawDamage)], a negative [rawDamage] strictly
    raises it, and it passes [maxHull] as soon as [hull - rawDamage] does.
    Exact arithmetic. *)
Theorem applyDamage_no_upper_clamp (health : ShipHealth Q) (rawDamage : Q) :
  isDestroyed health = false ->
  shieldsUp health = false \/ (shieldStrength health == 0)%Q ->
  let health' := applyDamage health rawDamage in
  (hull health' == Qmax 0 (hull health - rawDamage))%Q
  /\ ((rawDamage < 0)%Q -> (hull health < hull health')%Q)
  /\ ((maxHull health < hull health - rawDamage)%Q ->
      (maxHull health' < hull health')%Q).
Proof.
  intros Hd Hdown health'.
  destruct (applyDamage_unshielded health rawDamage Hd) as (_ & _ & Eh & _).
  { destruct Hdown as [-> | E0]; [reflexivity |].
    apply andb_false_iff. right. js_Q. apply Qltb_false. lra. }
  fold health' in Eh. js_Q.
  assert (Hh' : (hull health' == Qmax 0 (hull health - rawDamage))%Q)
    by (rewrite Eh; apply Qmaxb_Qmax).
  assert (Hm : maxHull health' = maxHull health)
    by apply applyDamage_maxHull.
  rewrite Hm.
  destruct (Q.max_spec 0 (hull health - rawDamage)) as [[? Ea] | [? Ea]];
    rewrite Ea in Hh'; repeat split; try exact Hh'; intros; lra.
Qed.

(** The witness of C10: "repairing" a fresh ship by 10 lifts its hull to
    110, above its [maxHull] of 100. *)
Lemma applyDamage_no_upper_clamp_witness :
  (maxHull (applyDamage Scenario.fresh (-10))
   < hull (applyDamage Scenario.fresh (-10)))%Q.
Proof.
  destruct (applyDamage_no_upper_clamp Scenario.fresh (-10)) as (_ & _ & H).
  - reflexivity.
  - left. reflexivity.
  - apply H. reflexivity.
Defined.

(** The same on doubles: hull 110 against a [maxHull] of 100. *)
Example applyDamage_repair_binary64 :
  hull (applyDamage Scenario.fresh64 (lit (-10))) = 110%float
  /\ maxHull (applyDamage Scenario.fresh64 (lit (-10))) = 100%float.
Proof. vm_compute. split; reflexivity. Qed.

(** ** combat-system.ts: the game-over flag *)

Section GameOverFlag.
Import CombatTrace.
Context {N : Type} `{Number N}.

(** [updateCombatTimers] writes [gameOver] only while it is [null]. *)
Lemma updateCombatTimers_gameOver_Some
    (combat : CombatState N) (delta : N) (g : GameOver) :
  gameOver combat = Some g ->
  gameOver (updateCombatTimers combat delta) = Some g.
Proof.
  intros Hg. unfold updateCombatTimers.
  repeat match goal with
  | |- context [if js_lt ?a ?b then _ else _] => destruct (js_lt a b)
  end; cbn; rewrite Hg; cbn; exact Hg.
Qed.

(** No call rewrites a recorded outcome. *)
Lemma call_gameOver_Some (combat : CombatState N) (c : CombatCall N) (g : GameOver) :
  gameOver combat = Some g -> gameOver (call combat c) = Some g.
Proof.
  intros Hg. destruct c; cbn; try exact Hg.
  apply updateCombatTimers_gameOver_Some. exact Hg.
Qed.

Lemma calls_gameOver_Some
    (cs : list (CombatCall N)) (combat : CombatState N) (g : GameOver) :
  gameOver combat = Some g -> gameOver (calls combat cs) = Some g.
Proof.
  revert combat. induction cs as [| c cs IH]; intros combat Hg; cbn.
  - exact Hg.
  - apply IH. apply call_gameOver_Some. exact Hg.
Qed.

End GameOverFlag.

(** C3. Along any sequence of [applyDamage] and [updateCombatTimers] calls
    the outcome, once recorded, is the outcome after every further call;
    so [gameOver] leaves [null] at most once, for one of the two outcomes,
    and stays there. *)
Theorem gameOver_set_once :
  forall (N : Type) (HN : Number N) (combat : CombatState N)
         (before after : list (CombatTrace.CombatCall N)) (g : GameOver),
    gameOver (CombatTrace.calls combat before) = Some g ->
    gameOver (CombatTrace.calls combat (before ++ after)) = Some g.
Proof.
  intros N HN combat before after g Hg.
  unfold CombatTrace.calls in *. rewrite fold_left_app.
  apply calls_gameOver_Some. exact Hg.
Qed.

(** The witness of C3: the enemy is destroyed by three hits, the frame
    check records the victory, and destroying the player afterwards does
    not turn it into a defeat. *)
Lemma gameOver_set_once_witness :
  gameOver (CombatTrace.calls (createCombatState (N := Q))
              ([CombatTrace.DamageEnemy 40; CombatTrace.DamageEnemy 40;
                CombatTrace.DamageEnemy 40; CombatTrace.CombatTimers 0.016]
               ++ [CombatTrace.DamagePlayer 100; CombatTrace.CombatTimers 0.016]))
  = Some victory.
Proof.
  apply (gameOver_set_once Q Number_Q). vm_compute. reflexivity.
Defined.

(** C4, as stated, fails: with both ships destroyed the frame check
    records a victory, not a defeat. *)
Lemma mutual_kill_is_victory :
  gameOver (updateCombatTimers Scenario.mutual_kill 0.016) = Some victory
  /\ gameOver (updateCombatTimers Scenario.mutual_kill 0.016) <> Some defeat.
Proof. split; [reflexivity | discriminate]. Qed.

(** C4, amended.  When the frame check runs with [gameOver == null] and
    both ships destroyed, it records ['victory']: the enemy's destruction
    is tested first. *)
Theorem updateCombatTimers_both_destroyed :
  forall (N : Type) (HN : Number N) (combat : CombatState N) (delta : N),
    gameOver combat = None ->
    isDestroyed (playerHealth combat) = true ->
    isDestroyed (enemyHealth combat) = true ->
    gameOver (updateCombatTimers combat delta) = Some victory.
Proof.
  intros N HN combat delta Hg Hp He. unfold updateCombatTimers.
  repeat match goal with
  | |- context [if js_lt ?a ?b then _ else _] => destruct (js_lt a b)
  end; cbn; rewrite Hg, He; reflexivity.
Qed.

(** The witness of the amended C4. *)
Lemma updateCombatTimers_both_destroyed_witness :
  gameOver (updateCombatTimers Scenario.mutual_kill 0.016) = Some victory.
Proof.
  apply (updateCombatTimers_both_destroyed Q Number_Q); reflexivity.
Defined.

(** ** ship-controller.ts: what each block of [updateShip] writes *)

(** Project through the field assignments of a [GameState]. *)
Ltac gs_simpl :=
  cbn [GameState.position GameState.quaternion GameState.velocity
       GameState.throttle GameState.speed GameState.isWarp
       GameState.shieldsActive GameState.shieldStrength
       GameState.phaserCharge GameState.torpedoCount GameState.phaserFiring
       GameState.torpedoFiring GameState.heading GameState.bearing
       GameState.speedDisplay
       GameState.set_position GameState.set_quaternion GameState.set_velocity
       GameState.set_throttle GameState.set_speed GameState.set_isWarp
       GameState.set_shieldsActive GameState.set_shieldStrength
       GameState.set_phaserCharge GameState.set_torpedoCount
       GameState.set_phaserFiring GameState.set_torpedoFiring
       InputManager.keys InputManager.justPressed fst snd] in *.

(** Split on every conditional of the goal. *)
Ltac split_ifs :=
  repeat match goal with
  | |- context [if ?b then _ else _] => destruct b eqn:?; cbv beta iota
  end.

Section ShipControllerFacts.
Import GameState ShipController.
Context {N : Type} `{Number N} `{Three N}.
Local Open Scope js_scope.

Lemma wasJustPressed_subseteq (input : InputManager.t) (code : string) :
  InputManager.justPressed (snd (InputManager.wasJustPressed input code))
    ⊆ InputManager.justPressed input
  /\ (fst (InputManager.wasJustPressed input code) = true ->
      code ∈ InputManager.justPressed input).
Proof.
  unfold InputManager.wasJustPressed.
  destruct (bool_decide _) eqn:E; cbn [fst snd InputManager.justPressed].
  - apply bool_decide_eq_true in E.
    split; [apply subseteq_difference_l; reflexivity | intros _; exact E].
  - split; [reflexivity | discriminate].
Qed.

Lemma updateRotation_frame (state : GameState.t N) (input : InputManager.t) (delta : N) :
  throttle (updateRotation state input delta) = throttle state
  /\ isWarp (updateRotation state input delta) = isWarp state
  /\ torpedoCount (updateRotation state input delta) = torpedoCount state.
Proof.
  unfold updateRotation. cbv zeta.
  repeat match goal with
  | |- context [if ?b then set_quaternion ?s ?q else _] => destruct b
  end; gs_simpl; auto.
Qed.

Lemma throttleKey_frame (si : GameState.t N * InputManager.t) (d : nat) :
  isWarp (fst (throttleKey si d)) = isWarp (fst si)
  /\ torpedoCount (fst (throttleKey si d)) = torpedoCount (fst si)
  /\ InputManager.justPressed (snd (throttleKey si d))
       ⊆ InputManager.justPressed (snd si).
Proof.
  destruct si as [state input]. unfold throttleKey.
  pose proof (wasJustPressed_subseteq input (digitCode d)) as [Hsub _].
  destruct (InputManager.wasJustPressed input (digitCode d)) as [pressed input'].
  destruct pressed; gs_simpl; auto.
Qed.

Lemma fold_throttleKey_frame (ds : list nat) (si : GameState.t N * InputManager.t) :
  isWarp (fst (fold_left throttleKey ds si)) = isWarp (fst si)
  /\ torpedoCount (fst (fold_left throttleKey ds si)) = torpedoCount (fst si)
  /\ InputManager.justPressed (snd (fold_left throttleKey ds si))
       ⊆ InputManager.justPressed (snd si).
Proof.
  revert si. induction ds as [| d ds IH]; intros si; cbn [fold_left].
  - repeat split; reflexivity.
  - destruct (IH (throttleKey si d)) as (Hw & Hc & Hj).
    destruct (throttleKey_frame si d) as (Hw' & Hc' & Hj').
    rewrite Hw, Hc, Hw', Hc'. repeat split. etrans; eassumption.
Qed.

Lemma updateThrottle_frame (state : GameState.t N) (input : InputManager.t) :
  isWarp (fst (updateThrottle state input)) = isWarp state
  /\ torpedoCount (fst (updateThrottle state input)) = torpedoCount state
  /\ InputManager.justPressed (snd (updateThrottle state input))
       ⊆ InputManager.justPressed input.
Proof. exact (fold_throttleKey_frame (seq 0 10) (state, input)). Qed.

(** The warp block: the throttle is not written, warp survives the block
    only above the disengage threshold, and is engaged only by the toggle
    and above the engage threshold. *)
Lemma updateWarp_spec (state : GameState.t N) (input : InputManager.t) :
  let state' := fst (updateWarp state input) in
  throttle state' = throttle state
  /\ torpedoCount state' = torpedoCount state
  /\ (isWarp state' = true -> (throttle state <=? lit 0.05) = false)
  /\ (isWarp state = false -> isWarp state' = true ->
      "CapsLock" ∈ InputManager.justPressed input
      /\ (throttle state >? lit 0.1) = true)
  /\ (isWarp state = true -> "CapsLock" ∉ InputManager.justPressed input ->
      isWarp state' = negb (throttle state <=? lit 0.05)).
Proof.
  unfold updateWarp. cbv zeta.
  pose proof (wasJustPressed_subseteq input "CapsLock") as [_ Hin].
  unfold InputManager.wasJustPressed in *.
  destruct (bool_decide ("CapsLock" ∈ InputManager.justPressed input)) eqn:Hcaps;
    cbn [fst snd] in *.
  - apply bool_decide_eq_true in Hcaps.
    destruct (isWarp state) eqn:Hw; destruct (throttle state >? lit 0.1) eqn:Ht;
      cbn [negb andb]; gs_simpl;
      destruct (throttle state <=? lit 0.05) eqn:Hl; cbn [andb]; gs_simpl;
      repeat split; intros; try congruence; try contradiction.
  - apply bool_decide_eq_false in Hcaps.
    destruct (isWarp state) eqn:Hw;
      destruct (throttle state <=? lit 0.05) eqn:Hl; cbn [andb negb]; gs_simpl;
      repeat split; intros; try congruence; try contradiction.
Qed.

Lemma updateMotion_frame (state : GameState.t N) (delta : N) :
  throttle (updateMotion state delta) = throttle state
  /\ isWarp (updateMotion state delta) = isWarp state
  /\ torpedoCount (updateMotion state delta) = torpedoCount state.
Proof.
  unfold updateMotion. cbv zeta.
  repeat match goal with
  | |- context [if ?b then set_speed ?s ?q else _] => destruct b
  end; gs_simpl; auto.
Qed.

(** The weapons block: the torpedo intent is the key press and ammo above
    zero; throttle, warp and ammo are not written. *)
Lemma updateTriggers_spec (state : GameState.t N) (input : InputManager.t) (delta : N) :
  let state' := fst (updateTriggers state input delta) in
  throttle state' = throttle state
  /\ isWarp state' = isWarp state
  /\ torpedoCount state' = torpedoCount state
  /\ torpedoFiring state' =
       bool_decide ("KeyT" ∈ InputManager.justPressed input)
       && (torpedoCount state >? lit 0).
Proof.
  unfold updateTriggers, InputManager.wasJustPressed. cbv zeta.
  destruct (phaserCharge state <? lit 100);
    destruct (bool_decide ("KeyT" ∈ InputManager.justPressed input));
    gs_simpl; auto.
Qed.

Lemma updateShieldToggle_frame (state : GameState.t N) (input : InputManager.t) (delta : N) :
  let state' := fst (updateShieldToggle state input delta) in
  throttle state' = throttle state
  /\ isWarp state' = isWarp state
  /\ torpedoCount state' = torpedoCount state
  /\ torpedoFiring state' = torpedoFiring state.
Proof.
  unfold updateShieldToggle, InputManager.wasJustPressed. cbv zeta.
  split_ifs; gs_simpl; split_ifs; gs_simpl; auto.
Qed.

End ShipControllerFacts.

Import GameState ShipController.

(** [updateShip] through its blocks: the throttle and the warp flag it
    returns are those the warp block left, and the torpedo count is the one
    it was given. *)
Lemma updateShip_frame
    {N : Type} `{Number N} `{Three N}
    (state : GameState.t N) (input : InputManager.t) (delta : N) :
  let rotated := updateRotation state input delta in
  let throttled := updateThrottle rotated input in
  let warped := fst (updateWarp (fst throttled) (snd throttled)) in
  let state' := fst (updateShip state input delta) in
  throttle state' = throttle warped
  /\ isWarp state' = isWarp warped
  /\ torpedoCount state' = torpedoCount state.
Proof.
  cbv zeta. unfold updateShip.
  destruct (updateRotation_frame state input delta) as (_ & _ & Hc0).
  destruct (updateThrottle_frame (updateRotation state input delta) input)
    as (_ & Hc1 & _).
  destruct (updateThrottle (updateRotation state input delta) input)
    as [s1 i1] eqn:E1. cbn [fst snd] in *.
  pose proof (updateWarp_spec s1 i1) as (_ & Hc2 & _).
  destruct (updateWarp s1 i1) as [s2 i2] eqn:E2. cbn [fst snd] in *.
  destruct (updateMotion_frame s2 delta) as (Ht3 & Hw3 & Hc3).
  pose proof (updateTriggers_spec (updateMotion s2 delta) i2 delta)
    as (Ht4 & Hw4 & Hc4 & _).
  destruct (updateTriggers (updateMotion s2 delta) i2 delta) as [s4 i4] eqn:E4.
  cbn [fst snd] in *.
  pose proof (updateShieldToggle_frame s4 i4 delta) as (Ht5 & Hw5 & Hc5 & _).
  cbv zeta in *.
  rewrite Ht5, Ht4, Ht3, Hw5, Hw4, Hw3, Hc5, Hc4, Hc3, Hc2, Hc1, Hc0.
  auto.
Qed.

(** C6. After every [updateShip], warp engaged implies throttle above
    0.05: a throttle at or below 0.05 leaves warp disengaged, toggle or no
    toggle; and warp goes from off to on only on a CapsLock press with the
    throttle above 0.1.  Exact arithmetic, any realisation of three.js. *)
Theorem updateShip_warp_needs_throttle :
  forall (T : Three Q) (state : GameState.t Q) (input : InputManager.t) (delta : Q),
    let state' := fst (updateShip state input delta) in
    (isWarp state' = true -> 0.05 < throttle state')
    /\ (throttle state' <= 0.05 -> isWarp state' = false)
    /\ (isWarp state = false -> isWarp state' = true ->
        "CapsLock" ∈ InputManager.justPressed input /\ 0.1 < throttle state').
Proof.
  intros T state input delta state'.
  destruct (updateShip_frame state input delta) as (Ht & Hw & _).
  cbv zeta in Ht, Hw. fold state' in Ht, Hw.
  destruct (updateRotation_frame state input delta) as (_ & Hw0 & _).
  destruct (updateThrottle_frame (updateRotation state input delta) input)
    as (Hw1 & _ & Hj1).
  destruct (updateThrottle (updateRotation state input delta) input)
    as [s1 i1]. cbn [fst snd] in *.
  pose proof (updateWarp_spec s1 i1) as (Ht2 & _ & Hoff & Hon & _).
  cbv zeta in *. rewrite Ht, Hw, Ht2. js_Q.
  assert (Hthr : isWarp (fst (updateWarp s1 i1)) = true -> 0.05 < throttle s1).
  { intros Hon'. apply Hoff in Hon'. apply Qle_bool_false in Hon'. exact Hon'. }
  split; [exact Hthr |]. split.
  - intros Hle. destruct (isWarp (fst (updateWarp s1 i1))); [| reflexivity].
    specialize (Hthr eq_refl). lra.
  - intros Hoff0 Hon'. destruct Hon as [Hcaps Hgt].
    + rewrite Hw1, Hw0. exact Hoff0.
    + exact Hon'.
    + split; [apply Hj1; exact Hcaps | apply Qltb_true; exact Hgt].
Qed.

(** The scenario of C6 run on the model: warp at throttle 5/9; pressing 0
    drops the throttle to 0 and the same [updateShip] call disengages
    warp, with no CapsLock press. *)
Example warp_auto_disengage :
  let state' :=
    fst (updateShip Scenario.at_warp (Scenario.press ["Digit0"]) Scenario.dt) in
  isWarp Scenario.at_warp = true
  /\ (throttle state' == 0) /\ isWarp state' = false.
Proof. vm_compute. repeat split. Qed.

(** The witness of C6: the same call through the theorem. *)
Lemma updateShip_warp_needs_throttle_witness :
  isWarp (fst (updateShip Scenario.at_warp (Scenario.press ["Digit0"])
                 Scenario.dt)) = false.
Proof.
  destruct (updateShip_warp_needs_throttle RationalThree.Three_Q
              Scenario.at_warp (Scenario.press ["Digit0"]) Scenario.dt)
    as (_ & H & _).
  apply H. vm_compute. discriminate.
Defined.

(** ** weapon-system.ts: torpedo ammunition *)

Section WeaponSystemFacts.
Import Effects WeaponSystem.
Context {N : Type} `{Number N} `{Three N}.
Local Open Scope js_scope.

(** The phaser block writes neither the torpedo list, nor the ammo, nor
    the torpedo intent. *)
Lemma firePhasers_frame (ws : WeaponSystemState N) (gameState : GameState.t N) (delta : N) :
  torpedoes (fst (firePhasers ws gameState delta)) = torpedoes ws
  /\ torpedoCount (snd (firePhasers ws gameState delta)) = torpedoCount gameState
  /\ torpedoFiring (snd (firePhasers ws gameState delta)) = torpedoFiring gameState.
Proof.
  unfold firePhasers. cbv zeta.
  split_ifs; cbn [fst snd torpedoes]; gs_simpl; split_ifs; gs_simpl; auto.
Qed.

(** The torpedo block either leaves list and ammo alone, or (on a fire
    intent with ammo above zero) appends one torpedo and takes one out of
    the magazine. *)
Lemma fireTorpedo_spec (torps : list (PhotonTorpedo N)) (gameState : GameState.t N) :
  (fireTorpedo torps gameState = (torps, gameState)
   /\ torpedoFiring gameState && (torpedoCount gameState >? lit 0) = false)
  \/ (exists torpedo : PhotonTorpedo N,
        fst (fireTorpedo torps gameState) = torps ++ [torpedo]
        /\ torpedoCount (snd (fireTorpedo torps gameState))
           = torpedoCount gameState - lit 1
        /\ torpedoFiring gameState = true
        /\ (torpedoCount gameState >? lit 0) = true).
Proof.
  unfold fireTorpedo.
  destruct (torpedoFiring gameState && (torpedoCount gameState >? lit 0)) eqn:E.
  - right. apply andb_true_iff in E. destruct E as [Ef Ec].
    eexists. cbn [fst snd]. gs_simpl. repeat split; auto.
  - left. auto.
Qed.

(** [updateWeapons], as far as torpedoes go: the torpedo block on the
    state the phaser block left, then the ageing loop. *)
Lemma updateWeapons_torpedoes (ws : WeaponSystemState N) (gameState : GameState.t N) (delta : N) :
  let fired := fireTorpedo (torpedoes ws) (snd (firePhasers ws gameState delta)) in
  torpedoes (fst (updateWeapons ws gameState delta)) = ageTorpedoes (fst fired) delta
  /\ torpedoCount (snd (updateWeapons ws gameState delta)) = torpedoCount (snd fired).
Proof.
  cbv zeta. unfold updateWeapons.
  destruct (firePhasers_frame ws gameState delta) as (Ht & _ & _).
  destruct (firePhasers ws gameState delta) as [ws1 gs1]. cbn [fst snd] in *.
  rewrite Ht.
  destruct (fireTorpedo (torpedoes ws) gs1) as [torps gs2].
  cbn [fst snd torpedoes]. auto.
Qed.

End WeaponSystemFacts.

Import Effects WeaponSystem.

(** The magazine under [updateShip] and [updateWeapons].  [updateShip]
    never writes [torpedoCount]; [updateWeapons] never raises it, and
    lowers it (by one) only together with the spawn of a torpedo.  With
    the magazine empty a press of T gives no fire intent, no new torpedo
    and the same count.  Exact arithmetic, any realisation of three.js;
    the model is total, so there is no error to surface. *)
Lemma magazine_in_flight :
  forall (T : Three Q) (state : GameState.t Q) (input : InputManager.t)
         (ws : WeaponSystemState Q) (delta : Q),
    torpedoCount (fst (updateShip state input delta)) = torpedoCount state
    /\ (let ws' := fst (updateWeapons ws state delta) in
        let state' := snd (updateWeapons ws state delta) in
        torpedoCount state' <= torpedoCount state
        /\ (torpedoCount state' == torpedoCount state ->
            torpedoes ws' = ageTorpedoes (torpedoes ws) delta)
        /\ (torpedoCount state' < torpedoCount state ->
            torpedoCount state' == torpedoCount state - 1
            /\ exists torpedo : PhotonTorpedo Q,
                 torpedoes ws' = ageTorpedoes (torpedoes ws ++ [torpedo]) delta))
    /\ (torpedoCount state == 0 ->
        let fired := fst (updateShip state input delta) in
        torpedoFiring fired = false
        /\ torpedoes (fst (updateWeapons ws fired delta))
           = ageTorpedoes (torpedoes ws) delta
        /\ torpedoCount (snd (updateWeapons ws fired delta)) = torpedoCount state).
Proof.
  intros T state input ws delta.
  assert (Hweap : forall gs : GameState.t Q,
            (torpedoes (fst (updateWeapons ws gs delta))
               = ageTorpedoes (torpedoes ws) delta
             /\ torpedoCount (snd (updateWeapons ws gs delta)) = torpedoCount gs
             /\ torpedoFiring gs && Qltb 0 (torpedoCount gs) = false)
            \/ (exists torpedo : PhotonTorpedo Q,
                  torpedoes (fst (updateWeapons ws gs delta))
                    = ageTorpedoes (torpedoes ws ++ [torpedo]) delta
                  /\ torpedoCount (snd (updateWeapons ws gs delta))
                     = torpedoCount gs - 1
                  /\ 0 < torpedoCount gs)).
  { intros gs.
    destruct (updateWeapons_torpedoes ws gs delta) as (Ht & Hc).
    destruct (firePhasers_frame ws gs delta) as (_ & Hc1 & Hf1).
    destruct (fireTorpedo_spec (torpedoes ws) (snd (firePhasers ws gs delta)))
      as [(E & Hno) | (torpedo & Et & Ec & _ & Hpos)].
    - left. rewrite E in Ht, Hc. cbn [fst snd] in Ht, Hc.
      rewrite Hc1 in Hc, Hno. rewrite Hf1 in Hno. auto.
    - right. exists torpedo. rewrite Et in Ht. rewrite Ec, Hc1 in Hc.
      rewrite Hc1 in Hpos. js_Q. apply Qltb_true in Hpos. auto. }
  destruct (updateShip_frame state input delta) as (_ & _ & Hship).
  cbv zeta in Hship.
  split; [exact Hship |]. split.
  - cbv zeta.
    destruct (Hweap state) as [(Et & Ec & _) | (torpedo & Et & Ec & Hpos)];
      rewrite Ec.
    + split; [lra |]. split; [intros _; exact Et | intros Hlt; lra].
    + split; [lra |]. split; [intros Heq; lra |].
      intros _. split; [reflexivity | exists torpedo; exact Et].
  - intros Hzero. cbv zeta.
    set (fired := fst (updateShip state input delta)) in *.
    assert (Hfire : torpedoFiring fired = false).
    { subst fired. unfold updateShip.
      destruct (updateRotation_frame state input delta) as (_ & _ & Hc0).
      destruct (updateThrottle_frame (updateRotation state input delta) input)
        as (_ & Hc1 & _).
      destruct (updateThrottle (updateRotation state input delta) input)
        as [s1 i1]. cbn [fst snd] in *.
      pose proof (updateWarp_spec s1 i1) as (_ & Hc2 & _).
      destruct (updateWarp s1 i1) as [s2 i2]. cbn [fst snd] in *.
      destruct (updateMotion_frame s2 delta) as (_ & _ & Hc3).
      pose proof (updateTriggers_spec (updateMotion s2 delta) i2 delta)
        as (_ & _ & _ & Hf4).
      destruct (updateTriggers (updateMotion s2 delta) i2 delta) as [s4 i4].
      cbn [fst snd] in *.
      pose proof (updateShieldToggle_frame s4 i4 delta) as (_ & _ & _ & Hf5).
      cbv zeta in *. rewrite Hf5, Hf4, Hc3, Hc2, Hc1, Hc0. js_Q.
      replace (Qltb 0 (torpedoCount state)) with false.
      - apply andb_false_r.
      - symmetry. apply Qltb_false. lra. }
    split; [exact Hfire |].
    destruct (Hweap fired) as [(Et & Ec & _) | (torpedo & _ & _ & Hpos)].
    + rewrite Ec, Hship. auto.
    + rewrite Hship in Hpos. lra.
Qed.

(** The two sides of it run on the model: T pressed on an empty magazine
    leaves no intent, no torpedo and a count of 0; T pressed on a full one
    puts one torpedo in flight and leaves 63. *)
Example torpedo_press_scenarios :
  let empty := fst (updateShip Scenario.out_of_torpedoes
                      (Scenario.press ["KeyT"]) Scenario.dt) in
  let full := fst (updateShip Scenario.armed
                      (Scenario.press ["KeyT"]) Scenario.dt) in
  let ws := Scenario.nothing_in_flight in
  (torpedoFiring empty = false
   /\ torpedoes (fst (updateWeapons ws empty Scenario.dt)) = []
   /\ torpedoCount (snd (updateWeapons ws empty Scenario.dt)) == 0)
  /\ (torpedoFiring full = true
      /\ length (torpedoes (fst (updateWeapons ws full Scenario.dt))) = 1%nat
      /\ torpedoCount (snd (updateWeapons ws full Scenario.dt)) == 63).
Proof. vm_compute. repeat split. Qed.

(** ** combat-system.ts: [checkPhaserHits] *)

Lemma Qdiv_antitone (a b : Q) : 0 < a -> a <= b -> 30 / b <= 30 / a.
Proof.
  intros Ha Hab.
  apply Qle_shift_div_r; [lra |].
  assert (H1 : 1 <= b / a) by (apply Qle_shift_div_l; lra).
  assert (E : 30 / a * b == 30 * (b / a)) by (field; lra).
  rewrite E. lra.
Qed.

(** The tolerance in the words of the specification. *)
Lemma phaserMinDot_Qmax (d : Q) :
  phaserMinDot d == Qmax 0.85 (1 - 30 / Qmax d 1).
Proof.
  unfold phaserMinDot. js_Q.
  rewrite Qmaxb_Qmax, (Qmaxb_Qmax d 1).
  apply Q.max_compat; [reflexivity |].
  unfold Qminus. apply Qplus_comp; reflexivity.
Qed.

(** Within phaser range the distance term never reaches the base
    tolerance: [1 - 30 / max(d, 1) <= 0.85] as long as [d <= 200]. *)
Lemma phaserMinDot_in_range (d : Q) :
  d <= 200 -> Qmax 0.85 (1 - 30 / Qmax d 1) == 0.85.
Proof.
  intros Hd.
  assert (H1 : 1 <= Qmax d 1) by apply Q.le_max_r.
  assert (H2 : Qmax d 1 <= 200) by (apply Q.max_lub; lra).
  pose proof (Qdiv_antitone (Qmax d 1) 200 ltac:(lra) H2) as H3.
  assert (E : 30 / 200 == 0.15) by reflexivity.
  apply Q.max_l. lra.
Qed.

(** Beyond it the distance term is the larger one. *)
Lemma phaserMinDot_out_of_range (d : Q) :
  200 < d -> 0.85 < Qmax 0.85 (1 - 30 / Qmax d 1).
Proof.
  intros Hd.
  assert (E : Qmax d 1 == d) by (apply Q.max_l; lra).
  assert (H3 : 30 / Qmax d 1 < 0.15).
  { rewrite E. apply Qlt_shift_div_r; lra. }
  apply Qlt_le_trans with (1 - 30 / Qmax d 1); [lra | apply Q.le_max_r].
Qed.



(** C9 run on the model: the enemy 50 units dead ahead is hit (alignment 1
    against a tolerance of 0.85) and loses [8 * delta] hull; at 250 units
    the same shot does nothing. *)
Example phaser_hit_scenarios :
  let near := checkPhaserHits Scenario.combat_start Scenario.player_firing
                Scenario.enemy_ahead Scenario.dt in
  let far := checkPhaserHits Scenario.combat_start Scenario.player_firing
               (mkVector3 0 0 (-250)) Scenario.dt in
  (fst near = true /\ hull (enemyHealth (snd near)) == 100 - 8 * Scenario.dt)
  /\ far = (false, Scenario.combat_start).
Proof. vm_compute. repeat split. Qed.


(** ** enemy-ai.ts: the behaviour machine *)

(** Project through the field assignments of an [EnemyShip]. *)
Ltac enemy_simpl :=
  cbn [EnemyAI.position EnemyAI.quaternion EnemyAI.behavior EnemyAI.speed
       EnemyAI.phaserCooldown EnemyAI.torpedoCooldown EnemyAI.phaserFiring
       EnemyAI.torpedoJustFired EnemyAI.alertTimer EnemyAI.orbitAngle
       EnemyAI.orbitCenter EnemyAI.orbitRadius EnemyAI.modelReady
       EnemyAI.phaserBeam EnemyAI.phaserBeamAge
       EnemyAI.set_position EnemyAI.set_quaternion EnemyAI.set_behavior
       EnemyAI.set_speed EnemyAI.set_phaserCooldown
       EnemyAI.set_torpedoCooldown EnemyAI.set_phaserFiring
       EnemyAI.set_torpedoJustFired EnemyAI.set_alertTimer
       EnemyAI.set_orbitAngle EnemyAI.set_phaserBeam
       EnemyAI.set_phaserBeamAge
       CombatSystem.playerHealth CombatSystem.enemyHealth
       CombatSystem.gameOver CombatSystem.set_playerHealth
       CombatSystem.set_enemyHealth CombatSystem.set_gameOver
       fst snd] in *;
  health_simpl.

Section EnemyAIFacts.
Import EnemyAI EnemyTrace.
Context {N : Type} `{Number N} `{Three N}.
Local Open Scope js_scope.

(** Neither the move step nor the beam visual touches the behaviour or
    the alert timer. *)
Lemma updateEnemyPhaserBeam_frame (enemy : EnemyShip N) (delta : N) :
  behavior (updateEnemyPhaserBeam enemy delta) = behavior enemy
  /\ alertTimer (updateEnemyPhaserBeam enemy delta) = alertTimer enemy.
Proof.
  unfold updateEnemyPhaserBeam.
  split_ifs; enemy_simpl; split_ifs; enemy_simpl; auto.
Qed.

Lemma turnToward_frame (enemy : EnemyShip N) (target : Vector3 N) (delta : N) :
  behavior (fst (turnToward enemy target delta)) = behavior enemy
  /\ alertTimer (fst (turnToward enemy target delta)) = alertTimer enemy.
Proof.
  unfold turnToward. cbv zeta. split_ifs; enemy_simpl; auto.
Qed.

(** A destroyed enemy is stopped before the behaviour switch is
    reached. *)
Lemma updateEnemyAI_destroyed
    (enemy : EnemyShip N) (playerState : GameState.t N)
    (combat : CombatState N) (fr : Frame N) :
  isDestroyed (enemyHealth combat) = true ->
  behavior (fst (updateEnemyAI enemy playerState combat fr)) = behavior enemy
  /\ snd (updateEnemyAI enemy playerState combat fr) = combat.
Proof.
  intros Hd. unfold updateEnemyAI. rewrite Hd. enemy_simpl. auto.
Qed.

(** One step from [idle]: the detection test decides. *)
Lemma updateEnemyAI_idle
    (enemy : EnemyShip N) (playerState : GameState.t N)
    (combat : CombatState N) (fr : Frame N) :
  behavior enemy = idle ->
  isDestroyed (enemyHealth combat) = false ->
  let dist := vec_length (subVectors (GameState.position playerState) (position enemy)) in
  let enemy' := fst (updateEnemyAI enemy playerState combat fr) in
  snd (updateEnemyAI enemy playerState combat fr) = combat
  /\ behavior enemy' = (if dist <? DETECTION_RANGE then alert else idle)
  /\ ((dist <? DETECTION_RANGE) = true -> alertTimer enemy' = lit 2.0).
Proof.
  intros Hb Hd. cbv zeta. unfold updateEnemyAI. rewrite Hd. cbv zeta.
  enemy_simpl. rewrite Hb. cbv beta iota. unfold behaviorIdle. cbv zeta.
  enemy_simpl.
  destruct (_ <? DETECTION_RANGE) eqn:Hdet; enemy_simpl;
    (destruct (lit 0 <? lit 0); cbv beta iota;
     [ match goal with
       | |- context [updateEnemyPhaserBeam ?e ?d] =>
           destruct (updateEnemyPhaserBeam_frame e d) as [-> ->]
       end
     | match goal with
       | |- context [updateEnemyPhaserBeam ?e ?d] =>
           destruct (updateEnemyPhaserBeam_frame e d) as [-> ->]
       end ];
     enemy_simpl; repeat split; auto; discriminate).
Qed.

(** One step from [alert]: the timer runs down by the frame time, the
    enemy's shields go up, and the behaviour becomes [attack] when the
    timer is at or below zero. *)
Lemma updateEnemyAI_alert
    (enemy : EnemyShip N) (playerState : GameState.t N)
    (combat : CombatState N) (fr : Frame N) :
  behavior enemy = alert ->
  isDestroyed (enemyHealth combat) = false ->
  let enemy' := fst (updateEnemyAI enemy playerState combat fr) in
  let combat' := snd (updateEnemyAI enemy playerState combat fr) in
  alertTimer enemy' = alertTimer enemy - delta fr
  /\ behavior enemy' =
       (if alertTimer enemy - delta fr <=? lit 0 then attack else alert)
  /\ isDestroyed (enemyHealth combat') = false
  /\ shieldsUp (enemyHealth combat') = true.
Proof.
  intros Hb Hd. cbv zeta. unfold updateEnemyAI. rewrite Hd. cbv zeta.
  enemy_simpl. rewrite Hb. cbv beta iota. unfold behaviorAlert.
  match goal with
  | |- context [turnToward ?e ?t ?d] =>
      destruct (turnToward_frame e t d) as [Htb Hta];
      destruct (turnToward e t d) as [turned scratch]
  end.
  enemy_simpl. cbv zeta. enemy_simpl. rewrite Hta. enemy_simpl.
  destruct (_ <=? lit 0) eqn:Hdone; cbv beta iota; enemy_simpl;
    (match goal with
     | |- context [updateEnemyPhaserBeam ?e ?d] =>
         destruct (updateEnemyPhaserBeam_frame e d) as [Hpb Hpa]
     end);
    rewrite Hpb, Hpa;
    split_ifs; enemy_simpl; rewrite ?Htb, ?Hb; auto.
Qed.

Lemma runEnemyAI_app
    (frames1 frames2 : list (Frame N)) (enemy : EnemyShip N)
    (playerState : GameState.t N) (combat : CombatState N) :
  runEnemyAI enemy playerState combat (frames1 ++ frames2)
  = runEnemyAI (fst (runEnemyAI enemy playerState combat frames1)) playerState
               (snd (runEnemyAI enemy playerState combat frames1)) frames2.
Proof.
  revert enemy combat.
  induction frames1 as [| fr rest IH]; intros enemy combat; cbn.
  - reflexivity.
  - destruct (updateEnemyAI enemy playerState combat fr) as [e c]. apply IH.
Qed.

End EnemyAIFacts.

Import EnemyAI EnemyTrace.

Section AlertTimer.
Context {N : Type} `{Number N} `{Three N}.
Local Open Scope js_scope.

(** While no frame so far has left the alert timer at or below 0, the
    enemy stays in [alert], its timer run down by one subtraction per
    frame. *)
Lemma alert_waits (playerState : GameState.t N) :
  forall (waiting : list (Frame N)) (enemy : EnemyShip N) (combat : CombatState N),
    behavior enemy = alert ->
    isDestroyed (enemyHealth combat) = false ->
    (forall k, (0 < k <= length waiting)%nat ->
       (fold_left (fun t f => t - delta f) (firstn k waiting) (alertTimer enemy)
        <=? lit 0) = false) ->
    behavior (fst (runEnemyAI enemy playerState combat waiting)) = alert
    /\ alertTimer (fst (runEnemyAI enemy playerState combat waiting))
       = fold_left (fun t f => t - delta f) waiting (alertTimer enemy)
    /\ isDestroyed (enemyHealth (snd (runEnemyAI enemy playerState combat waiting)))
       = false.
Proof.
  induction waiting as [| fr rest IH]; intros enemy combat Hb Hd Hwait.
  - cbn [runEnemyAI fst snd fold_left]. auto.
  - destruct (updateEnemyAI_alert enemy playerState combat fr Hb Hd)
      as (Ht & Hb' & Hd' & _).
    pose proof (Hwait 1%nat ltac:(cbn [length]; lia)) as H1.
    change (firstn 1 (fr :: rest)) with [fr] in H1. cbn [fold_left] in H1.
    cbn [runEnemyAI fold_left].
    destruct (updateEnemyAI enemy playerState combat fr) as [e1 c1].
    cbn [fst snd] in *. rewrite H1 in Hb'. rewrite <- Ht.
    apply (IH e1 c1 Hb' Hd').
    intros k Hk. rewrite Ht. apply (Hwait (S k)). cbn [length]. lia.
Qed.

(** Detection, the wait and the attack, in any arithmetic. *)
Lemma detect_then_attack
    (enemy : EnemyShip N) (playerState : GameState.t N) (combat : CombatState N)
    (fr : Frame N) (waiting : list (Frame N)) (last : Frame N) :
  behavior enemy = idle ->
  isDestroyed (enemyHealth combat) = false ->
  (vec_length (subVectors (GameState.position playerState) (position enemy))
   <? lit 500) = true ->
  (forall k, (0 < k <= length waiting)%nat ->
     (fold_left (fun t f => t - delta f) (firstn k waiting) (lit 2.0) <=? lit 0)
     = false) ->
  (fold_left (fun t f => t - delta f) (waiting ++ [last]) (lit 2.0) <=? lit 0)
  = true ->
  let enemy1 := fst (updateEnemyAI enemy playerState combat fr) in
  let combat1 := snd (updateEnemyAI enemy playerState combat fr) in
  behavior enemy1 = alert
  /\ alertTimer enemy1 = lit 2.0
  /\ behavior (fst (runEnemyAI enemy1 playerState combat1 waiting)) = alert
  /\ alertTimer (fst (runEnemyAI enemy1 playerState combat1 waiting))
     = fold_left (fun t f => t - delta f) waiting (lit 2.0)
  /\ behavior (fst (runEnemyAI enemy1 playerState combat1 (waiting ++ [last])))
     = attack.
Proof.
  intros Hb Hd Hnear Hwait Hdone.
  destruct (updateEnemyAI_idle enemy playerState combat fr Hb Hd)
    as (Hc & Hb1 & Ht1).
  cbv zeta in *.
  destruct (updateEnemyAI enemy playerState combat fr) as [enemy1 combat1].
  cbn [fst snd] in *. subst combat1.
  unfold DETECTION_RANGE in *. rewrite Hnear in Hb1. specialize (Ht1 Hnear).
  destruct (alert_waits playerState waiting enemy1 combat Hb1 Hd)
    as (Hb2 & Ht2 & Hd2).
  { rewrite Ht1. exact Hwait. }
  rewrite Ht1 in Ht2.
  repeat split; auto.
  rewrite runEnemyAI_app.
  destruct (runEnemyAI enemy1 playerState combat waiting) as [e2 c2].
  cbn [fst snd runEnemyAI] in *.
  destruct (updateEnemyAI_alert e2 playerState c2 last Hb2 Hd2)
    as (_ & Hb3 & _).
  destruct (updateEnemyAI e2 playerState c2 last) as [e3 c3].
  cbn [fst snd] in *. rewrite Hb3, Ht2.
  rewrite fold_left_app in Hdone. cbn [fold_left] in Hdone.
  rewrite Hdone. reflexivity.
Qed.

End AlertTimer.

(** *** The alert timer in exact arithmetic *)

Lemma elapsed_cons (fr : Frame Q) (frames : list (Frame Q)) :
  elapsed (fr :: frames) = delta fr + elapsed frames.
Proof. reflexivity. Qed.

Lemma elapsed_nonneg (frames : list (Frame Q)) :
  Forall (fun fr => 0 <= delta fr) frames -> 0 <= elapsed frames.
Proof.
  induction 1 as [| fr frames Hfr _ IH].
  - cbn. lra.
  - rewrite elapsed_cons. lra.
Qed.

(** The timer after a run of frames is what it was, less the time they
    span. *)
Lemma alert_timer_exact (frames : list (Frame Q)) :
  forall t : Q,
    fold_left (fun t f => (t - delta f)%js) frames t == t - elapsed frames.
Proof.
  induction frames as [| fr rest IH]; intros t.
  - cbn. lra.
  - cbn [fold_left]. rewrite IH, elapsed_cons. js_Q. lra.
Qed.

Lemma elapsed_firstn (frames : list (Frame Q)) :
  Forall (fun fr => 0 <= delta fr) frames ->
  forall k, elapsed (firstn k frames) <= elapsed frames.
Proof.
  induction 1 as [| fr frames Hfr Hrest IH]; intros k.
  - destruct k; cbn; lra.
  - destruct k as [| k].
    + change (firstn 0 (fr :: frames)) with (@nil (Frame Q)).
      pose proof (elapsed_nonneg frames Hrest). rewrite elapsed_cons.
      change (elapsed []) with 0. lra.
    + change (firstn (S k) (fr :: frames)) with (fr :: firstn k frames).
      rewrite !elapsed_cons. specialize (IH k). lra.
Qed.

Lemma elapsed_snoc (frames : list (Frame Q)) (last : Frame Q) :
  elapsed (frames ++ [last]) == elapsed frames + delta last.
Proof.
  induction frames as [| fr rest IH].
  - cbn. lra.
  - cbn [app]. rewrite !elapsed_cons, IH. lra.
Qed.

(** C8 read in exact arithmetic: the enemy waits in [alert] while the
    frames span less than 2 seconds and attacks after the frame with which
    they reach 2 seconds. *)
Lemma alert_lasts_two_seconds
    (T : Three Q) (enemy : EnemyShip Q) (playerState : GameState.t Q)
    (combat : CombatState Q) (fr : Frame Q)
    (waiting : list (Frame Q)) (last : Frame Q) :
  behavior enemy = idle ->
  isDestroyed (enemyHealth combat) = false ->
  vec_length (subVectors (GameState.position playerState) (position enemy)) < 500 ->
  Forall (fun f => 0 <= delta f) waiting ->
  elapsed waiting < 2 ->
  2 <= elapsed waiting + delta last ->
  let enemy1 := fst (updateEnemyAI enemy playerState combat fr) in
  let combat1 := snd (updateEnemyAI enemy playerState combat fr) in
  behavior enemy1 = alert
  /\ alertTimer enemy1 == 2
  /\ behavior (fst (runEnemyAI enemy1 playerState combat1 waiting)) = alert
  /\ behavior (fst (runEnemyAI enemy1 playerState combat1 (waiting ++ [last])))
     = attack.
Proof.
  intros Hb Hd Hnear Hpos Hlt Hge.
  destruct (detect_then_attack enemy playerState combat fr waiting last Hb Hd)
    as (H1 & H2 & H3 & _ & H5).
  - js_Q. apply Qltb_true. exact Hnear.
  - intros k Hk. js_Q. apply Qle_bool_false.
    rewrite alert_timer_exact. pose proof (elapsed_firstn waiting Hpos k). lra.
  - js_Q. apply Qle_bool_iff.
    rewrite alert_timer_exact, elapsed_snoc. lra.
  - cbv zeta. repeat split; auto. rewrite H2. reflexivity.
Qed.

(** C8.  An enemy in [idle] that is not itself destroyed, with the player
    within the detection range of 500, is in [alert] after one
    [updateEnemyAI] step, its alert timer armed at 2 (seconds).  Over the
    following steps, with no other writer of the state, each frame takes
    its frame time off the timer: the enemy stays in [alert] while every
    frame so far has left the timer above 0, and is in [attack] after the
    frame that leaves it at or below 0.  Any arithmetic, any realisation of
    three.js.  The timer is the code's running difference, so the wait is
    2 seconds up to its rounding: on binary64, frames of 0.025 s give the
    attack with frame 81, not 80, and frames of 1/30 s with frame 60. *)
Theorem enemy_detects_then_attacks :
  (forall (N : Type) (HN : Number N) (T : Three N)
          (enemy : EnemyShip N) (playerState : GameState.t N)
          (combat : CombatState N) (fr : Frame N)
          (waiting : list (Frame N)) (last : Frame N),
     behavior enemy = idle ->
     isDestroyed (enemyHealth combat) = false ->
     (vec_length (subVectors (GameState.position playerState) (position enemy))
      <? lit 500)%js = true ->
     let timerAfter :=
       fun frames => fold_left (fun t f => (t - delta f)%js) frames (lit 2.0) in
     (forall k, (0 < k <= length waiting)%nat ->
                (timerAfter (firstn k waiting) <=? lit 0)%js = false) ->
     (timerAfter (waiting ++ [last]) <=? lit 0)%js = true ->
     let enemy1 := fst (updateEnemyAI enemy playerState combat fr) in
     let combat1 := snd (updateEnemyAI enemy playerState combat fr) in
     behavior enemy1 = alert
     /\ alertTimer enemy1 = lit 2.0
     /\ behavior (fst (runEnemyAI enemy1 playerState combat1 waiting)) = alert
     /\ alertTimer (fst (runEnemyAI enemy1 playerState combat1 waiting))
        = timerAfter waiting
     /\ behavior (fst (runEnemyAI enemy1 playerState combat1 (waiting ++ [last])))
        = attack)
  /\ (forall (T : Three float) (enemy : EnemyShip float)
             (playerState : GameState.t float) (combat : CombatState float)
             (fr : Frame float) (random now1 now2 : float),
        behavior enemy = idle ->
        isDestroyed (enemyHealth combat) = false ->
        (vec_length (subVectors (GameState.position playerState) (position enemy))
         <? lit 500)%js = true ->
        let enemy1 := fst (updateEnemyAI enemy playerState combat fr) in
        let combat1 := snd (updateEnemyAI enemy playerState combat fr) in
        let after := fun (d : float) (n : nat) =>
          behavior (fst (runEnemyAI enemy1 playerState combat1
                           (repeat (mkFrame d random now1 now2) n))) in
        (after (lit 0.025) 80%nat = alert /\ after (lit 0.025) 81%nat = attack)
        /\ (after (lit (1 / 30)) 59%nat = alert
            /\ after (lit (1 / 30)) 60%nat = attack)).
Proof.
  split.
  - intros N HN T enemy playerState combat fr waiting last Hb Hd Hnear.
    cbv zeta. intros Hwait Hdone.
    exact (detect_then_attack enemy playerState combat fr waiting last
             Hb Hd Hnear Hwait Hdone).
  - intros T enemy playerState combat fr random now1 now2 Hb Hd Hnear. cbv zeta.
    assert (Hrun : forall (d : float) (n : nat),
              forallb (fun k =>
                         negb (fold_left (fun t f => (t - delta f)%js)
                                 (firstn k (repeat (mkFrame d random now1 now2) n))
                                 (lit 2.0) <=? lit 0)%js)
                      (seq 1 n) = true ->
              (fold_left (fun t f => (t - delta f)%js)
                 (repeat (mkFrame d random now1 now2) (S n)) (lit 2.0)
               <=? lit 0)%js = true ->
              behavior (fst (runEnemyAI
                               (fst (updateEnemyAI enemy playerState combat fr))
                               playerState
                               (snd (updateEnemyAI enemy playerState combat fr))
                               (repeat (mkFrame d random now1 now2) n))) = alert
              /\ behavior (fst (runEnemyAI
                                  (fst (updateEnemyAI enemy playerState combat fr))
                                  playerState
                                  (snd (updateEnemyAI enemy playerState combat fr))
                                  (repeat (mkFrame d random now1 now2) (S n))))
                 = attack).
    { intros d n Hwait Hdone.
      assert (Esnoc : repeat (mkFrame d random now1 now2) (S n)
                      = repeat (mkFrame d random now1 now2) n
                        ++ [mkFrame d random now1 now2]).
      { exact (List.repeat_cons n (mkFrame d random now1 now2)). }
      rewrite Esnoc in *.
      destruct (detect_then_attack enemy playerState combat fr
                  (repeat (mkFrame d random now1 now2) n)
                  (mkFrame d random now1 now2) Hb Hd Hnear)
        as (_ & _ & H3 & _ & H5).
      - intros k Hk.
        apply (prefixes_checked
                 (fun p => negb (fold_left (fun t f => (t - delta f)%js) p (lit 2.0)
                                 <=? lit 0)%js)) in Hk.
        + apply negb_true_iff in Hk. exact Hk.
        + rewrite repeat_length. exact Hwait.
      - exact Hdone.
      - split; [exact H3 | exact H5]. }
    split.
    + destruct (Hrun (lit 0.025) 80%nat) as [Ha Hb'];
        [vm_compute; reflexivity | vm_compute; reflexivity |].
      split; [exact Ha | exact Hb'].
    + destruct (Hrun (lit (1 / 30)) 59%nat) as [Ha Hb'];
        [vm_compute; reflexivity | vm_compute; reflexivity |].
      split; [exact Ha | exact Hb'].
Qed.

(** The witness of C8 in exact arithmetic: the idle enemy, the player 100
    units away, and frames of 1/20 s, of which 39 leave the timer at 1/20
    and the 40th takes it to 0. *)
Lemma enemy_detects_then_attacks_witness :
  behavior (fst (updateEnemyAI Scenario.idle_enemy Scenario.player_nearby
                   Scenario.combat_start Scenario.frame60)) = alert
  /\ behavior
       (fst (runEnemyAI
               (fst (updateEnemyAI Scenario.idle_enemy Scenario.player_nearby
                       Scenario.combat_start Scenario.frame60))
               Scenario.player_nearby
               (snd (updateEnemyAI Scenario.idle_enemy Scenario.player_nearby
                       Scenario.combat_start Scenario.frame60))
               (repeat Scenario.frame20 39 ++ [Scenario.frame20]))) = attack.
Proof.
  destruct enemy_detects_then_attacks as [Hgen _].
  destruct (Hgen Q Number_Q RationalThree.Three_Q
              Scenario.idle_enemy Scenario.player_nearby Scenario.combat_start
              Scenario.frame60 (repeat Scenario.frame20 39) Scenario.frame20)
    as (H1 & _ & _ & _ & H2).
  - reflexivity.
  - reflexivity.
  - vm_compute. reflexivity.
  - intros k Hk.
    apply (prefixes_checked
             (fun p => negb (fold_left (fun t f => (t - delta f)%js) p (lit 2.0)
                             <=? lit 0)%js)) in Hk.
    + apply negb_true_iff in Hk. exact Hk.
    + vm_compute. reflexivity.
  - vm_compute. reflexivity.
  - split; [exact H1 | exact H2].
Defined.

(** * Further properties of the modelled code *)

(** ** input-manager.ts *)

Lemma wasJustPressed_input (input : InputManager.t) (code : string) :
  InputManager.justPressed (snd (InputManager.wasJustPressed input code))
    = InputManager.justPressed input ∖ {[code]}
  /\ InputManager.keys (snd (InputManager.wasJustPressed input code))
     = InputManager.keys input
  /\ fst (InputManager.wasJustPressed input code)
     = bool_decide (code ∈ InputManager.justPressed input).
Proof.
  unfold InputManager.wasJustPressed.
  destruct (bool_decide (code ∈ InputManager.justPressed input)) eqn:E;
    cbn [fst snd InputManager.justPressed InputManager.keys];
    repeat split; try reflexivity.
  apply bool_decide_eq_false in E. apply set_eq. intros x.
  rewrite elem_of_difference, elem_of_singleton.
  split; [intros Hx; split; [exact Hx | intros ->; contradiction] | tauto].
Qed.

(** X1. A key going down is reported by [wasJustPressed] once: the first
    read returns true and clears the flag, a second read returns false,
    the key-repeat of a held key does not arm it again, and it is armed
    again by a release followed by a new press. *)
Theorem key_press_reported_once :
  forall (input : InputManager.t) (code : string),
    code ∉ InputManager.keys input ->
    let down := InputManager.onKeyDown input code in
    let read := snd (InputManager.wasJustPressed down code) in
    fst (InputManager.wasJustPressed down code) = true
    /\ InputManager.isPressed read code = true
    /\ fst (InputManager.wasJustPressed read code) = false
    /\ fst (InputManager.wasJustPressed
              (InputManager.onKeyDown read code) code) = false
    /\ fst (InputManager.wasJustPressed
              (InputManager.onKeyDown (InputManager.onKeyUp read code) code)
              code) = true.
Proof.
  intros input code Hup down read.
  assert (Hdown : InputManager.justPressed down
                  = InputManager.justPressed input ∪ {[code]}).
  { unfold down, InputManager.onKeyDown.
    rewrite bool_decide_eq_false_2 by exact Hup. reflexivity. }
  assert (Hkeys : InputManager.keys down = InputManager.keys input ∪ {[code]})
    by reflexivity.
  destruct (wasJustPressed_input down code) as (Hj & Hk & Hr).
  fold read in Hj, Hk. clearbody read. clearbody down.
  destruct (wasJustPressed_input read code) as (_ & _ & Hr2).
  destruct (wasJustPressed_input (InputManager.onKeyDown read code) code)
    as (_ & _ & Hr3).
  destruct (wasJustPressed_input
              (InputManager.onKeyDown (InputManager.onKeyUp read code) code)
              code) as (_ & _ & Hr4).
  rewrite Hr, Hr2, Hr3, Hr4. unfold InputManager.isPressed.
  assert (Hheld : code ∈ InputManager.keys read).
  { rewrite Hk, Hkeys. apply elem_of_union_r, elem_of_singleton. reflexivity. }
  assert (Hclear : code ∉ InputManager.justPressed read).
  { rewrite Hj. rewrite elem_of_difference, elem_of_singleton. tauto. }
  repeat split.
  - apply bool_decide_eq_true. rewrite Hdown.
    apply elem_of_union_r, elem_of_singleton. reflexivity.
  - apply bool_decide_eq_true. exact Hheld.
  - apply bool_decide_eq_false. exact Hclear.
  - apply bool_decide_eq_false. unfold InputManager.onKeyDown.
    rewrite bool_decide_eq_true_2 by exact Hheld. exact Hclear.
  - apply bool_decide_eq_true.
    unfold InputManager.onKeyDown, InputManager.onKeyUp.
    cbn [InputManager.keys InputManager.justPressed].
    rewrite bool_decide_eq_false_2.
    + apply elem_of_union_r, elem_of_singleton. reflexivity.
    + rewrite elem_of_difference, elem_of_singleton. tauto.
Qed.

(** The witness of X1: the T key on an idle keyboard. *)
Lemma key_press_reported_once_witness :
  fst (InputManager.wasJustPressed
         (InputManager.onKeyDown Scenario.no_keys "KeyT") "KeyT") = true
  /\ fst (InputManager.wasJustPressed
            (snd (InputManager.wasJustPressed
                    (InputManager.onKeyDown Scenario.no_keys "KeyT") "KeyT"))
            "KeyT") = false.
Proof.
  destruct (key_press_reported_once Scenario.no_keys "KeyT")
    as (H1 & _ & H2 & _).
  - apply not_elem_of_empty.
  - split; [exact H1 | exact H2].
Defined.

(** ** ship-controller.ts: the blocks of [updateShip], field by field *)

(** Unfold the field assignments of a [GameState] down to the
    constructor. *)
Ltac gs_unfold :=
  cbv beta iota delta
    [GameState.position GameState.quaternion GameState.velocity
     GameState.throttle GameState.speed GameState.isWarp
     GameState.shieldsActive GameState.shieldStrength
     GameState.phaserCharge GameState.torpedoCount GameState.phaserFiring
     GameState.torpedoFiring GameState.heading GameState.bearing
     GameState.speedDisplay
     GameState.set_position GameState.set_quaternion GameState.set_velocity
     GameState.set_throttle GameState.set_speed GameState.set_isWarp
     GameState.set_shieldsActive GameState.set_shieldStrength
     GameState.set_phaserCharge GameState.set_torpedoCount
     GameState.set_phaserFiring GameState.set_torpedoFiring].

Section ShipControllerShapes.
Import GameState ShipController ThrottleKeys.
Context {N : Type} `{Number N} `{Three N}.
Local Open Scope js_scope.

(** Each block writes only its own fields: its result is the state it was
    given with those fields assigned. *)
Lemma updateRotation_shape (state : GameState.t N) (input : InputManager.t) (delta : N) :
  exists q, updateRotation state input delta = set_quaternion state q.
Proof.
  unfold updateRotation. cbv zeta.
  destruct state.
  repeat match goal with
  | |- context [if ?b then set_quaternion ?s ?q else _] => destruct b
  end; gs_unfold; eexists; reflexivity.
Qed.

Lemma throttleAfter_ext (ds : list nat) (p1 p2 : gset string) (t : N) :
  (forall d, In d ds -> (digitCode d ∈ p1 <-> digitCode d ∈ p2)) ->
  throttleAfter ds p1 t = throttleAfter ds p2 t.
Proof.
  revert t. induction ds as [| d ds IH]; intros t Hext; cbn.
  - reflexivity.
  - rewrite (bool_decide_ext _ _ (Hext d (or_introl eq_refl))).
    apply IH. intros d' Hd'. apply Hext. right. exact Hd'.
Qed.

Lemma fold_throttleKey_shape (ds : list nat) :
  NoDup (map digitCode ds) ->
  forall (state : GameState.t N) (input : InputManager.t),
    fst (fold_left throttleKey ds (state, input))
      = set_throttle state
          (throttleAfter ds (InputManager.justPressed input) (throttle state))
    /\ InputManager.justPressed (snd (fold_left throttleKey ds (state, input)))
       = InputManager.justPressed input ∖ list_to_set (map digitCode ds)
    /\ InputManager.keys (snd (fold_left throttleKey ds (state, input)))
       = InputManager.keys input.
Proof.
  induction ds as [| d ds IH]; intros Hnd state input.
  - cbn. repeat split.
    + destruct state; reflexivity.
    + apply set_eq. intros x. rewrite elem_of_difference.
      split; [intros Hx; split; [exact Hx | apply not_elem_of_empty] | tauto].
  - cbn [map] in Hnd. apply NoDup_cons in Hnd. destruct Hnd as [Hd Hnd].
    cbn [fold_left]. unfold throttleKey at 2 4 6.
    destruct (wasJustPressed_input input (digitCode d)) as (Hj & Hk & Hr).
    destruct (InputManager.wasJustPressed input (digitCode d)) as [pressed input1].
    cbn [fst snd] in Hj, Hk, Hr.
    assert (Hrest : forall t,
              throttleAfter ds (InputManager.justPressed input1) t
              = throttleAfter ds (InputManager.justPressed input) t).
    { intros t. apply throttleAfter_ext. intros d' Hd'. rewrite Hj.
      rewrite elem_of_difference, elem_of_singleton.
      split; [tauto |]. intros Hin. split; [exact Hin |].
      intros E. apply Hd. rewrite <- E. apply list_elem_of_In, in_map. exact Hd'. }
    assert (Hset : InputManager.justPressed input1 ∖ list_to_set (map digitCode ds)
                   = InputManager.justPressed input
                       ∖ list_to_set (map digitCode (d :: ds))).
    { rewrite Hj. cbn [map list_to_set]. apply set_eq. intros x.
      rewrite !elem_of_difference, elem_of_union, elem_of_singleton. tauto. }
    cbn [throttleAfter fold_left]. fold (throttleAfter ds).
    rewrite <- Hr.
    destruct pressed.
    + destruct (IH Hnd (set_throttle state (throttleOf d)) input1) as (E1 & E2 & E3).
      fold (throttleOf d).
      rewrite E1, E2, E3, Hrest, Hset, Hk. repeat split.
    + destruct (IH Hnd state input1) as (E1 & E2 & E3).
      rewrite E1, E2, E3, Hrest, Hset, Hk. repeat split.
Qed.

Lemma updateWarp_shape (state : GameState.t N) (input : InputManager.t) :
  (exists w, fst (updateWarp state input) = set_isWarp state w)
  /\ snd (updateWarp state input)
     = snd (InputManager.wasJustPressed input "CapsLock").
Proof.
  unfold updateWarp. cbv zeta.
  destruct (InputManager.wasJustPressed input "CapsLock") as [caps input1].
  cbn [fst snd]. split; [| reflexivity]. destruct state.
  split_ifs; gs_unfold; eexists; reflexivity.
Qed.

Lemma updateMotion_shape (state : GameState.t N) (delta : N) :
  exists pos vel,
    updateMotion state delta
    = set_position (set_velocity (set_speed state (speed (updateMotion state delta))) vel)
                   pos.
Proof.
  unfold updateMotion. cbv zeta. destruct state.
  split_ifs; gs_unfold; do 2 eexists; reflexivity.
Qed.

Lemma updateTriggers_shape (state : GameState.t N) (input : InputManager.t) (delta : N) :
  (exists c pf tf,
     fst (updateTriggers state input delta)
     = set_torpedoFiring (set_phaserFiring (set_phaserCharge state c) pf) tf)
  /\ snd (updateTriggers state input delta)
     = snd (InputManager.wasJustPressed input "KeyT").
Proof.
  unfold updateTriggers. cbv zeta.
  destruct (InputManager.wasJustPressed input "KeyT") as [keyT input1].
  cbn [fst snd]. split; [| reflexivity]. destruct state.
  split_ifs; gs_unfold; do 3 eexists; reflexivity.
Qed.

Lemma updateShieldToggle_shape (state : GameState.t N) (input : InputManager.t) (delta : N) :
  (exists a s,
     fst (updateShieldToggle state input delta)
     = set_shieldStrength (set_shieldsActive state a) s)
  /\ snd (updateShieldToggle state input delta)
     = snd (InputManager.wasJustPressed input "KeyX").
Proof.
  unfold updateShieldToggle. cbv zeta.
  destruct (InputManager.wasJustPressed input "KeyX") as [keyX input1].
  cbn [fst snd]. split; [| reflexivity]. destruct state.
  split_ifs; gs_simpl; split_ifs; gs_unfold; do 2 eexists; reflexivity.
Qed.

End ShipControllerShapes.

Section ShipControllerBlocks.
Import GameState ShipController ThrottleKeys.
Context {N : Type} `{Number N} `{Three N}.
Local Open Scope js_scope.

(** The speed the motion block leaves: one bounded step toward the
    target. *)
Lemma updateMotion_speed (state : GameState.t N) (delta : N) :
  let targetSpeed := throttle state * IMPULSE_MAX_SPEED in
  let effectiveTarget :=
    if isWarp state then targetSpeed * WARP_MULTIPLIER else targetSpeed in
  speed (updateMotion state delta)
  = (if speed state <? effectiveTarget
     then Math_min effectiveTarget (speed state + lit 2.5 * delta)
     else if speed state >? effectiveTarget
          then Math_max effectiveTarget (speed state - lit 2.5 * delta)
          else speed state).
Proof.
  cbv zeta. unfold updateMotion. cbv zeta. split_ifs; gs_simpl; reflexivity.
Qed.

(** The charge and the phaser intent the weapons block leaves. *)
Lemma updateTriggers_charge (state : GameState.t N) (input : InputManager.t) (delta : N) :
  let charge :=
    if phaserCharge state <? lit 100
    then Math_min (lit 100) (phaserCharge state + PHASER_RECHARGE * delta)
    else phaserCharge state in
  phaserCharge (fst (updateTriggers state input delta)) = charge
  /\ phaserFiring (fst (updateTriggers state input delta))
     = InputManager.isPressed input "Space" && (charge >? lit 5).
Proof.
  cbv zeta. unfold updateTriggers. cbv zeta.
  destruct (InputManager.wasJustPressed input "KeyT") as [keyT input1].
  split_ifs; gs_simpl; auto.
Qed.

(** The shield state the last block leaves. *)
Lemma updateShieldToggle_spec (state : GameState.t N) (input : InputManager.t) (delta : N) :
  let toggled :=
    if bool_decide ("KeyX" ∈ InputManager.justPressed input)
    then negb (shieldsActive state) else shieldsActive state in
  let drained := Math_max (lit 0) (shieldStrength state - lit 0.5 * delta) in
  let state' := fst (updateShieldToggle state input delta) in
  shieldStrength state'
  = (if toggled && (shieldStrength state >? lit 0)
     then drained else shieldStrength state)
  /\ shieldsActive state'
     = (if toggled && (shieldStrength state >? lit 0)
        then negb (drained <=? lit 0) else toggled).
Proof.
  cbv zeta. unfold updateShieldToggle, InputManager.wasJustPressed. cbv zeta.
  destruct (bool_decide ("KeyX" ∈ InputManager.justPressed input));
    cbv beta iota; gs_simpl;
    destruct (shieldsActive state) eqn:Ha; cbn [negb andb];
    destruct (shieldStrength state >? lit 0); gs_simpl;
    try destruct (Math_max _ _ <=? lit 0); gs_simpl; rewrite ?Ha; auto.
Qed.

(** [updateShip] as the chain of its blocks. *)
Lemma updateShip_unfold (state : GameState.t N) (input : InputManager.t) (delta : N) :
  let s0 := updateRotation state input delta in
  let r1 := updateThrottle s0 input in
  let r2 := updateWarp (fst r1) (snd r1) in
  let s3 := updateMotion (fst r2) delta in
  let r4 := updateTriggers s3 (snd r2) delta in
  updateShip state input delta = updateShieldToggle (fst r4) (snd r4) delta.
Proof.
  cbv zeta. unfold updateShip.
  destruct (updateThrottle _ _) as [s1 i1]. cbn [fst snd].
  destruct (updateWarp s1 i1) as [s2 i2]. cbn [fst snd].
  destruct (updateTriggers _ i2 delta) as [s4 i4]. reflexivity.
Qed.

Lemma digitCode_inj (d d' : nat) :
  (d < 10)%nat -> (d' < 10)%nat -> digitCode d = digitCode d' -> d = d'.
Proof.
  intros Hd Hd' E. unfold digitCode in E. cbn in E.
  do 10 (destruct d as [| d]; [do 10 (destruct d' as [| d']; [first [reflexivity | discriminate E] |]); lia |]).
  lia.
Qed.

Lemma digitCodes_NoDup : NoDup (map digitCode (seq 0 10)).
Proof.
  apply NoDup_fmap_2_strong; [| apply NoDup_seq].
  intros d d' Hd Hd' E.
  apply elem_of_seq in Hd, Hd'. apply digitCode_inj; [lia | lia | exact E].
Qed.

Lemma other_key_not_digit (code : string) (ds : list nat) :
  (forall d, code <> digitCode d) ->
  code ∉ (list_to_set (map digitCode ds) : gset string).
Proof.
  intros Hne. rewrite elem_of_list_to_set. intros Hin.
  apply list_elem_of_In, in_map_iff in Hin. destruct Hin as (d & E & _).
  exact (Hne d (eq_sym E)).
Qed.

Lemma not_digitCode (code : string) :
  String.length code <> 6%nat -> forall d, code <> digitCode d.
Proof. intros Hlen d ->. apply Hlen. reflexivity. Qed.

(** A field that a block's assignments leave alone comes out of the
    block as it went in. *)
Lemma updateRotation_keeps {A : Type} (f : GameState.t N -> A)
    (state : GameState.t N) (input : InputManager.t) (delta : N) :
  (forall s q, f (set_quaternion s q) = f s) ->
  f (updateRotation state input delta) = f state.
Proof.
  intros Hf. destruct (updateRotation_shape state input delta) as [q ->].
  apply Hf.
Qed.

Lemma updateThrottle_keeps {A : Type} (f : GameState.t N -> A)
    (state : GameState.t N) (input : InputManager.t) :
  (forall s t, f (set_throttle s t) = f s) ->
  f (fst (updateThrottle state input)) = f state.
Proof.
  intros Hf. unfold updateThrottle.
  destruct (fold_throttleKey_shape (seq 0 10) digitCodes_NoDup state input)
    as (-> & _). apply Hf.
Qed.

Lemma updateWarp_keeps {A : Type} (f : GameState.t N -> A)
    (state : GameState.t N) (input : InputManager.t) :
  (forall s w, f (set_isWarp s w) = f s) ->
  f (fst (updateWarp state input)) = f state.
Proof.
  intros Hf. destruct (updateWarp_shape state input) as ([w ->] & _). apply Hf.
Qed.

Lemma updateMotion_keeps {A : Type} (f : GameState.t N -> A)
    (state : GameState.t N) (delta : N) :
  (forall s v vel pos, f (set_position (set_velocity (set_speed s v) vel) pos) = f s) ->
  f (updateMotion state delta) = f state.
Proof.
  intros Hf. destruct (updateMotion_shape state delta) as (pos & vel & ->).
  apply Hf.
Qed.

Lemma updateTriggers_keeps {A : Type} (f : GameState.t N -> A)
    (state : GameState.t N) (input : InputManager.t) (delta : N) :
  (forall s c pf tf,
     f (set_torpedoFiring (set_phaserFiring (set_phaserCharge s c) pf) tf) = f s) ->
  f (fst (updateTriggers state input delta)) = f state.
Proof.
  intros Hf.
  destruct (updateTriggers_shape state input delta) as ((c & pf & tf & ->) & _).
  apply Hf.
Qed.

Lemma updateShieldToggle_keeps {A : Type} (f : GameState.t N -> A)
    (state : GameState.t N) (input : InputManager.t) (delta : N) :
  (forall s a ss, f (set_shieldStrength (set_shieldsActive s a) ss) = f s) ->
  f (fst (updateShieldToggle state input delta)) = f state.
Proof.
  intros Hf.
  destruct (updateShieldToggle_shape state input delta) as ((a & ss & ->) & _).
  apply Hf.
Qed.

End ShipControllerBlocks.

(** Push a projection back through the blocks that do not write it. *)
Ltac ship_keeps f :=
  rewrite ?updateShip_unfold;
  cbv zeta;
  repeat first
    [ rewrite (updateShieldToggle_keeps f) by (intros; reflexivity)
    | rewrite (updateTriggers_keeps f) by (intros; reflexivity)
    | rewrite (updateMotion_keeps f) by (intros; reflexivity)
    | rewrite (updateWarp_keeps f) by (intros; reflexivity)
    | rewrite (updateThrottle_keeps f) by (intros; reflexivity)
    | rewrite (updateRotation_keeps f) by (intros; reflexivity) ].

Section ShipControllerFields.
Import GameState ShipController ThrottleKeys.
Context {N : Type} `{Number N} `{Three N}.
Local Open Scope js_scope.

(** The one-shot flags and the held keys at the points of [updateShip]
    where they are read. *)
Lemma updateShip_stage_inputs (state : GameState.t N) (input : InputManager.t) (delta : N) :
  let digits : gset string := list_to_set (map digitCode (seq 0 10)) in
  let s0 := updateRotation state input delta in
  let r1 := updateThrottle s0 input in
  let r2 := updateWarp (fst r1) (snd r1) in
  let s3 := updateMotion (fst r2) delta in
  let r4 := updateTriggers s3 (snd r2) delta in
  (InputManager.justPressed (snd r1) = InputManager.justPressed input ∖ digits
   /\ InputManager.keys (snd r1) = InputManager.keys input)
  /\ (InputManager.justPressed (snd r2)
      = InputManager.justPressed input ∖ digits ∖ {["CapsLock"]}
      /\ InputManager.keys (snd r2) = InputManager.keys input)
  /\ (InputManager.justPressed (snd r4)
      = InputManager.justPressed input ∖ digits ∖ {["CapsLock"]} ∖ {["KeyT"]}
      /\ InputManager.keys (snd r4) = InputManager.keys input).
Proof.
  cbv zeta.
  match goal with
  | |- context [updateTriggers ?s ?i ?d] =>
      destruct (updateTriggers_shape s i d) as (_ & ->)
  end.
  match goal with
  | |- context [updateWarp ?s ?i] =>
      destruct (updateWarp_shape s i) as (_ & ->)
  end.
  unfold updateThrottle.
  destruct (fold_throttleKey_shape (seq 0 10) digitCodes_NoDup
              (updateRotation state input delta) input) as (_ & J1 & K1).
  repeat match goal with
  | |- context [InputManager.wasJustPressed ?i ?c] =>
      let J := fresh "J" in
      let K := fresh "K" in
      destruct (wasJustPressed_input i c) as (J & K & _);
      rewrite ?J, ?K; clear J K
  end.
  rewrite J1, K1. repeat split.
Qed.

(** A flag that is none of those read earlier is still pending when its
    turn comes. *)
Lemma pending_after_digits (pending : gset string) (code : string) :
  String.length code <> 6%nat ->
  code ∈ pending ∖ (list_to_set (map digitCode (seq 0 10)) : gset string)
  <-> code ∈ pending.
Proof.
  intros Hlen. rewrite elem_of_difference.
  pose proof (other_key_not_digit code (seq 0 10) (not_digitCode code Hlen)).
  tauto.
Qed.

Lemma updateShip_input (state : GameState.t N) (input : InputManager.t) (delta : N) :
  InputManager.justPressed (snd (updateShip state input delta))
    = InputManager.justPressed input ∖ polled
  /\ InputManager.keys (snd (updateShip state input delta))
     = InputManager.keys input.
Proof.
  rewrite updateShip_unfold.
  destruct (updateShip_stage_inputs state input delta) as (_ & _ & J4 & K4).
  cbv zeta in *.
  match goal with
  | |- context [updateShieldToggle ?s ?i ?d] =>
      destruct (updateShieldToggle_shape s i d) as (_ & ->);
      destruct (wasJustPressed_input i "KeyX") as (-> & -> & _)
  end.
  rewrite J4, K4. split; [| reflexivity].
  apply set_eq. intros x. unfold polled.
  rewrite !elem_of_difference, !elem_of_union, !elem_of_singleton. tauto.
Qed.

(** The torpedo intent [updateShip] returns is decided by the T flag and
    the magazine alone. *)
Lemma updateShip_torpedoFiring (state : GameState.t N) (input : InputManager.t) (delta : N) :
  torpedoFiring (fst (updateShip state input delta))
  = bool_decide ("KeyT" ∈ InputManager.justPressed input)
    && (torpedoCount state >? lit 0).
Proof.
  destruct (updateShip_stage_inputs state input delta) as (_ & (J2 & _) & _).
  ship_keeps (@torpedoFiring N _). cbv zeta in J2.
  match goal with
  | |- context [updateTriggers ?s ?i ?d] =>
      destruct (updateTriggers_spec s i d) as (_ & _ & _ & ->)
  end.
  ship_keeps (@torpedoCount N _). rewrite J2. f_equal.
  apply bool_decide_ext.
  rewrite elem_of_difference, elem_of_singleton, pending_after_digits by discriminate.
  split; [tauto | intros Hin; split; [exact Hin | discriminate]].
Qed.

(** The motion block of [updateShip] runs on the incoming speed and on
    the throttle and warp flag that [updateShip] returns. *)
Lemma updateShip_motion (state : GameState.t N) (input : InputManager.t) (delta : N) :
  exists s2 : GameState.t N,
    speed (fst (updateShip state input delta)) = speed (updateMotion s2 delta)
    /\ speed s2 = speed state
    /\ throttle s2 = throttle (fst (updateShip state input delta))
    /\ isWarp s2 = isWarp (fst (updateShip state input delta)).
Proof.
  eexists. split; [ship_keeps (@speed N _); reflexivity |].
  split; [ship_keeps (@speed N _); reflexivity |].
  split; [ship_keeps (@throttle N _); reflexivity |].
  ship_keeps (@isWarp N _); reflexivity.
Qed.

(** The throttle [updateShip] returns is the one the digit keys leave. *)
Lemma updateShip_throttle (state : GameState.t N) (input : InputManager.t) (delta : N) :
  throttle (fst (updateShip state input delta))
  = throttleAfter (seq 0 10) (InputManager.justPressed input) (throttle state).
Proof.
  ship_keeps (@throttle N _). unfold updateThrottle.
  destruct (fold_throttleKey_shape (seq 0 10) digitCodes_NoDup
              (updateRotation state input delta) input) as (-> & _).
  gs_simpl. rewrite (updateRotation_keeps throttle) by (intros; reflexivity).
  reflexivity.
Qed.

(** Charge and phaser intent. *)
Lemma updateShip_phasers (state : GameState.t N) (input : InputManager.t) (delta : N) :
  let charge :=
    if phaserCharge state <? lit 100
    then Math_min (lit 100) (phaserCharge state + PHASER_RECHARGE * delta)
    else phaserCharge state in
  phaserCharge (fst (updateShip state input delta)) = charge
  /\ phaserFiring (fst (updateShip state input delta))
     = InputManager.isPressed input "Space" && (charge >? lit 5).
Proof.
  cbv zeta.
  destruct (updateShip_stage_inputs state input delta) as (_ & (_ & K2) & _).
  cbv zeta in K2. split.
  - ship_keeps (@phaserCharge N _).
    match goal with
    | |- context [updateTriggers ?s ?i ?d] =>
        destruct (updateTriggers_charge s i d) as (-> & _)
    end.
    ship_keeps (@phaserCharge N _). reflexivity.
  - ship_keeps (@phaserFiring N _).
    match goal with
    | |- context [updateTriggers ?s ?i ?d] =>
        destruct (updateTriggers_charge s i d) as (_ & ->)
    end.
    ship_keeps (@phaserCharge N _). unfold InputManager.isPressed.
    rewrite K2. reflexivity.
Qed.

(** Shields. *)
Lemma updateShip_shields (state : GameState.t N) (input : InputManager.t) (delta : N) :
  let toggled :=
    if bool_decide ("KeyX" ∈ InputManager.justPressed input)
    then negb (shieldsActive state) else shieldsActive state in
  let drained := Math_max (lit 0) (shieldStrength state - lit 0.5 * delta) in
  let state' := fst (updateShip state input delta) in
  shieldStrength state'
  = (if toggled && (shieldStrength state >? lit 0)
     then drained else shieldStrength state)
  /\ shieldsActive state'
     = (if toggled && (shieldStrength state >? lit 0)
        then negb (drained <=? lit 0) else toggled).
Proof.
  cbv zeta.
  destruct (updateShip_stage_inputs state input delta) as (_ & _ & J4 & _).
  cbv zeta in J4. rewrite updateShip_unfold. cbv zeta.
  match goal with
  | |- context [updateShieldToggle ?s ?i ?d] =>
      destruct (updateShieldToggle_spec s i d) as (-> & ->)
  end.
  rewrite J4.
  ship_keeps (@shieldsActive N _). ship_keeps (@shieldStrength N _).
  assert (E : bool_decide
                ("KeyX" ∈ InputManager.justPressed input
                          ∖ list_to_set (map digitCode (seq 0 10))
                          ∖ {["CapsLock"]} ∖ {["KeyT"]})
              = bool_decide ("KeyX" ∈ InputManager.justPressed input)).
  { apply bool_decide_ext.
    rewrite !elem_of_difference, !elem_of_singleton.
    pose proof (pending_after_digits (InputManager.justPressed input) "KeyX")
      as Hd. rewrite elem_of_difference in Hd.
    split; [tauto |]. intros Hin.
    specialize (Hd ltac:(discriminate)).
    repeat split; try discriminate; try exact Hin; tauto. }
  rewrite E. split; reflexivity.
Qed.

End ShipControllerFields.

Section ThrottleKeyFacts.
Import GameState ShipController ThrottleKeys.
Context {N : Type} `{Number N} `{Three N}.
Local Open Scope js_scope.

Lemma throttleAfter_app (l1 l2 : list nat) (pending : gset string) (t : N) :
  throttleAfter (l1 ++ l2) pending t
  = throttleAfter l2 pending (throttleAfter l1 pending t).
Proof. unfold throttleAfter. apply fold_left_app. Qed.

Lemma throttleAfter_none (l : list nat) (pending : gset string) (t : N) :
  (forall d, In d l -> digitCode d ∉ pending) ->
  throttleAfter l pending t = t.
Proof.
  revert t. induction l as [| d l IH]; intros t Hnone; [reflexivity |].
  unfold throttleAfter in *. cbn [fold_left].
  rewrite bool_decide_eq_false_2 by (apply Hnone; left; reflexivity).
  apply IH. intros d' Hin. apply Hnone. right. exact Hin.
Qed.

(** The loop runs upward, so the highest pending digit is the one whose
    assignment survives. *)
Lemma throttleAfter_highest (d : nat) (pending : gset string) (t : N) :
  (d < 10)%nat ->
  digitCode d ∈ pending ->
  (forall d', (d < d' < 10)%nat -> digitCode d' ∉ pending) ->
  throttleAfter (seq 0 10) pending t = throttleOf d.
Proof.
  intros Hd Hin Hhigh.
  replace 10%nat with (d + S (9 - d))%nat by lia.
  rewrite seq_app, throttleAfter_app. cbn [seq Nat.add].
  change (d :: seq (S d) (9 - d)) with ([d] ++ seq (S d) (9 - d)).
  rewrite throttleAfter_app, throttleAfter_none.
  - unfold throttleAfter. cbn [fold_left].
    rewrite bool_decide_eq_true_2 by exact Hin. reflexivity.
  - intros d' Hd'. apply in_seq in Hd'. apply Hhigh. lia.
Qed.

(** The warp flag [updateShip] returns, from the flag it was given, the
    CapsLock flag and the throttle it returns. *)
Lemma updateShip_isWarp (state : GameState.t N) (input : InputManager.t) (delta : N) :
  let throttle' := throttle (fst (updateShip state input delta)) in
  let toggled :=
    if bool_decide ("CapsLock" ∈ InputManager.justPressed input)
    then negb (isWarp state) && (throttle' >? lit 0.1)
    else isWarp state in
  isWarp (fst (updateShip state input delta))
  = toggled && negb (throttle' <=? lit 0.05).
Proof.
  cbv zeta.
  destruct (updateShip_stage_inputs state input delta) as ((J1 & _) & _).
  cbv zeta in J1.
  ship_keeps (@throttle N _). ship_keeps (@isWarp N _).
  unfold updateWarp at 1, InputManager.wasJustPressed at 1. cbv zeta.
  rewrite J1.
  assert (E : bool_decide
                ("CapsLock" ∈ InputManager.justPressed input
                   ∖ list_to_set (map digitCode (seq 0 10)))
              = bool_decide ("CapsLock" ∈ InputManager.justPressed input)).
  { apply bool_decide_ext. apply pending_after_digits. discriminate. }
  rewrite E.
  assert (Hw1 : isWarp (fst (updateThrottle (updateRotation state input delta) input))
                = isWarp state).
  { rewrite (updateThrottle_keeps isWarp) by (intros; reflexivity).
    apply (updateRotation_keeps isWarp). intros; reflexivity. }
  revert Hw1.
  generalize (fst (updateThrottle (updateRotation state input delta) input)).
  intros s1 Hw1.
  destruct (bool_decide ("CapsLock" ∈ InputManager.justPressed input));
    destruct (isWarp state) eqn:Hw; rewrite ?Hw1; cbn [negb andb fst];
    destruct (throttle s1 >? lit 0.1) eqn:Hgt; gs_simpl; cbn [negb andb];
    rewrite ?Hw1; cbn [negb andb];
    destruct (throttle s1 <=? lit 0.05) eqn:Hle; gs_simpl; cbn [negb andb];
    rewrite ?Hw1, ?Hgt, ?Hle; reflexivity.
Qed.

End ThrottleKeyFacts.

(** ** ship-controller.ts: one frame of [updateShip] *)

Import GameState ShipController.

(** X2. [updateShip] consumes every one-shot flag it polls (the ten digit
    keys, CapsLock, T and X), whether or not the key acted, and leaves the
    held keys alone.  So a second [updateShip] with no new key-down event
    in between fires no torpedo and changes neither the throttle nor the
    warp flag. *)
Theorem updateShip_consumes_presses :
  forall (N : Type) (HN : Number N) (T : Three N)
         (state : GameState.t N) (input : InputManager.t) (delta delta' : N),
    let r := updateShip state input delta in
    let r' := updateShip (fst r) (snd r) delta' in
    InputManager.justPressed (snd r)
      = InputManager.justPressed input ∖ ThrottleKeys.polled
    /\ InputManager.keys (snd r) = InputManager.keys input
    /\ torpedoFiring (fst r') = false
    /\ throttle (fst r') = throttle (fst r)
    /\ isWarp (fst r') = isWarp (fst r).
Proof.
  intros N HN T state input delta delta' r r'.
  destruct (updateShip_input state input delta) as (J & K). fold r in J, K.
  assert (Hnone : forall code, code ∈ ThrottleKeys.polled ->
                    code ∉ InputManager.justPressed (snd r)).
  { intros code Hin. rewrite J, elem_of_difference. tauto. }
  assert (Ht : throttle (fst r') = throttle (fst r)).
  { subst r'. rewrite updateShip_throttle. apply throttleAfter_none.
    intros d Hd. apply Hnone. unfold ThrottleKeys.polled.
    apply elem_of_union_l, elem_of_list_to_set, list_elem_of_In, in_map.
    exact Hd. }
  split; [exact J |]. split; [exact K |]. split; [| split; [exact Ht |]].
  - subst r'. rewrite updateShip_torpedoFiring.
    rewrite bool_decide_eq_false_2; [reflexivity |].
    apply Hnone. unfold ThrottleKeys.polled.
    rewrite elem_of_union, !elem_of_union, !elem_of_singleton. tauto.
  - pose proof (updateShip_isWarp (fst r) (snd r) delta') as Hw'.
    pose proof (updateShip_isWarp state input delta) as Hw.
    cbv zeta in Hw, Hw'. fold r in Hw. fold r' in Hw'.
    rewrite bool_decide_eq_false_2 in Hw'.
    + rewrite Hw', Ht. destruct (isWarp (fst r)); [| reflexivity].
      symmetry in Hw. apply andb_true_iff in Hw as [_ ->]. reflexivity.
    + apply Hnone. unfold ThrottleKeys.polled.
      rewrite elem_of_union, !elem_of_union, !elem_of_singleton. tauto.
Qed.

(** X3. The throttle keys: with no digit flag pending [updateShip] returns
    the throttle it was given; otherwise the highest pending digit [d]
    decides, and the throttle is [d / 9] (0 for the key 0) whatever the
    lower digits and the old throttle were. *)
Theorem updateShip_throttle_keys :
  forall (N : Type) (HN : Number N) (T : Three N)
         (state : GameState.t N) (input : InputManager.t) (delta : N),
    let state' := fst (updateShip state input delta) in
    ((forall d, (d < 10)%nat -> digitCode d ∉ InputManager.justPressed input) ->
     throttle state' = throttle state)
    /\ (forall d, (d < 10)%nat ->
        digitCode d ∈ InputManager.justPressed input ->
        (forall d', (d < d' < 10)%nat ->
                    digitCode d' ∉ InputManager.justPressed input) ->
        throttle state'
        = if Nat.eqb d 0 then lit 0 else (lit (inject_Z (Z.of_nat d)) / lit 9)%js).
Proof.
  intros N HN T state input delta state'. subst state'.
  rewrite updateShip_throttle. split.
  - intros Hnone. apply throttleAfter_none. intros d Hd.
    apply Hnone. apply in_seq in Hd. lia.
  - intros d Hd Hin Hhigh. apply throttleAfter_highest; assumption.
Qed.

(** The witness of X3: 3 and 7 pressed since the last frame, 7 first; the
    throttle is 7/9. *)
Lemma updateShip_throttle_keys_witness :
  throttle (fst (updateShip Scenario.armed (Scenario.press ["Digit7"; "Digit3"])
                   Scenario.dt)) == 7 / 9.
Proof.
  destruct (updateShip_throttle_keys Q Number_Q RationalThree.Three_Q
              Scenario.armed (Scenario.press ["Digit7"; "Digit3"]) Scenario.dt)
    as (_ & Hkey).
  rewrite (Hkey 7%nat).
  - reflexivity.
  - lia.
  - apply (proj1 (bool_decide_eq_true _)). vm_compute. reflexivity.
  - intros d' Hd'. assert (Hc : d' = 8%nat \/ d' = 9%nat) by lia.
    destruct Hc as [-> | ->]; apply (proj1 (bool_decide_eq_false _)); vm_compute;
      reflexivity.
Defined.

(** Membership of a key code in a concrete key set, by evaluation. *)
Ltac key_in := apply (proj1 (bool_decide_eq_true _)); vm_compute; reflexivity.
Ltac key_out := apply (proj1 (bool_decide_eq_false _)); vm_compute; reflexivity.

(** Every digit key asks for a throttle between 0 and 1. *)
Lemma throttleOf_range (d : nat) :
  (d < 10)%nat -> 0 <= ThrottleKeys.throttleOf d <= 1.
Proof.
  intros Hd. unfold ThrottleKeys.throttleOf.
  destruct (Nat.eqb d 0); js_Q; [lra |].
  split.
  - apply Qle_shift_div_l; [reflexivity |].
    unfold Qle, inject_Z. cbn. lia.
  - apply Qle_shift_div_r; [reflexivity |].
    unfold Qle, inject_Z. cbn. lia.
Qed.

Lemma throttleAfter_range (ds : list nat) (pending : gset string) (t : Q) :
  (forall d, In d ds -> (d < 10)%nat) ->
  0 <= t <= 1 -> 0 <= ThrottleKeys.throttleAfter ds pending t <= 1.
Proof.
  revert t. induction ds as [| d ds IH]; intros t Hds Ht; [exact Ht |].
  unfold ThrottleKeys.throttleAfter in *. cbn [fold_left].
  apply IH; [intros d' Hd'; apply Hds; right; exact Hd' |].
  destruct (bool_decide _); [| exact Ht].
  apply throttleOf_range, Hds. left. reflexivity.
Qed.

(** X4. One step of the speed: for a frame time [delta >= 0] the speed
    changes by at most [2.5 * delta], and moves toward the target (the
    returned throttle, times 8 at warp) without passing it. *)
Theorem updateShip_speed_step :
  forall (T : Three Q) (state : GameState.t Q) (input : InputManager.t) (delta : Q),
    0 <= delta ->
    let state' := fst (updateShip state input delta) in
    let target := throttle state' * (if isWarp state' then 8 else 1) in
    speed state - 2.5 * delta <= speed state' <= speed state + 2.5 * delta
    /\ (speed state <= target -> speed state <= speed state' <= target)
    /\ (target <= speed state -> target <= speed state' <= speed state).
Proof.
  intros T state input delta Hd. cbv zeta.
  destruct (updateShip_motion state input delta) as (s2 & -> & Hs & <- & <-).
  rewrite updateMotion_speed. cbv zeta. rewrite Hs.
  unfold IMPULSE_MAX_SPEED, WARP_MULTIPLIER. js_Q.
  generalize (throttle s2) (speed state). intros t s.
  destruct (isWarp s2);
    repeat match goal with
    | |- context [if Qltb ?a ?b then _ else _] =>
        let E := fresh "E" in destruct (Qltb a b) eqn:E
    end; Q_tests; Q_minmax; Q_tests; repeat split; intros; lra.
Qed.

(** The witness of X4: the first frame after pressing 9 from rest. *)
Lemma updateShip_speed_step_witness :
  speed (fst (updateShip Scenario.armed (Scenario.press ["Digit9"]) Scenario.dt))
  <= 0 + 2.5 * Scenario.dt.
Proof.
  destruct (updateShip_speed_step RationalThree.Three_Q Scenario.armed
              (Scenario.press ["Digit9"]) Scenario.dt) as ((_ & Hup) & _).
  - vm_compute. discriminate.
  - exact Hup.
Defined.

(** X5. Ranges: for a frame time [delta >= 0], a throttle in [0, 1] and a
    speed in [0, 8] stay there over [updateShip], and a speed of at most 1
    stays at most 1 when the ship leaves the call off warp. *)
Theorem updateShip_ranges :
  forall (T : Three Q) (state : GameState.t Q) (input : InputManager.t) (delta : Q),
    0 <= delta ->
    0 <= throttle state <= 1 ->
    0 <= speed state <= 8 ->
    let state' := fst (updateShip state input delta) in
    0 <= throttle state' <= 1
    /\ 0 <= speed state' <= 8
    /\ (isWarp state' = false -> speed state <= 1 -> speed state' <= 1).
Proof.
  intros T state input delta Hd Ht Hs. cbv zeta.
  assert (Ht' : 0 <= throttle (fst (updateShip state input delta)) <= 1).
  { rewrite updateShip_throttle. apply throttleAfter_range; [| exact Ht].
    intros d Hin. apply in_seq in Hin. lia. }
  split; [exact Ht' |]. revert Ht'.
  destruct (updateShip_motion state input delta) as (s2 & -> & Hs2 & <- & <-).
  rewrite updateMotion_speed. cbv zeta. rewrite Hs2.
  unfold IMPULSE_MAX_SPEED, WARP_MULTIPLIER. js_Q.
  revert Hs. generalize (throttle s2) (speed state). intros t s Hs Ht'.
  destruct (isWarp s2);
    repeat match goal with
    | |- context [if Qltb ?a ?b then _ else _] =>
        let E := fresh "E" in destruct (Qltb a b) eqn:E
    end; Q_tests; Q_minmax; Q_tests; repeat split; intros;
    try discriminate; lra.
Qed.

(** The witness of X5: the ship at warp with the throttle at 5/9. *)
Lemma updateShip_ranges_witness :
  speed (fst (updateShip Scenario.at_warp Scenario.no_keys Scenario.dt)) <= 8.
Proof.
  destruct (updateShip_ranges RationalThree.Three_Q Scenario.at_warp
              Scenario.no_keys Scenario.dt) as (_ & (_ & Hup) & _).
  - vm_compute. discriminate.
  - split; vm_compute; discriminate.
  - split; vm_compute; discriminate.
  - exact Hup.
Defined.

(** X6. Phasers: for [delta >= 0] a charge of at most 100 never falls and
    never passes 100; a charge of 100 or more is returned as it is; and
    the phaser intent is set exactly when Space is held and the charge
    after recharging is above 5. *)
Theorem updateShip_phaser_charge :
  forall (T : Three Q) (state : GameState.t Q) (input : InputManager.t) (delta : Q),
    0 <= delta ->
    let state' := fst (updateShip state input delta) in
    (phaserCharge state <= 100 ->
     phaserCharge state <= phaserCharge state' <= 100)
    /\ (100 <= phaserCharge state -> phaserCharge state' = phaserCharge state)
    /\ (phaserFiring state' = true <->
        "Space" ∈ InputManager.keys input /\ 5 < phaserCharge state').
Proof.
  intros T state input delta Hd. cbv zeta.
  destruct (updateShip_phasers state input delta) as (-> & ->).
  unfold PHASER_RECHARGE, InputManager.isPressed. js_Q.
  rewrite andb_true_iff, bool_decide_eq_true, Qltb_true.
  generalize (phaserCharge state). intros c.
  destruct (Qltb c 100) eqn:E; Q_tests; Q_minmax; Q_tests;
    repeat split; intros; try tauto; try lra.
Qed.

(** The witness of X6: a full charge. *)
Lemma updateShip_phaser_charge_witness :
  phaserCharge (fst (updateShip Scenario.armed Scenario.no_keys Scenario.dt))
  = phaserCharge Scenario.armed.
Proof.
  destruct (updateShip_phaser_charge RationalThree.Three_Q Scenario.armed
              Scenario.no_keys Scenario.dt) as (_ & Hfull & _).
  - vm_compute. discriminate.
  - apply Hfull. vm_compute. discriminate.
Defined.

(** X7. Shields: for [delta >= 0] the strength never rises, loses at most
    [0.5 * delta] and does not go below 0 from a non-negative value.  It
    is untouched when the shields are off once the key has been read
    (switched off by X, or left off).  Shields that are on at that point
    with strength above 0 drain, and end the frame off exactly when the
    drain has taken the strength to 0; so shields end a frame off either
    untouched or drained to 0, and shields that start it with strength
    above 0 end it active only with strength above 0.  At strength 0 or
    below the X key still switches the flag and nothing drains. *)
Theorem updateShip_shield_drain :
  forall (T : Three Q) (state : GameState.t Q) (input : InputManager.t) (delta : Q),
    0 <= delta ->
    let state' := fst (updateShip state input delta) in
    let toggled :=
      if bool_decide ("KeyX" ∈ InputManager.justPressed input)
      then negb (shieldsActive state) else shieldsActive state in
    (shieldStrength state - 0.5 * delta <= shieldStrength state'
     /\ shieldStrength state' <= shieldStrength state)
    /\ (0 <= shieldStrength state -> 0 <= shieldStrength state')
    /\ (toggled = false ->
        shieldStrength state' = shieldStrength state
        /\ shieldsActive state' = false)
    /\ (toggled = true -> 0 < shieldStrength state ->
        shieldStrength state' == Qmax 0 (shieldStrength state - 0.5 * delta)
        /\ (shieldsActive state' = false <-> shieldStrength state <= 0.5 * delta))
    /\ (shieldsActive state' = false ->
        (toggled = false /\ shieldStrength state' = shieldStrength state)
        \/ (toggled = true /\ 0 < shieldStrength state
            /\ shieldStrength state' == 0))
    /\ (0 < shieldStrength state -> shieldsActive state' = true ->
        toggled = true /\ 0 < shieldStrength state')
    /\ (shieldStrength state <= 0 ->
        shieldStrength state' = shieldStrength state
        /\ shieldsActive state' = toggled).
Proof.
  intros T state input delta Hd. cbv zeta.
  destruct (updateShip_shields state input delta) as (-> & ->).
  js_Q.
  generalize (if bool_decide ("KeyX" ∈ InputManager.justPressed input)
              then negb (shieldsActive state) else shieldsActive state).
  generalize (GameState.shieldStrength state). intros s toggled.
  pose proof (Qmaxb_Qmax 0 (s - 0.5 * delta)) as Hmax.
  revert Hmax. generalize (Qmaxb 0 (s - 0.5 * delta)). intros m Hmax.
  destruct toggled; cbn [andb negb];
    destruct (Qltb 0 s) eqn:E; Q_tests;
    try (destruct (Qle_bool m 0) eqn:Em; cbn [negb]; Q_tests);
    repeat split; intros; try discriminate; try reflexivity; try assumption;
    try lra; try (revert Hmax; Qmax_lra);
    try (left; split; reflexivity);
    try (right; repeat split; try assumption; revert Hmax; Qmax_lra).
Qed.

(** The witness of X7: shields up with 1/1000 of strength left; a frame
    of 1/60 s drains them to 0 and switches them off. *)
Lemma updateShip_shield_drain_witness :
  shieldsActive (fst (updateShip Scenario.shields_failing Scenario.no_keys
                        Scenario.dt)) = false
  /\ shieldStrength (fst (updateShip Scenario.shields_failing Scenario.no_keys
                            Scenario.dt)) == 0.
Proof.
  destruct (updateShip_shield_drain RationalThree.Three_Q Scenario.shields_failing
              Scenario.no_keys Scenario.dt) as (_ & _ & _ & Hon & _).
  - vm_compute. discriminate.
  - destruct Hon as (Hs & Hoff); [reflexivity | vm_compute; reflexivity |].
    split.
    + apply Hoff. vm_compute. discriminate.
    + rewrite Hs. vm_compute. reflexivity.
Defined.

(** ** combat-system.ts: damage, hits and timers *)

Import CombatSystem.

(** X8. Damage never repairs: for a ship that is not destroyed and a raw
    damage of at least 0, [applyDamage] leaves the hull in
    [max(0, hull - rawDamage) .. hull] and the shield strength in
    [ss - 0.35 * rawDamage .. ss], neither below 0 when it was not; the
    ship is destroyed exactly when the hull has reached 0; shields are
    never raised, and shields that were up at positive strength stay up
    exactly while strength is left. *)
Theorem applyDamage_wears (health : ShipHealth Q) (rawDamage : Q) :
  isDestroyed health = false ->
  0 <= rawDamage ->
  let health' := applyDamage health rawDamage in
  (0 <= hull health' /\ hull health - rawDamage <= hull health'
   /\ (0 <= hull health -> hull health' <= hull health))
  /\ (isDestroyed health' = true <-> hull health' == 0)
  /\ (shieldStrength health - 0.35 * rawDamage <= shieldStrength health'
      /\ shieldStrength health' <= shieldStrength health
      /\ (0 <= shieldStrength health -> 0 <= shieldStrength health'))
  /\ (shieldsUp health' = true -> shieldsUp health = true)
  /\ (shieldsUp health = true -> 0 < shieldStrength health ->
      (shieldsUp health' = true <-> 0 < shieldStrength health')).
Proof.
  intros Hd Hr. cbv zeta. unfold applyDamage. rewrite Hd.
  unfold SHIELD_ABSORPTION. js_Q.
  destruct (shieldsUp health) eqn:Hup; cbn [andb];
    [destruct (Qltb 0 (shieldStrength health)) eqn:Hs |];
    health_simpl;
    repeat match goal with
    | |- context [if Qle_bool ?a ?b then _ else _] =>
        let E := fresh "E" in destruct (Qle_bool a b) eqn:E; health_simpl
    end; Q_tests; Q_minmax; Q_tests;
    rewrite ?Hup; repeat split; intros;
    try discriminate; try reflexivity; try congruence; try lra.
Qed.

(** The witness of X8: a fresh ship with shields raised, hit for 40. *)
Lemma applyDamage_wears_witness :
  hull (applyDamage Scenario.shielded 40) <= 100.
Proof.
  destruct (applyDamage_wears Scenario.shielded 40) as ((_ & _ & Hle) & _).
  - reflexivity.
  - vm_compute. discriminate.
  - apply Hle. vm_compute. discriminate.
Defined.

Section TorpedoHitFacts.
Import GameLoop.
Context {N : Type} `{Number N} `{Three N}.
Local Open Scope js_scope.

Lemma set_enemyHealth_same (combat : CombatState N) :
  set_enemyHealth combat (enemyHealth combat) = combat.
Proof. destruct combat; reflexivity. Qed.

Lemma filter_seq_shift (f : nat -> bool) (a n : nat) :
  List.filter f (seq (S a) n) = map S (List.filter (fun i => f (S i)) (seq a n)).
Proof.
  revert a. induction n as [| n IH]; intros a; [reflexivity |].
  cbn [seq List.filter]. rewrite IH. destruct (f (S a)); reflexivity.
Qed.

(** The loop of [checkTorpedoHits] in closed form: the hits are the
    indices in range, whatever happens to the enemy on the way, and the
    enemy takes one quantum per hit. *)
Lemma checkTorpedoHits_from_spec (ps : list (Vector3 N)) (enemyPosition : Vector3 N) :
  forall (combat : CombatState N) (i : nat),
    let hits :=
      List.filter
        (fun k => match ps !! k with
                  | Some p => distanceTo p enemyPosition <? HIT_DISTANCE_TORPEDO
                  | None => false
                  end)
        (seq 0 (length ps)) in
    checkTorpedoHits_from combat i ps enemyPosition
    = (map (Nat.add i) hits,
       set_enemyHealth combat
         (Nat.iter (length hits) (fun h => applyDamage h TORPEDO_DAMAGE)
                   (enemyHealth combat))).
Proof.
  induction ps as [| p ps IH]; intros combat i; cbv zeta.
  - cbn. rewrite set_enemyHealth_same. reflexivity.
  - cbn [checkTorpedoHits_from length seq List.filter lookup list_lookup].
    rewrite filter_seq_shift. cbn [lookup list_lookup]. cbv zeta in IH.
    destruct (distanceTo p enemyPosition <? HIT_DISTANCE_TORPEDO).
    + rewrite IH. cbn [map length]. rewrite !length_map, map_map.
      rewrite Nat.iter_succ_r. cbn [enemyHealth set_enemyHealth gameOver playerHealth].
      f_equal. f_equal; [f_equal; lia |].
      apply map_ext. intros k. lia.
    + rewrite IH. rewrite !length_map, map_map. f_equal.
      apply map_ext. intros k. lia.
Qed.

(** Removing in the loop's order: the indices above the head go first. *)
Lemma removeHits_down_cons (t : Effects.PhotonTorpedo N) :
  forall (v : list nat) (l : list (Effects.PhotonTorpedo N)) (w : list nat),
    removeHits_down (t :: l) (map S v ++ w)
    = match removeHits_down l v with
      | Some l' => removeHits_down (t :: l') w
      | None => None
      end.
Proof.
  induction v as [| idx v IH]; intros l w; [reflexivity |].
  cbn [map app removeHits_down lookup list_lookup].
  destruct (l !! idx) as [t' |]; [| reflexivity].
  apply IH.
Qed.

(** Removing the indices a test selects leaves the elements the test
    rejects, in their order, and never reads past the array. *)
Lemma removeHits_filter (inRange : Effects.PhotonTorpedo N -> bool) :
  forall torpedoes : list (Effects.PhotonTorpedo N),
    removeHits torpedoes
      (List.filter
         (fun i => match torpedoes !! i with
                   | Some t => inRange t
                   | None => false
                   end)
         (seq 0 (length torpedoes)))
    = Some (List.filter (fun t => negb (inRange t)) torpedoes).
Proof.
  unfold removeHits. intros torpedoes.
  induction torpedoes as [| t l IH]; [reflexivity |].
  cbn [length seq List.filter lookup list_lookup].
  rewrite filter_seq_shift. cbn [lookup list_lookup].
  destruct (inRange t); cbn [negb rev].
  - rewrite <- map_rev, removeHits_down_cons.
    match goal with
    | |- match ?x with _ => _ end = _ =>
        let Hx := fresh in
        assert (Hx : x = Some (List.filter (fun t => negb (inRange t)) l))
          by exact IH;
        rewrite Hx
    end. reflexivity.
  - rewrite <- map_rev, <- (app_nil_r (map S _)), removeHits_down_cons.
    match goal with
    | |- match ?x with _ => _ end = _ =>
        let Hx := fresh in
        assert (Hx : x = Some (List.filter (fun t => negb (inRange t)) l))
          by exact IH;
        rewrite Hx
    end. reflexivity.
Qed.

(** [checkTorpedoHits] on a live enemy. *)
Lemma checkTorpedoHits_alive (combat : CombatState N)
    (torpedoPositions : list (Vector3 N)) (enemyPosition : Vector3 N) :
  isDestroyed (enemyHealth combat) = false ->
  let hits :=
    List.filter
      (fun i => match torpedoPositions !! i with
                | Some p => distanceTo p enemyPosition <? lit 12
                | None => false
                end)
      (seq 0 (length torpedoPositions)) in
  checkTorpedoHits combat torpedoPositions enemyPosition
  = (hits,
     {| playerHealth := playerHealth combat;
        enemyHealth :=
          Nat.iter (length hits) (fun h => applyDamage h (lit 18))
                   (enemyHealth combat);
        gameOver := gameOver combat |}).
Proof.
  intros Hd. cbv zeta. unfold checkTorpedoHits. rewrite Hd.
  rewrite checkTorpedoHits_from_spec. cbv zeta.
  unfold HIT_DISTANCE_TORPEDO, TORPEDO_DAMAGE, set_enemyHealth. f_equal.
  etrans; [apply map_ext; intros k; reflexivity | apply map_id].
Qed.

(** The block's torpedo check: what is left of the torpedoes. *)
Lemma torpedoHits_remaining (combat : CombatState N)
    (torpedoes : list (Effects.PhotonTorpedo N)) (enemyPosition : Vector3 N) :
  fst (torpedoHits combat torpedoes enemyPosition)
  = Some (if isDestroyed (enemyHealth combat) then torpedoes
          else List.filter
                 (fun t => negb (distanceTo (Effects.mesh_position t) enemyPosition
                                 <? lit 12))
                 torpedoes)
  /\ snd (torpedoHits combat torpedoes enemyPosition)
     = snd (checkTorpedoHits combat (map Effects.mesh_position torpedoes)
              enemyPosition).
Proof.
  unfold torpedoHits. destruct torpedoes as [| t l].
  - cbn [length Nat.ltb Nat.leb fst snd]. unfold checkTorpedoHits.
    destruct (isDestroyed (enemyHealth combat)); split; reflexivity.
  - change (0 <? length (t :: l))%nat with true. cbv iota.
    destruct (isDestroyed (enemyHealth combat)) eqn:Hd.
    + unfold checkTorpedoHits. rewrite Hd. split; reflexivity.
    + rewrite (checkTorpedoHits_alive _ _ _ Hd). cbv zeta. cbn [fst snd].
      split; [| reflexivity]. rewrite length_map.
      rewrite <- (removeHits_filter
                    (fun t => distanceTo (Effects.mesh_position t) enemyPosition
                              <? lit 12)).
      f_equal. apply filter_ext. intros i.
      rewrite list_lookup_fmap.
      destruct ((t :: l) !! i); reflexivity.
Qed.

End TorpedoHitFacts.

(** X9. [checkTorpedoHits] in closed form.  On a destroyed enemy it
    reports nothing and writes nothing.  Otherwise it reports, in
    ascending order, the index of every torpedo closer than 12 units to
    the enemy (also of those that arrive after an earlier one of the same
    call has destroyed it) and applies the 18-point quantum to the enemy
    once per reported index; the player's health and the outcome flag are
    not written. *)
Theorem checkTorpedoHits_closed_form :
  forall (N : Type) (HN : Number N) (T : Three N) (combat : CombatState N)
         (torpedoPositions : list (Vector3 N)) (enemyPosition : Vector3 N),
    let hits :=
      List.filter
        (fun i => match torpedoPositions !! i with
                  | Some p => (distanceTo p enemyPosition <? lit 12)%js
                  | None => false
                  end)
        (seq 0 (length torpedoPositions)) in
    checkTorpedoHits combat torpedoPositions enemyPosition
    = if isDestroyed (enemyHealth combat) then ([], combat)
      else (hits,
            {| playerHealth := playerHealth combat;
               enemyHealth :=
                 Nat.iter (length hits) (fun h => applyDamage h (lit 18))
                          (enemyHealth combat);
               gameOver := gameOver combat |}).
Proof.
  intros N HN T combat ps pos. cbv zeta.
  destruct (isDestroyed (enemyHealth combat)) eqn:Hd.
  - unfold checkTorpedoHits. rewrite Hd. reflexivity.
  - apply checkTorpedoHits_alive. exact Hd.
Qed.

(** X10. The torpedo check of the game loop.  It never reads a torpedo at
    an index the array does not have.  On a live enemy the torpedoes left
    in the array are exactly those at 12 units or more from the enemy, in
    their old order; on an enemy destroyed before the check every torpedo
    stays, in range or not. *)
Theorem torpedoHits_removes_in_range :
  forall (N : Type) (HN : Number N) (T : Three N) (combat : CombatState N)
         (torpedoes : list (Effects.PhotonTorpedo N)) (enemyPosition : Vector3 N),
    fst (GameLoop.torpedoHits combat torpedoes enemyPosition)
    = Some (if isDestroyed (enemyHealth combat) then torpedoes
            else List.filter
                   (fun t => negb (distanceTo (Effects.mesh_position t)
                                              enemyPosition <? lit 12)%js)
                   torpedoes).
Proof.
  intros N HN T combat torpedoes enemyPosition.
  apply torpedoHits_remaining.
Qed.

Section CombatTimerFacts.
Import CombatTrace.
Context {N : Type} `{Number N}.
Local Open Scope js_scope.

(** What the frame check writes: the two flash timers and, while it is
    [null], the outcome. *)
Lemma updateCombatTimers_fields (combat : CombatState N) (delta : N) :
  let decay flash :=
    if flash >? lit 0 then Math_max (lit 0) (flash - lit 3 * delta) else flash in
  let combat' := updateCombatTimers combat delta in
  playerHealth combat'
  = set_damageFlash (playerHealth combat)
      (decay (damageFlash (playerHealth combat)))
  /\ enemyHealth combat'
     = set_damageFlash (enemyHealth combat)
         (decay (damageFlash (enemyHealth combat)))
  /\ gameOver combat'
     = match gameOver combat with
       | Some g => Some g
       | None =>
           if isDestroyed (enemyHealth combat) then Some victory
           else if isDestroyed (playerHealth combat) then Some defeat
           else None
       end.
Proof.
  cbv zeta. unfold updateCombatTimers.
  destruct combat as [[ph pm pu ps pd pf] [eh em eu es ed ef] g].
  cbn [playerHealth enemyHealth gameOver damageFlash].
  destruct (pf >? lit 0);
    cbn [playerHealth enemyHealth gameOver damageFlash set_playerHealth
         set_enemyHealth set_damageFlash set_gameOver isDestroyed hull
         maxHull shieldsUp shieldStrength];
    destruct (ef >? lit 0);
    cbn [playerHealth enemyHealth gameOver damageFlash set_playerHealth
         set_enemyHealth set_damageFlash set_gameOver isDestroyed hull
         maxHull shieldsUp shieldStrength];
    destruct g as [g |]; [| destruct ed, pd | | destruct ed, pd
                          | | destruct ed, pd | | destruct ed, pd];
    repeat split; reflexivity.
Qed.

(** A destroyed ship stays destroyed under every call. *)
Lemma call_isDestroyed (combat : CombatState N) (c : CombatCall N) :
  (isDestroyed (playerHealth combat) = true ->
   isDestroyed (playerHealth (call combat c)) = true)
  /\ (isDestroyed (enemyHealth combat) = true ->
      isDestroyed (enemyHealth (call combat c)) = true).
Proof.
  destruct c as [r | r | d]; cbn [call].
  - split; intros Hd; cbn; [rewrite applyDamage_destroyed |]; exact Hd.
  - split; intros Hd; cbn; [| rewrite applyDamage_destroyed]; exact Hd.
  - destruct (updateCombatTimers_fields combat d) as (-> & -> & _).
    split; intros Hd; exact Hd.
Qed.

(** A recorded outcome names a destroyed ship, if that was so before. *)
Lemma call_gameOver_sound (combat : CombatState N) (c : CombatCall N) :
  let sound combat :=
    (gameOver combat = Some victory -> isDestroyed (enemyHealth combat) = true)
    /\ (gameOver combat = Some defeat -> isDestroyed (playerHealth combat) = true) in
  sound combat -> sound (call combat c).
Proof.
  cbv zeta. intros [Hv Hf].
  destruct (call_isDestroyed combat c) as [Hp He].
  destruct c as [r | r | d]; cbn [call] in *.
  - split; intros Hg; cbn in Hg; auto.
  - split; intros Hg; cbn in Hg; auto.
  - destruct (updateCombatTimers_fields combat d) as (Ep & Ee & Eg).
    cbv zeta in *. rewrite Eg, Ep, Ee. cbn [isDestroyed set_damageFlash].
    destruct (gameOver combat) as [g |].
    + split; intros Hg; injection Hg as ->; auto.
    + destruct (isDestroyed (enemyHealth combat));
        destruct (isDestroyed (playerHealth combat));
        split; intros Hg; try discriminate; reflexivity.
Qed.

Lemma calls_gameOver_sound (cs : list (CombatCall N)) :
  forall combat : CombatState N,
    let sound combat :=
      (gameOver combat = Some victory -> isDestroyed (enemyHealth combat) = true)
      /\ (gameOver combat = Some defeat -> isDestroyed (playerHealth combat) = true) in
    sound combat -> sound (calls combat cs).
Proof.
  induction cs as [| c cs IH]; intros combat; cbv zeta; intros Hs; [exact Hs |].
  unfold calls. cbn [fold_left]. apply IH.
  apply (call_gameOver_sound combat c). exact Hs.
Qed.

End CombatTimerFacts.

(** X11. The outcome is honest: along any sequence of damage and frame
    checks that starts with no outcome recorded, a recorded victory means
    the enemy is destroyed and a recorded defeat means the player is. *)
Theorem gameOver_names_a_wreck :
  forall (N : Type) (HN : Number N) (combat : CombatState N)
         (cs : list (CombatTrace.CombatCall N)),
    gameOver combat = None ->
    let combat' := CombatTrace.calls combat cs in
    (gameOver combat' = Some victory -> isDestroyed (enemyHealth combat') = true)
    /\ (gameOver combat' = Some defeat -> isDestroyed (playerHealth combat') = true).
Proof.
  intros N HN combat cs Hnone. apply (calls_gameOver_sound cs combat).
  rewrite Hnone. split; discriminate.
Qed.

(** The witness of X11: the player is destroyed by two hits and the frame
    check records the defeat. *)
Lemma gameOver_names_a_wreck_witness :
  isDestroyed
    (playerHealth
       (CombatTrace.calls Scenario.combat_start
          [CombatTrace.DamagePlayer 60; CombatTrace.DamagePlayer 60;
           CombatTrace.CombatTimers Scenario.dt])) = true.
Proof.
  apply (gameOver_names_a_wreck Q Number_Q Scenario.combat_start
           [CombatTrace.DamagePlayer 60; CombatTrace.DamagePlayer 60;
            CombatTrace.CombatTimers Scenario.dt]).
  - reflexivity.
  - vm_compute. reflexivity.
Defined.

(** The flash timer after one frame check, in the order of [Q]. *)
Lemma flash_decay_step (flash delta : Q) :
  0 <= delta -> 0 <= flash ->
  (if Qltb 0 flash then Qmaxb 0 (flash - 3 * delta) else flash)
  == Qmax 0 (flash - 3 * delta).
Proof.
  intros Hd Hf. destruct (Qltb 0 flash) eqn:E; Q_tests.
  - apply Qmaxb_Qmax.
  - assert (Hz : flash == 0) by lra. symmetry. rewrite Q.max_l; lra.
Qed.

Lemma flash_decay_calls (deltas : list Q) :
  Forall (fun d => 0 <= d) deltas ->
  forall combat : CombatState Q,
    0 <= damageFlash (playerHealth combat) ->
    0 <= damageFlash (enemyHealth combat) ->
    let combat' := CombatTrace.calls combat (map CombatTrace.CombatTimers deltas) in
    let total := fold_right Qplus 0 deltas in
    damageFlash (playerHealth combat')
      == Qmax 0 (damageFlash (playerHealth combat) - 3 * total)
    /\ damageFlash (enemyHealth combat')
       == Qmax 0 (damageFlash (enemyHealth combat) - 3 * total)
    /\ hull (playerHealth combat') = hull (playerHealth combat)
    /\ hull (enemyHealth combat') = hull (enemyHealth combat)
    /\ shieldStrength (playerHealth combat') = shieldStrength (playerHealth combat)
    /\ shieldStrength (enemyHealth combat') = shieldStrength (enemyHealth combat).
Proof.
  induction 1 as [| d deltas Hd Hds IH]; intros combat Hp He; cbv zeta.
  - unfold CombatTrace.calls. cbn [map fold_right fold_left].
    repeat split; try reflexivity; Qmax_lra.
  - cbn [map fold_right]. unfold CombatTrace.calls. cbn [fold_left CombatTrace.call].
    destruct (updateCombatTimers_fields combat d) as (Ep & Ee & _).
    cbv zeta in Ep, Ee. js_Q.
    pose proof (flash_decay_step _ d Hd Hp) as Fp.
    pose proof (flash_decay_step _ d Hd He) as Fe.
    assert (Ht : 0 <= fold_right Qplus 0 deltas).
    { clear -Hds. induction Hds; cbn; lra. }
    specialize (IH (updateCombatTimers combat d)). cbv zeta in IH.
    unfold CombatTrace.calls in IH.
    destruct IH as (Ip & Ie & Ihp & Ihe & Isp & Ise).
    + rewrite Ep. cbn [damageFlash set_damageFlash]. rewrite Fp. apply Q.le_max_l.
    + rewrite Ee. cbn [damageFlash set_damageFlash]. rewrite Fe. apply Q.le_max_l.
    + rewrite Ihp, Ihe, Isp, Ise.
      rewrite Ep in Ip |- *. rewrite Ee in Ie |- *.
      cbn [damageFlash set_damageFlash hull shieldStrength] in *.
      repeat split; try reflexivity.
      * rewrite Ip, Fp. clear -Hd Ht Hp. Qmax_lra.
      * rewrite Ie, Fe. clear -Hd Ht He. Qmax_lra.
Qed.

(** X12. Flash timers: over frame checks with frame times [>= 0] that sum
    to [total], a flash value [f >= 0] becomes [max(0, f - 3 * total)] on
    either ship, so the flash a hit sets to 1 is over after a third of
    a second; hull and shield strength are not written. *)
Theorem damageFlash_decays :
  forall (combat : CombatState Q) (deltas : list Q),
    Forall (fun d => 0 <= d) deltas ->
    0 <= damageFlash (playerHealth combat) ->
    0 <= damageFlash (enemyHealth combat) ->
    let combat' := CombatTrace.calls combat (map CombatTrace.CombatTimers deltas) in
    let total := fold_right Qplus 0 deltas in
    damageFlash (playerHealth combat')
      == Qmax 0 (damageFlash (playerHealth combat) - 3 * total)
    /\ damageFlash (enemyHealth combat')
       == Qmax 0 (damageFlash (enemyHealth combat) - 3 * total)
    /\ hull (playerHealth combat') = hull (playerHealth combat)
    /\ hull (enemyHealth combat') = hull (enemyHealth combat)
    /\ shieldStrength (playerHealth combat') = shieldStrength (playerHealth combat)
    /\ shieldStrength (enemyHealth combat') = shieldStrength (enemyHealth combat).
Proof.
  intros combat deltas Hds Hp He. apply flash_decay_calls; assumption.
Qed.

(** The witness of X12: the player is hit, then four frames of 1/10 s
    pass. *)
Lemma damageFlash_decays_witness :
  damageFlash
    (playerHealth
       (CombatTrace.calls
          (CombatTrace.call Scenario.combat_start (CombatTrace.DamagePlayer 10))
          (map CombatTrace.CombatTimers [0.1; 0.1; 0.1; 0.1])))
  == 0.
Proof.
  destruct (damageFlash_decays
              (CombatTrace.call Scenario.combat_start (CombatTrace.DamagePlayer 10))
              [0.1; 0.1; 0.1; 0.1]) as (Hp & _).
  - repeat constructor; vm_compute; discriminate.
  - vm_compute. discriminate.
  - vm_compute. discriminate.
  - etransitivity; [exact Hp |]. vm_compute. reflexivity.
Defined.

(** One hit on a sound ship leaves a sound ship that is no better off. *)
Lemma applyDamage_sound (health : ShipHealth Q) (rawDamage : Q) :
  0 <= rawDamage ->
  0 <= hull health ->
  (isDestroyed health = true <-> hull health <= 0) ->
  let health' := applyDamage health rawDamage in
  0 <= hull health'
  /\ (isDestroyed health' = true <-> hull health' <= 0)
  /\ hull health' <= hull health
  /\ (isDestroyed health = true -> isDestroyed health' = true).
Proof.
  intros Hr Hh Hd. cbv zeta. unfold applyDamage.
  destruct (isDestroyed health) eqn:Ed;
    [cbv iota; rewrite ?Ed; repeat split; try tauto; lra |].
  unfold SHIELD_ABSORPTION. js_Q.
  destruct (shieldsUp health && Qltb 0 (shieldStrength health));
    health_simpl;
    repeat match goal with
    | |- context [if Qle_bool ?a ?b then _ else _] =>
        let E := fresh "E" in destruct (Qle_bool a b) eqn:E; health_simpl
    end; Q_tests; Q_minmax; Q_tests;
    rewrite ?Ed; repeat split; intros;
    try discriminate; try reflexivity; try lra.
Qed.

(** The same along a sequence of calls whose damage is never negative. *)
Lemma calls_sound (cs : list (CombatTrace.CombatCall Q)) :
  Forall (fun c => match c with
                   | CombatTrace.DamagePlayer r | CombatTrace.DamageEnemy r => 0 <= r
                   | CombatTrace.CombatTimers _ => True
                   end) cs ->
  forall combat : CombatState Q,
    let sound health :=
      0 <= hull health /\ (isDestroyed health = true <-> hull health <= 0) in
    sound (playerHealth combat) -> sound (enemyHealth combat) ->
    let combat' := CombatTrace.calls combat cs in
    sound (playerHealth combat') /\ sound (enemyHealth combat')
    /\ hull (playerHealth combat') <= hull (playerHealth combat)
    /\ hull (enemyHealth combat') <= hull (enemyHealth combat)
    /\ (isDestroyed (playerHealth combat) = true ->
        isDestroyed (playerHealth combat') = true)
    /\ (isDestroyed (enemyHealth combat) = true ->
        isDestroyed (enemyHealth combat') = true).
Proof.
  induction 1 as [| c cs Hc Hcs IH]; intros combat; cbv zeta;
    intros [Hp1 Hp2] [He1 He2].
  - unfold CombatTrace.calls. cbn [fold_left].
    repeat split; try tauto; lra.
  - unfold CombatTrace.calls in *. cbn [fold_left].
    specialize (IH (CombatTrace.call combat c)). cbv zeta in IH.
    destruct c as [r | r | d]; cbn [CombatTrace.call] in *.
    + destruct (applyDamage_sound (playerHealth combat) r Hc Hp1 Hp2)
        as (A1 & A2 & A3 & A4).
      cbn [playerHealth enemyHealth set_playerHealth] in IH.
      destruct IH as (I1 & I2 & I3 & I4 & I5 & I6); [tauto | tauto |].
      repeat split; try tauto; try lra.
    + destruct (applyDamage_sound (enemyHealth combat) r Hc He1 He2)
        as (A1 & A2 & A3 & A4).
      cbn [playerHealth enemyHealth set_enemyHealth] in IH.
      destruct IH as (I1 & I2 & I3 & I4 & I5 & I6); [tauto | tauto |].
      repeat split; try tauto; try lra.
    + destruct (updateCombatTimers_fields combat d) as (Ep & Ee & _).
      cbv zeta in Ep, Ee. rewrite Ep, Ee in IH.
      cbn [hull isDestroyed set_damageFlash] in IH.
      destruct IH as (I1 & I2 & I3 & I4 & I5 & I6); [tauto | tauto |].
      repeat split; try tauto; try lra.
Qed.

(** X13. Damage only wears ships down: start from two ships whose hull is
    at least 0 and that are marked destroyed exactly when the hull is at
    0, and run any sequence of damage calls with raw damage [>= 0] and
    frame checks.  Then both ships are still so, neither hull has risen,
    and a destroyed ship is still destroyed. *)
Theorem combat_calls_wear :
  forall (combat : CombatState Q) (cs : list (CombatTrace.CombatCall Q)),
    Forall (fun c => match c with
                     | CombatTrace.DamagePlayer r | CombatTrace.DamageEnemy r => 0 <= r
                     | CombatTrace.CombatTimers _ => True
                     end) cs ->
    let sound health :=
      0 <= hull health /\ (isDestroyed health = true <-> hull health <= 0) in
    sound (playerHealth combat) -> sound (enemyHealth combat) ->
    let combat' := CombatTrace.calls combat cs in
    sound (playerHealth combat') /\ sound (enemyHealth combat')
    /\ hull (playerHealth combat') <= hull (playerHealth combat)
    /\ hull (enemyHealth combat') <= hull (enemyHealth combat)
    /\ (isDestroyed (playerHealth combat) = true ->
        isDestroyed (playerHealth combat') = true)
    /\ (isDestroyed (enemyHealth combat) = true ->
        isDestroyed (enemyHealth combat') = true).
Proof.
  intros combat cs Hcs. apply calls_sound. exact Hcs.
Qed.

(** The witness of X13: a mission's first exchange of fire. *)
Lemma combat_calls_wear_witness :
  hull (enemyHealth
          (CombatTrace.calls Scenario.combat_start
             [CombatTrace.DamageEnemy 18; CombatTrace.DamagePlayer 15;
              CombatTrace.CombatTimers Scenario.dt]))
  <= 100.
Proof.
  destruct (combat_calls_wear Scenario.combat_start
              [CombatTrace.DamageEnemy 18; CombatTrace.DamagePlayer 15;
               CombatTrace.CombatTimers Scenario.dt])
    as (_ & _ & _ & He & _).
  - repeat constructor; vm_compute; discriminate.
  - split; [vm_compute; discriminate |].
    split; [discriminate | intros Hc; exfalso; revert Hc; vm_compute; auto].
  - split; [vm_compute; discriminate |].
    split; [discriminate | intros Hc; exfalso; revert Hc; vm_compute; auto].
  - exact He.
Defined.

(** ** enemy-ai.ts: one frame of [updateEnemyAI], field by field *)

Section EnemyAIFields.
Import EnemyAI.
Context {N : Type} `{Number N} `{Three N}.
Local Open Scope js_scope.

(** A field that the quaternion assignment leaves alone is kept by
    [turnToward]; one that the position assignment leaves alone is kept by
    the move step; one that the beam assignments leave alone is kept by
    the beam visual. *)
Lemma turnToward_keeps {A : Type} (f : EnemyShip N -> A)
    (enemy : EnemyShip N) (target : Vector3 N) (delta : N) :
  (forall e q, f (set_quaternion e q) = f e) ->
  f (fst (turnToward enemy target delta)) = f enemy.
Proof.
  intros Hf. unfold turnToward. cbv zeta.
  destruct (lengthSq _ <? lit 0.01); cbn [fst]; [reflexivity | apply Hf].
Qed.

Lemma updateEnemyPhaserBeam_keeps {A : Type} (f : EnemyShip N -> A)
    (enemy : EnemyShip N) (delta : N) :
  (forall e v, f (set_phaserBeam e v) = f e) ->
  (forall e v, f (set_phaserBeamAge e v) = f e) ->
  f (updateEnemyPhaserBeam enemy delta) = f enemy.
Proof.
  intros Hb Ha. unfold updateEnemyPhaserBeam.
  destruct (phaserFiring enemy).
  - rewrite Ha. destruct (negb (phaserBeam enemy)); [apply Hb | reflexivity].
  - destruct (phaserBeam enemy); [| reflexivity].
    destruct (_ <=? lit 0); rewrite ?Hb, ?Ha; reflexivity.
Qed.

(** The [attack] case above the evasive threshold: what is fired, and what
    that does to the cooldowns and to the player. *)
Lemma behaviorAttack_fields (enemy : EnemyShip N) (playerState : GameState.t N)
    (combat : CombatState N) (distToPlayer : N) (fr : Frame N) :
  (hull (enemyHealth combat) <? EVASIVE_HULL_THRESHOLD) = false ->
  exists facingDot : N,
    let r := behaviorAttack enemy playerState combat distToPlayer fr in
    let phaser :=
      (facingDot >? lit 0.8) && (distToPlayer <? PHASER_RANGE)
      && (phaserCooldown enemy <=? lit 0) in
    let torpedo :=
      (facingDot >? lit 0.9) && (distToPlayer <? ATTACK_RANGE)
      && (torpedoCooldown enemy <=? lit 0) in
    behavior (fst r) = behavior enemy
    /\ alertTimer (fst r) = alertTimer enemy
    /\ phaserFiring (fst r) = phaser || phaserFiring enemy
    /\ torpedoJustFired (fst r) = torpedo || torpedoJustFired enemy
    /\ torpedoCooldown (fst r)
       = (if torpedo then TORPEDO_COOLDOWN else torpedoCooldown enemy)
    /\ phaserCooldown (fst r)
       = (if phaser && (Math_random fr <? delta fr * lit 0.8)
          then PHASER_COOLDOWN else phaserCooldown enemy)
    /\ playerHealth (snd r)
       = (let h := playerHealth combat in
          let h := if phaser then applyDamage h (PHASER_BURST_DPS * delta fr) else h in
          if torpedo then applyDamage h TORPEDO_DAMAGE else h)
    /\ enemyHealth (snd r) = enemyHealth combat
    /\ gameOver (snd r) = gameOver combat.
Proof.
  intros Hhull. unfold behaviorAttack. rewrite Hhull.
  pose proof (turnToward_keeps behavior enemy (GameState.position playerState)
                (delta fr) ltac:(reflexivity)) as Kb.
  pose proof (turnToward_keeps alertTimer enemy (GameState.position playerState)
                (delta fr) ltac:(reflexivity)) as Ka.
  pose proof (turnToward_keeps phaserFiring enemy (GameState.position playerState)
                (delta fr) ltac:(reflexivity)) as Kf.
  pose proof (turnToward_keeps torpedoJustFired enemy (GameState.position playerState)
                (delta fr) ltac:(reflexivity)) as Kj.
  pose proof (turnToward_keeps torpedoCooldown enemy (GameState.position playerState)
                (delta fr) ltac:(reflexivity)) as Kt.
  pose proof (turnToward_keeps phaserCooldown enemy (GameState.position playerState)
                (delta fr) ltac:(reflexivity)) as Kp.
  destruct (turnToward enemy (GameState.position playerState) (delta fr))
    as [turned scratch].
  cbn [fst] in Kb, Ka, Kf, Kj, Kt, Kp. cbv zeta.
  match goal with
  | |- context [dot ?a ?b >? lit 0.8] => exists (dot a b)
  end.
  assert (Hq : forall v, quaternion (set_speed turned v) = quaternion turned)
    by reflexivity.
  destruct (phaserCooldown enemy <=? lit 0) eqn:Ep;
    destruct (torpedoCooldown enemy <=? lit 0) eqn:Et;
    destruct (Math_random fr <? delta fr * lit 0.8) eqn:Er;
    (destruct (distToPlayer >? ATTACK_RANGE);
     [| destruct (distToPlayer <? ATTACK_RANGE * lit 0.4)]);
    rewrite Hq;
    destruct (dot _ _ >? lit 0.8); destruct (dot _ _ >? lit 0.9);
    destruct (distToPlayer <? PHASER_RANGE);
    destruct (distToPlayer <? ATTACK_RANGE);
    do 4 (cbn [andb orb]; enemy_simpl; rewrite ?Kp, ?Kt, ?Ep, ?Et, ?Er);
    unfold applyEnemyDamageToPlayer; enemy_simpl;
    rewrite ?Kb, ?Ka, ?Kf, ?Kj, ?Kt, ?Kp; repeat split; reflexivity.
Qed.

(** The [evasive] case. *)
Lemma behaviorEvasive_fields (enemy : EnemyShip N) (playerState : GameState.t N)
    (combat : CombatState N) (distToPlayer : N) (fr : Frame N) :
  exists evDot : N,
    let r := behaviorEvasive enemy playerState combat distToPlayer fr in
    let phaser :=
      (evDot >? lit 0.7) && (distToPlayer <? PHASER_RANGE)
      && (phaserCooldown enemy <=? lit 0) in
    behavior (fst r)
    = (if (hull (enemyHealth combat) >? EVASIVE_HULL_THRESHOLD + lit 10)
          || (distToPlayer >? DETECTION_RANGE)
       then attack else behavior enemy)
    /\ alertTimer (fst r) = alertTimer enemy
    /\ phaserFiring (fst r) = phaser || phaserFiring enemy
    /\ torpedoJustFired (fst r) = torpedoJustFired enemy
    /\ torpedoCooldown (fst r) = torpedoCooldown enemy
    /\ phaserCooldown (fst r)
       = (if phaser && (Math_random fr <? delta fr * lit 0.5)
          then PHASER_COOLDOWN * lit 1.5 else phaserCooldown enemy)
    /\ playerHealth (snd r)
       = (if phaser
          then applyDamage (playerHealth combat)
                 (PHASER_BURST_DPS * delta fr * lit 0.5)
          else playerHealth combat)
    /\ enemyHealth (snd r) = enemyHealth combat
    /\ gameOver (snd r) = gameOver combat.
Proof.
  unfold behaviorEvasive. cbv zeta.
  match goal with
  | |- context [turnToward enemy ?t ?d] =>
      pose proof (turnToward_keeps behavior enemy t d ltac:(reflexivity)) as Kb;
      pose proof (turnToward_keeps alertTimer enemy t d ltac:(reflexivity)) as Ka;
      pose proof (turnToward_keeps phaserFiring enemy t d ltac:(reflexivity)) as Kf;
      pose proof (turnToward_keeps torpedoJustFired enemy t d ltac:(reflexivity)) as Kj;
      pose proof (turnToward_keeps torpedoCooldown enemy t d ltac:(reflexivity)) as Kt;
      pose proof (turnToward_keeps phaserCooldown enemy t d ltac:(reflexivity)) as Kp;
      destruct (turnToward enemy t d) as [turned scratch]
  end.
  cbn [fst] in Kb, Ka, Kf, Kj, Kt, Kp.
  match goal with
  | |- context [dot ?a ?b >? lit 0.7] => exists (dot a b)
  end.
  enemy_simpl. rewrite Kp.
  destruct (phaserCooldown enemy <=? lit 0) eqn:Ep;
    destruct (Math_random fr <? delta fr * lit 0.5) eqn:Er;
    destruct (dot _ _ >? lit 0.7);
    destruct (distToPlayer <? PHASER_RANGE);
    do 2 (cbn [andb orb]; enemy_simpl; rewrite ?Kp, ?Ep, ?Er);
    unfold applyEnemyDamageToPlayer; enemy_simpl;
    destruct ((hull (enemyHealth combat) >? EVASIVE_HULL_THRESHOLD + lit 10)
              || (distToPlayer >? DETECTION_RANGE));
    enemy_simpl; rewrite ?Kb, ?Ka, ?Kf, ?Kj, ?Kt, ?Kp; repeat split; reflexivity.
Qed.

(** The [alert] case. *)
Lemma behaviorAlert_fields (enemy : EnemyShip N) (playerState : GameState.t N)
    (combat : CombatState N) (delta : N) :
  let r := behaviorAlert enemy playerState combat delta in
  behavior (fst r)
  = (if alertTimer enemy - delta <=? lit 0 then attack else behavior enemy)
  /\ alertTimer (fst r) = alertTimer enemy - delta
  /\ phaserFiring (fst r) = phaserFiring enemy
  /\ torpedoJustFired (fst r) = torpedoJustFired enemy
  /\ torpedoCooldown (fst r) = torpedoCooldown enemy
  /\ phaserCooldown (fst r) = phaserCooldown enemy
  /\ playerHealth (snd r) = playerHealth combat
  /\ enemyHealth (snd r) = set_shieldsUp (enemyHealth combat) true
  /\ gameOver (snd r) = gameOver combat.
Proof.
  unfold behaviorAlert. cbv zeta.
  match goal with
  | |- context [turnToward enemy ?t ?d] =>
      pose proof (turnToward_keeps behavior enemy t d ltac:(reflexivity)) as Kb;
      pose proof (turnToward_keeps alertTimer enemy t d ltac:(reflexivity)) as Ka;
      pose proof (turnToward_keeps phaserFiring enemy t d ltac:(reflexivity)) as Kf;
      pose proof (turnToward_keeps torpedoJustFired enemy t d ltac:(reflexivity)) as Kj;
      pose proof (turnToward_keeps torpedoCooldown enemy t d ltac:(reflexivity)) as Kt;
      pose proof (turnToward_keeps phaserCooldown enemy t d ltac:(reflexivity)) as Kp;
      destruct (turnToward enemy t d) as [turned scratch]
  end.
  cbn [fst] in Kb, Ka, Kf, Kj, Kt, Kp. enemy_simpl. rewrite Ka.
  destruct (alertTimer enemy - delta <=? lit 0); enemy_simpl;
    rewrite ?Kb, ?Ka, ?Kf, ?Kj, ?Kt, ?Kp; repeat split; reflexivity.
Qed.

(** The [idle] case. *)
Lemma behaviorIdle_fields (enemy : EnemyShip N) (distToPlayer delta : N) :
  let enemy' := behaviorIdle enemy distToPlayer delta in
  behavior enemy'
  = (if distToPlayer <? DETECTION_RANGE then alert else behavior enemy)
  /\ alertTimer enemy'
     = (if distToPlayer <? DETECTION_RANGE then lit 2.0 else alertTimer enemy)
  /\ phaserFiring enemy' = phaserFiring enemy
  /\ torpedoJustFired enemy' = torpedoJustFired enemy
  /\ torpedoCooldown enemy' = torpedoCooldown enemy
  /\ phaserCooldown enemy' = phaserCooldown enemy
  /\ speed enemy' = lit 0.
Proof.
  unfold behaviorIdle. cbv zeta.
  destruct (distToPlayer <? DETECTION_RANGE); enemy_simpl;
    repeat split; reflexivity.
Qed.

(** The tail of [updateEnemyAI], the move and the beam visual, keeps every
    field but the position and the beam's. *)
Lemma enemy_tail_keeps {A : Type} (f : EnemyShip N -> A)
    (enemy : EnemyShip N) (delta : N) :
  (forall e v, f (set_position e v) = f e) ->
  (forall e v, f (set_phaserBeam e v) = f e) ->
  (forall e v, f (set_phaserBeamAge e v) = f e) ->
  f (updateEnemyPhaserBeam
       (if speed enemy >? lit 0
        then set_position enemy
               (addScaledVector (position enemy)
                  (applyQuaternion (mkVector3 (lit 0) (lit 0) (lit (-1)))
                                   (quaternion enemy))
                  (speed enemy * delta))
        else enemy) delta)
  = f enemy.
Proof.
  intros Hp Hb Ha. rewrite updateEnemyPhaserBeam_keeps by assumption.
  destruct (speed enemy >? lit 0); [apply Hp | reflexivity].
Qed.

(** One frame of a live enemy: the behaviour it moves to, what it fires,
    its cooldowns, and what it does to the combat state. *)
Lemma updateEnemyAI_fields (enemy : EnemyShip N) (playerState : GameState.t N)
    (combat : CombatState N) (fr : Frame N) :
  isDestroyed (enemyHealth combat) = false ->
  exists facingDot : N,
    let r := updateEnemyAI enemy playerState combat fr in
    let dist :=
      vec_length (subVectors (GameState.position playerState) (position enemy)) in
    let pc := Math_max (lit 0) (phaserCooldown enemy - delta fr) in
    let tc := Math_max (lit 0) (torpedoCooldown enemy - delta fr) in
    let enemyHull := hull (enemyHealth combat) in
    let phaser :=
      match behavior enemy with
      | attack =>
          negb (enemyHull <? EVASIVE_HULL_THRESHOLD)
          && ((facingDot >? lit 0.8) && (dist <? PHASER_RANGE) && (pc <=? lit 0))
      | evasive => (facingDot >? lit 0.7) && (dist <? PHASER_RANGE) && (pc <=? lit 0)
      | _ => false
      end in
    let torpedo :=
      match behavior enemy with
      | attack =>
          negb (enemyHull <? EVASIVE_HULL_THRESHOLD)
          && ((facingDot >? lit 0.9) && (dist <? ATTACK_RANGE) && (tc <=? lit 0))
      | _ => false
      end in
    behavior (fst r)
    = match behavior enemy with
      | idle => if dist <? DETECTION_RANGE then alert else idle
      | alert => if alertTimer enemy - delta fr <=? lit 0 then attack else alert
      | attack => if enemyHull <? EVASIVE_HULL_THRESHOLD then evasive else attack
      | evasive =>
          if (enemyHull >? EVASIVE_HULL_THRESHOLD + lit 10)
             || (dist >? DETECTION_RANGE)
          then attack else evasive
      end
    /\ phaserFiring (fst r) = phaser
    /\ torpedoJustFired (fst r) = torpedo
    /\ torpedoCooldown (fst r) = (if torpedo then TORPEDO_COOLDOWN else tc)
    /\ phaserCooldown (fst r)
       = (if phaser
             && (Math_random fr
                 <? delta fr * match behavior enemy with
                               | evasive => lit 0.5
                               | _ => lit 0.8
                               end)
          then match behavior enemy with
               | evasive => PHASER_COOLDOWN * lit 1.5
               | _ => PHASER_COOLDOWN
               end
          else pc)
    /\ playerHealth (snd r)
       = (let h := playerHealth combat in
          let h :=
            if phaser
            then applyDamage h
                   match behavior enemy with
                   | evasive => PHASER_BURST_DPS * delta fr * lit 0.5
                   | _ => PHASER_BURST_DPS * delta fr
                   end
            else h in
          if torpedo then applyDamage h TORPEDO_DAMAGE else h)
    /\ enemyHealth (snd r)
       = match behavior enemy with
         | alert => set_shieldsUp (enemyHealth combat) true
         | _ => enemyHealth combat
         end
    /\ gameOver (snd r) = gameOver combat.
Proof.
  intros Hd. unfold updateEnemyAI. rewrite Hd. cbv zeta. enemy_simpl.
  set (dist := vec_length (subVectors (GameState.position playerState)
                                      (position enemy))).
  set (pc := Math_max (lit 0) (phaserCooldown enemy - delta fr)).
  set (tc := Math_max (lit 0) (torpedoCooldown enemy - delta fr)).
  set (enemy0 :=
         set_torpedoCooldown
           (set_phaserCooldown
              (set_torpedoJustFired (set_phaserFiring enemy false) false) pc) tc).
  destruct (behavior enemy) eqn:Hb.
  - exists (lit 0).
    destruct (behaviorIdle_fields enemy0 dist (delta fr))
      as (Fb & _ & Ff & Fj & Ft & Fp & _). cbv zeta in *.
    cbn [fst snd].
    rewrite !enemy_tail_keeps by reflexivity.
    rewrite Fb, Ff, Fj, Ft, Fp. subst enemy0. enemy_simpl. rewrite Hb.
    cbn [andb]. repeat split; reflexivity.
  - exists (lit 0).
    destruct (behaviorAlert_fields enemy0 playerState combat (delta fr))
      as (Fb & _ & Ff & Fj & Ft & Fp & Fh & Fe & Fg). cbv zeta in *.
    destruct (behaviorAlert enemy0 playerState combat (delta fr)) as [e1 c1].
    cbn [fst snd] in *.
    rewrite !enemy_tail_keeps by reflexivity.
    rewrite Fb, Ff, Fj, Ft, Fp, Fh, Fe, Fg. subst enemy0. enemy_simpl.
    rewrite Hb. cbn [andb]. repeat split; reflexivity.
  - destruct (hull (enemyHealth combat) <? EVASIVE_HULL_THRESHOLD) eqn:Hh.
    + exists (lit 0). unfold behaviorAttack. rewrite Hh. cbn [fst snd].
      rewrite !enemy_tail_keeps by reflexivity.
      subst enemy0. enemy_simpl. cbn [negb andb]. repeat split; reflexivity.
    + destruct (behaviorAttack_fields enemy0 playerState combat dist fr Hh)
        as (facingDot & Fb & _ & Ff & Fj & Ft & Fp & Fh & Fe & Fg).
      exists facingDot. cbv zeta in *.
      destruct (behaviorAttack enemy0 playerState combat dist fr) as [e1 c1].
      cbn [fst snd] in *.
      rewrite !enemy_tail_keeps by reflexivity.
      rewrite Fb, Ff, Fj, Ft, Fp, Fh, Fe, Fg. subst enemy0. enemy_simpl.
      rewrite Hb, !orb_false_r. cbn [negb andb]. repeat split; reflexivity.
  - destruct (behaviorEvasive_fields enemy0 playerState combat dist fr)
      as (evDot & Fb & _ & Ff & Fj & Ft & Fp & Fh & Fe & Fg).
    exists evDot. cbv zeta in *.
    destruct (behaviorEvasive enemy0 playerState combat dist fr) as [e1 c1].
    cbn [fst snd] in *.
    rewrite !enemy_tail_keeps by reflexivity.
    rewrite Fb, Ff, Fj, Ft, Fp, Fh, Fe, Fg. subst enemy0. enemy_simpl.
    rewrite Hb, !orb_false_r. repeat split; reflexivity.
Qed.

End EnemyAIFields.

Import EnemyAI EnemyTrace.

(** X14. The behaviour machine of [updateEnemyAI] as a transition
    function.  A destroyed enemy keeps its behaviour.  A live one goes
    from idle to alert when the player is closer than 500, from alert to
    attack when the alert timer minus the frame time is at or below 0,
    from attack to evasive when its hull is below 30, and from evasive
    back to attack when its hull is above 40 or the player is farther than
    500; otherwise it stays.  So attack and evasive never lead back to
    idle or alert. *)
Theorem enemy_behavior_transitions :
  forall (N : Type) (HN : Number N) (T : Three N) (enemy : EnemyShip N)
         (playerState : GameState.t N) (combat : CombatState N) (fr : Frame N),
    let dist :=
      vec_length (subVectors (GameState.position playerState) (position enemy)) in
    let enemyHull := hull (enemyHealth combat) in
    behavior (fst (updateEnemyAI enemy playerState combat fr))
    = if isDestroyed (enemyHealth combat) then behavior enemy
      else match behavior enemy with
           | idle => if (dist <? lit 500)%js then alert else idle
           | alert =>
               if (alertTimer enemy - delta fr <=? lit 0)%js then attack else alert
           | attack => if (enemyHull <? lit 30)%js then evasive else attack
           | evasive =>
               if ((enemyHull >? lit 30 + lit 10) || (dist >? lit 500))%js
               then attack else evasive
           end.
Proof.
  intros N HN T enemy playerState combat fr. cbv zeta.
  destruct (isDestroyed (enemyHealth combat)) eqn:Hd.
  - apply updateEnemyAI_destroyed. exact Hd.
  - destruct (updateEnemyAI_fields enemy playerState combat fr Hd)
      as (facingDot & Fb & _).
    exact Fb.
Qed.

(** X15. The enemy's fire and its flags agree.  After a frame of a live
    enemy, the player's health record is the old one hit by the phaser
    burst ([6 * delta], halved when the enemy entered the frame evasive)
    if [phaserFiring] is set, then by the 15-point torpedo if
    [torpedoJustFired] is set, and untouched when neither is.  Idle and
    alert enemies set neither flag, an evasive one launches no torpedo,
    and only an alert enemy writes the enemy's record: it raises its
    shields.  The outcome flag is not written. *)
Theorem enemy_fire_matches_flags :
  forall (N : Type) (HN : Number N) (T : Three N) (enemy : EnemyShip N)
         (playerState : GameState.t N) (combat : CombatState N) (fr : Frame N),
    isDestroyed (enemyHealth combat) = false ->
    let enemy' := fst (updateEnemyAI enemy playerState combat fr) in
    let combat' := snd (updateEnemyAI enemy playerState combat fr) in
    let burst :=
      match behavior enemy with
      | evasive => (lit 6 * delta fr * lit 0.5)%js
      | _ => (lit 6 * delta fr)%js
      end in
    let afterPhasers :=
      if phaserFiring enemy' then applyDamage (playerHealth combat) burst
      else playerHealth combat in
    playerHealth combat'
    = (if torpedoJustFired enemy' then applyDamage afterPhasers (lit 15)
       else afterPhasers)
    /\ enemyHealth combat'
       = match behavior enemy with
         | alert => set_shieldsUp (enemyHealth combat) true
         | _ => enemyHealth combat
         end
    /\ gameOver combat' = gameOver combat
    /\ (behavior enemy = idle \/ behavior enemy = alert ->
        phaserFiring enemy' = false /\ torpedoJustFired enemy' = false)
    /\ (behavior enemy = evasive -> torpedoJustFired enemy' = false).
Proof.
  intros N HN T enemy playerState combat fr Hd. cbv zeta.
  destruct (updateEnemyAI_fields enemy playerState combat fr Hd)
    as (facingDot & _ & Ff & Fj & _ & _ & Fh & Fe & Fg).
  cbv zeta in *. rewrite Fh, Fe, Fg, Ff, Fj.
  unfold PHASER_BURST_DPS, TORPEDO_DAMAGE.
  repeat split; intros;
    repeat match goal with
    | Hx : _ \/ _ |- _ => destruct Hx
    end;
    destruct (behavior enemy); try discriminate; reflexivity.
Qed.

(** The witness of X15: the idle enemy of a fresh mission leaves the
    player alone. *)
Lemma enemy_fire_matches_flags_witness :
  phaserFiring (fst (updateEnemyAI Scenario.idle_enemy Scenario.player_nearby
                       Scenario.combat_start Scenario.frame60)) = false.
Proof.
  destruct (enemy_fire_matches_flags Q Number_Q RationalThree.Three_Q
              Scenario.idle_enemy Scenario.player_nearby Scenario.combat_start
              Scenario.frame60) as (_ & _ & _ & Hidle & _).
  - reflexivity.
  - apply Hidle. left. reflexivity.
Defined.

(** X16. When the enemy fires.  For a live enemy and exact arithmetic: a
    torpedo is launched only from attack, with the enemy's hull at 30 or
    more, the player closer than 150 and the torpedo cooldown at most the
    frame time, and it sets the cooldown to 5; with the cooldown above the
    frame time no torpedo is launched and the cooldown drops by the frame
    time.  Phasers fire only from attack or evasive, with the player
    closer than 120 and the phaser cooldown at most the frame time.
    Neither cooldown is negative afterwards. *)
Theorem enemy_fires_in_range :
  forall (T : Three Q) (enemy : EnemyShip Q) (playerState : GameState.t Q)
         (combat : CombatState Q) (fr : Frame Q),
    isDestroyed (enemyHealth combat) = false ->
    let enemy' := fst (updateEnemyAI enemy playerState combat fr) in
    let dist :=
      vec_length (subVectors (GameState.position playerState) (position enemy)) in
    (torpedoJustFired enemy' = true ->
     behavior enemy = attack /\ 30 <= hull (enemyHealth combat)
     /\ dist < 150 /\ torpedoCooldown enemy <= delta fr
     /\ torpedoCooldown enemy' == 5)
    /\ (delta fr < torpedoCooldown enemy ->
        torpedoJustFired enemy' = false
        /\ torpedoCooldown enemy' == torpedoCooldown enemy - delta fr)
    /\ (phaserFiring enemy' = true ->
        (behavior enemy = attack \/ behavior enemy = evasive)
        /\ dist < 120 /\ phaserCooldown enemy <= delta fr)
    /\ 0 <= torpedoCooldown enemy' /\ 0 <= phaserCooldown enemy'.
Proof.
  intros T enemy playerState combat fr Hd. cbv zeta.
  destruct (updateEnemyAI_fields enemy playerState combat fr Hd)
    as (facingDot & _ & Ff & Fj & Ft & Fp & _).
  cbv zeta in *. rewrite Ff, Fj, Ft, Fp. clear Ff Fj Ft Fp.
  unfold EVASIVE_HULL_THRESHOLD, PHASER_RANGE, ATTACK_RANGE, TORPEDO_COOLDOWN,
    PHASER_COOLDOWN.
  js_Q.
  set (dist := vec_length (subVectors (GameState.position playerState)
                                      (position enemy))).
  clearbody dist.
  generalize (torpedoCooldown enemy) (phaserCooldown enemy)
             (hull (enemyHealth combat)) (delta fr) (Math_random fr).
  intros tc pc eh d rnd.
  assert (Htc : Qle_bool (Qmaxb 0 (tc - d)) 0 = true -> tc <= d).
  { intros E. unfold Qmaxb in E. destruct (Qle_bool 0 (tc - d)) eqn:E1;
      Q_tests; lra. }
  assert (Hpc : Qle_bool (Qmaxb 0 (pc - d)) 0 = true -> pc <= d).
  { intros E. unfold Qmaxb in E. destruct (Qle_bool 0 (pc - d)) eqn:E1;
      Q_tests; lra. }
  assert (Htn : d < tc -> Qle_bool (Qmaxb 0 (tc - d)) 0 = false
                          /\ Qmaxb 0 (tc - d) == tc - d).
  { intros E. unfold Qmaxb. destruct (Qle_bool 0 (tc - d)) eqn:E1; Q_tests.
    - split; [apply Qle_bool_false; lra | reflexivity].
    - lra. }
  assert (Hnn : forall x, 0 <= Qmaxb 0 x).
  { intros x. unfold Qmaxb. destruct (Qle_bool 0 x) eqn:E1; Q_tests; lra. }
  destruct (behavior enemy);
    repeat match goal with
    | |- context [Qltb ?a ?b] => destruct (Qltb a b) eqn:?
    | |- context [Qle_bool ?a ?b] => destruct (Qle_bool a b) eqn:?
    end;
    cbn [andb negb]; repeat split; intros;
    try discriminate; try (left; reflexivity); try (right; reflexivity);
    try (apply Htc; assumption); try (apply Hpc; assumption);
    try apply Hnn;
    try match goal with
    | Hlt : d < tc |- _ => destruct (Htn Hlt) as [Hf Hv]; try congruence; try exact Hv
    end;
    Q_tests; try reflexivity; try lra.
Qed.

(** The witness of X16: the idle enemy of a fresh mission. *)
Lemma enemy_fires_in_range_witness :
  0 <= torpedoCooldown
         (fst (updateEnemyAI Scenario.idle_enemy Scenario.player_nearby
                 Scenario.combat_start Scenario.frame60)).
Proof.
  destruct (enemy_fires_in_range RationalThree.Three_Q
              Scenario.idle_enemy Scenario.player_nearby Scenario.combat_start
              Scenario.frame60) as (_ & _ & _ & Ht & _).
  - reflexivity.
  - exact Ht.
Defined.

(** X17. A destroyed enemy is inert.  Over any non-empty run of frames,
    whatever their frame times, the enemy record is the one it had when it
    was destroyed with [speed] at 0 and [phaserFiring] off: position,
    behaviour, cooldowns and a [torpedoJustFired] flag left set by its
    last shot all stay as they were; and the combat state is not
    written. *)
Theorem destroyed_enemy_is_inert :
  forall (N : Type) (HN : Number N) (T : Three N) (enemy : EnemyShip N)
         (playerState : GameState.t N) (combat : CombatState N)
         (fr : Frame N) (frames : list (Frame N)),
    isDestroyed (enemyHealth combat) = true ->
    runEnemyAI enemy playerState combat (fr :: frames)
    = (set_phaserFiring (set_speed enemy (lit 0)) false, combat).
Proof.
  intros N HN T enemy playerState combat fr frames Hd.
  revert enemy fr. induction frames as [| fr' frames IH]; intros enemy fr.
  - cbn [runEnemyAI]. unfold updateEnemyAI. rewrite Hd. reflexivity.
  - change (runEnemyAI enemy playerState combat (fr :: fr' :: frames))
      with (let '(e, c) := updateEnemyAI enemy playerState combat fr in
            runEnemyAI e playerState c (fr' :: frames)).
    unfold updateEnemyAI at 1. rewrite Hd. cbv zeta. rewrite IH. reflexivity.
Qed.

(** The witness of X17: two frames of a wrecked enemy. *)
Lemma destroyed_enemy_is_inert_witness :
  snd (runEnemyAI Scenario.idle_enemy Scenario.player_nearby
         Scenario.enemy_wrecked [Scenario.frame60; Scenario.frame20])
  = Scenario.enemy_wrecked.
Proof.
  rewrite (destroyed_enemy_is_inert Q Number_Q RationalThree.Three_Q);
    reflexivity.
Defined.

(** ** EnterpriseGame.vue: the combat block of the game loop *)

Section CombatFrameFacts.
Import GameLoop.
Context {N : Type} `{Number N} `{Three N}.
Local Open Scope js_scope.

(** What [checkPhaserHits] writes: on a hit, one damage call on the
    enemy's record; nothing else. *)
Lemma checkPhaserHits_combat (combat : CombatState N) (playerState : GameState.t N)
    (enemyPosition : Vector3 N) (delta : N) :
  let r := checkPhaserHits combat playerState enemyPosition delta in
  playerHealth (snd r) = playerHealth combat
  /\ gameOver (snd r) = gameOver combat
  /\ enemyHealth (snd r)
     = (if fst r then applyDamage (enemyHealth combat) (PHASER_DPS * delta)
        else enemyHealth combat).
Proof.
  cbv zeta. unfold checkPhaserHits. cbv zeta.
  repeat match goal with
  | |- context [if ?b then (_, _) else _] => destruct b
  end; cbn [fst snd playerHealth enemyHealth gameOver set_enemyHealth];
    repeat split; reflexivity.
Qed.

(** What the torpedo check writes: one 18-point damage call on the enemy's
    record per hit; nothing else. *)
Lemma torpedoHits_combat (combat : CombatState N)
    (torpedoes : list (Effects.PhotonTorpedo N)) (enemyPosition : Vector3 N) :
  let r := torpedoHits combat torpedoes enemyPosition in
  playerHealth (snd r) = playerHealth combat
  /\ gameOver (snd r) = gameOver combat
  /\ exists n : nat,
       (n <= length torpedoes)%nat
       /\ enemyHealth (snd r)
          = Nat.iter n (fun h => applyDamage h (lit 18)) (enemyHealth combat).
Proof.
  cbv zeta.
  destruct (torpedoHits_remaining combat torpedoes enemyPosition) as [_ ->].
  destruct (isDestroyed (enemyHealth combat)) eqn:Hd.
  - unfold checkTorpedoHits. rewrite Hd. cbn [snd].
    repeat split. exists 0%nat. split; [lia | reflexivity].
  - rewrite (checkTorpedoHits_alive _ _ _ Hd). cbv zeta.
    cbn [snd playerHealth enemyHealth gameOver]. repeat split.
    eexists. split; [| reflexivity].
    etrans; [apply filter_length_le |]. rewrite length_seq, length_map.
    reflexivity.
Qed.

(** The block as the chain of its calls.  The removal loop finds every
    index it is given, so the block always runs to its end. *)
Lemma combatFrame_unfold (g : Game N) (fr : EnemyAI.Frame N) :
  isActive (missionPhase g) = true ->
  let c0 := syncPlayerShields (combatState g) (state g) in
  let r1 := EnemyAI.updateEnemyAI (enemy g) (state g) c0 fr in
  let r2 :=
    checkPhaserHits (snd r1) (state g) (EnemyAI.position (fst r1))
                    (EnemyAI.delta fr) in
  let r3 :=
    torpedoHits (snd r2) (WeaponSystem.torpedoes (weaponState g))
                (EnemyAI.position (fst r1)) in
  let c4 := updateCombatTimers (snd r3) (EnemyAI.delta fr) in
  let remaining :=
    if isDestroyed (enemyHealth (snd r2))
    then WeaponSystem.torpedoes (weaponState g)
    else List.filter
           (fun t => negb (distanceTo (Effects.mesh_position t)
                                      (EnemyAI.position (fst r1)) <? lit 12))
           (WeaponSystem.torpedoes (weaponState g)) in
  let shields := shieldStrength (playerHealth c4) in
  combatFrame g fr
  = Some {| state :=
              (let s := GameState.set_shieldStrength (state g) shields in
               if shields <=? lit 0
               then GameState.set_shieldsActive s false else s);
            weaponState :=
              {| WeaponSystem.phaserBeams := WeaponSystem.phaserBeams (weaponState g);
                 WeaponSystem.phaserCores := WeaponSystem.phaserCores (weaponState g);
                 WeaponSystem.torpedoes := remaining;
                 WeaponSystem.phaserCooldown :=
                   WeaponSystem.phaserCooldown (weaponState g) |};
            enemy := fst r1;
            combatState := c4;
            missionPhase :=
              match gameOver c4 with
              | Some victory => phase_victory
              | Some defeat => phase_defeat
              | None => missionPhase g
              end |}.
Proof.
  intros Ha. cbv zeta. unfold combatFrame. rewrite Ha.
  destruct (EnemyAI.updateEnemyAI (enemy g) (state g)
              (syncPlayerShields (combatState g) (state g)) fr) as [e1 c1].
  cbn [fst snd].
  destruct (checkPhaserHits c1 (state g) (EnemyAI.position e1) (EnemyAI.delta fr))
    as [hit c2].
  cbn [fst snd].
  destruct (torpedoHits_remaining c2 (WeaponSystem.torpedoes (weaponState g))
              (EnemyAI.position e1)) as [Hrem _].
  destruct (torpedoHits c2 (WeaponSystem.torpedoes (weaponState g))
              (EnemyAI.position e1)) as [rem c3].
  cbn [fst snd] in *. subst rem.
  destruct (gameOver (updateCombatTimers c3 (EnemyAI.delta fr))) as [[|] |];
    reflexivity.
Qed.

End CombatFrameFacts.

(** X18. The combat block always runs to its end: the removal loop never
    reads a torpedo the array does not have.  Outside an active mission it
    changes nothing.  In an active mission it writes the game state only
    in its two shield fields, which end as a copy of the player's combat
    record, switched off at strength 0 or below; it leaves beams, cores
    and the phaser cooldown alone and either keeps every torpedo or drops
    exactly those closer than 12 units to the enemy; and it leaves the
    mission active exactly while no outcome is recorded. *)
Theorem combatFrame_shape :
  forall (N : Type) (HN : Number N) (T : Three N)
         (g : GameLoop.Game N) (fr : Frame N),
    (GameLoop.isActive (GameLoop.missionPhase g) = false ->
     GameLoop.combatFrame g fr = Some g)
    /\ (GameLoop.isActive (GameLoop.missionPhase g) = true ->
        exists g' : GameLoop.Game N,
          GameLoop.combatFrame g fr = Some g'
          /\ (let shields := shieldStrength (playerHealth (GameLoop.combatState g')) in
              GameLoop.state g'
              = GameState.set_shieldsActive
                  (GameState.set_shieldStrength (GameLoop.state g) shields)
                  (GameState.shieldsActive (GameLoop.state g)
                   && negb (shields <=? lit 0)%js))
          /\ GameLoop.enemy g'
             = fst (updateEnemyAI (GameLoop.enemy g) (GameLoop.state g)
                      (syncPlayerShields (GameLoop.combatState g) (GameLoop.state g))
                      fr)
          /\ WeaponSystem.phaserBeams (GameLoop.weaponState g')
             = WeaponSystem.phaserBeams (GameLoop.weaponState g)
          /\ WeaponSystem.phaserCores (GameLoop.weaponState g')
             = WeaponSystem.phaserCores (GameLoop.weaponState g)
          /\ WeaponSystem.phaserCooldown (GameLoop.weaponState g')
             = WeaponSystem.phaserCooldown (GameLoop.weaponState g)
          /\ (WeaponSystem.torpedoes (GameLoop.weaponState g')
              = WeaponSystem.torpedoes (GameLoop.weaponState g)
              \/ WeaponSystem.torpedoes (GameLoop.weaponState g')
                 = List.filter
                     (fun t => negb (distanceTo (Effects.mesh_position t)
                                       (position (GameLoop.enemy g')) <? lit 12)%js)
                     (WeaponSystem.torpedoes (GameLoop.weaponState g)))
          /\ GameLoop.missionPhase g'
             = match gameOver (GameLoop.combatState g') with
               | Some victory => GameLoop.phase_victory
               | Some defeat => GameLoop.phase_defeat
               | None => GameLoop.phase_active
               end).
Proof.
  intros N HN T g fr. split; intros Ha.
  - unfold GameLoop.combatFrame. rewrite Ha. reflexivity.
  - rewrite (combatFrame_unfold g fr Ha). cbv zeta. eexists. split; [reflexivity |].
    cbn [GameLoop.state GameLoop.enemy GameLoop.weaponState GameLoop.combatState
         GameLoop.missionPhase WeaponSystem.phaserBeams WeaponSystem.phaserCores
         WeaponSystem.phaserCooldown WeaponSystem.torpedoes].
    repeat split.
    + destruct (_ <=? lit 0)%js; destruct (GameLoop.state g); cbn;
        rewrite ?andb_false_r, ?andb_true_r; reflexivity.
    + destruct (isDestroyed _); [left | right]; reflexivity.
    + destruct (GameLoop.missionPhase g); try discriminate.
      reflexivity.
Qed.

(** The witness of X18: the first frame of a mission. *)
Lemma combatFrame_shape_witness :
  GameLoop.combatFrame Scenario.mission_start Scenario.frame60 <> None.
Proof.
  destruct (combatFrame_shape Q Number_Q RationalThree.Three_Q
              Scenario.mission_start Scenario.frame60) as [_ Hactive].
  destruct (Hactive eq_refl) as (g' & Hg & _).
  rewrite Hg. discriminate.
Defined.

(** The enemy AI never writes the outcome. *)
Lemma updateEnemyAI_gameOver {N : Type} `{Number N} `{Three N}
    (enemy : EnemyShip N) (playerState : GameState.t N)
    (combat : CombatState N) (fr : Frame N) :
  gameOver (snd (updateEnemyAI enemy playerState combat fr)) = gameOver combat.
Proof.
  destruct (isDestroyed (enemyHealth combat)) eqn:Hd.
  - destruct (updateEnemyAI_destroyed enemy playerState combat fr Hd) as [_ ->].
    reflexivity.
  - destruct (updateEnemyAI_fields enemy playerState combat fr Hd)
      as (facingDot & F). cbv zeta in F. apply F.
Qed.

(** X19. How a mission ends.  A combat block that starts in an active
    mission with no outcome recorded leaves the mission won exactly when
    the enemy's record is destroyed after it, lost exactly when the
    player's is and the enemy's is not, and active exactly when neither
    is: a frame that destroys both ships is a victory. *)
Theorem combatFrame_outcome :
  forall (N : Type) (HN : Number N) (T : Three N)
         (g : GameLoop.Game N) (fr : Frame N),
    GameLoop.isActive (GameLoop.missionPhase g) = true ->
    gameOver (GameLoop.combatState g) = None ->
    exists g' : GameLoop.Game N,
      GameLoop.combatFrame g fr = Some g'
      /\ (let enemyDown := isDestroyed (enemyHealth (GameLoop.combatState g')) in
          let playerDown := isDestroyed (playerHealth (GameLoop.combatState g')) in
          GameLoop.missionPhase g'
          = if enemyDown then GameLoop.phase_victory
            else if playerDown then GameLoop.phase_defeat
            else GameLoop.phase_active).
Proof.
  intros N HN T g fr Ha Hnone.
  rewrite (combatFrame_unfold g fr Ha). cbv zeta. eexists. split; [reflexivity |].
  cbn [GameLoop.combatState GameLoop.missionPhase].
  match goal with
  | |- context [updateCombatTimers ?c ?d] =>
      destruct (updateCombatTimers_fields c d) as (-> & -> & ->);
      assert (Hg : gameOver c = None)
  end.
  { match goal with
    | |- context [GameLoop.torpedoHits ?c ?ts ?p] =>
        destruct (torpedoHits_combat c ts p) as (_ & -> & _)
    end.
    match goal with
    | |- context [checkPhaserHits ?c ?s ?p ?d] =>
        destruct (checkPhaserHits_combat c s p d) as (_ & -> & _)
    end.
    rewrite updateEnemyAI_gameOver. exact Hnone. }
  rewrite Hg. cbn [isDestroyed set_damageFlash].
  destruct (isDestroyed (enemyHealth _)); [reflexivity |].
  destruct (isDestroyed (playerHealth _)); [reflexivity |].
  destruct (GameLoop.missionPhase g); try discriminate. reflexivity.
Qed.

(** The witness of X19: the first frame of a mission leaves it active. *)
Lemma combatFrame_outcome_witness :
  GameLoop.combatFrame Scenario.mission_start Scenario.frame60 <> None.
Proof.
  destruct (combatFrame_outcome Q Number_Q RationalThree.Three_Q
              Scenario.mission_start Scenario.frame60 eq_refl eq_refl)
    as (g' & Hg & _).
  rewrite Hg. discriminate.
Defined.

(** One hit of at least 0, on any ship: how far hull and shields can
    fall. *)
Lemma applyDamage_floor (health : ShipHealth Q) (rawDamage : Q) :
  0 <= rawDamage ->
  let health' := applyDamage health rawDamage in
  hull health - rawDamage <= hull health'
  /\ shieldStrength health' <= shieldStrength health
  /\ (0 <= shieldStrength health -> 0 <= shieldStrength health').
Proof.
  intros Hr. cbv zeta. unfold applyDamage.
  destruct (isDestroyed health); [repeat split; intros; lra |].
  unfold SHIELD_ABSORPTION. js_Q.
  destruct (shieldsUp health); cbn [andb];
    [destruct (Qltb 0 (shieldStrength health)) eqn:Hs |];
    health_simpl;
    repeat match goal with
    | |- context [if Qle_bool ?a ?b then _ else _] =>
        let E := fresh "E" in destruct (Qle_bool a b) eqn:E; health_simpl
    end; Q_tests; Q_minmax; Q_tests; repeat split; intros; lra.
Qed.

(** A series of hits of at least 0 each. *)
Lemma hits_sound (dmgs : list Q) :
  Forall (fun r => 0 <= r) dmgs ->
  forall health : ShipHealth Q,
    let health' := fold_left applyDamage dmgs health in
    (0 <= hull health /\ (isDestroyed health = true <-> hull health <= 0) ->
     (0 <= hull health' /\ (isDestroyed health' = true <-> hull health' <= 0))
     /\ hull health' <= hull health)
    /\ hull health - fold_right Qplus 0 dmgs <= hull health'
    /\ shieldStrength health' <= shieldStrength health
    /\ (0 <= shieldStrength health -> 0 <= shieldStrength health')
    /\ (isDestroyed health = true -> isDestroyed health' = true).
Proof.
  induction 1 as [| r dmgs Hr Hrs IH]; intros health; cbv zeta.
  - cbn [fold_left fold_right]. repeat split; intros; try tauto; lra.
  - cbn [fold_left fold_right].
    specialize (IH (applyDamage health r)). cbv zeta in IH.
    destruct IH as (I1 & I2 & I3 & I4 & I5).
    destruct (applyDamage_floor health r Hr) as (F1 & F2 & F3).
    cbv zeta in *.
    split; [| repeat split; intros].
    + intros [S1 S2].
      destruct (applyDamage_sound health r Hr S1 S2) as (A1 & A2 & A3 & _).
      destruct (I1 (conj A1 A2)) as [J1 J2]. split; [exact J1 | lra].
    + lra.
    + lra.
    + tauto.
    + apply I5. rewrite applyDamage_destroyed; assumption.
Qed.

Lemma iter_applyDamage_hits (n : nat) (r : Q) (health : ShipHealth Q) :
  Nat.iter n (fun h => applyDamage h r) health
  = fold_left applyDamage (repeat r n) health.
Proof.
  revert health. induction n as [| n IH]; intros health; [reflexivity |].
  rewrite Nat.iter_succ_r, IH. reflexivity.
Qed.

Lemma sum_repeat (r : Q) (n : nat) :
  fold_right Qplus 0 (repeat r n) == r * inject_Z (Z.of_nat n).
Proof.
  induction n as [| n IH].
  - change (inject_Z (Z.of_nat 0)) with 0. cbn [repeat fold_right]. lra.
  - cbn [repeat fold_right]. rewrite IH, Nat2Z.inj_succ.
    unfold Z.succ. rewrite inject_Z_plus. change (inject_Z 1) with 1. ring.
Qed.

(** X20. The combat block only wears ships down.  In an active mission,
    for a frame time [delta >= 0] and two ships whose hull is at least 0
    and that are marked destroyed exactly when it is at 0: after the block
    both ships are still so, a destroyed ship is still destroyed, the
    player's hull has fallen by at most [6 * delta + 15] and the enemy's
    by at most [8 * delta + 18] times the number of torpedoes in flight,
    neither has risen, and the ship's shield strength has not risen and is
    not below 0 if it was not. *)
Theorem combatFrame_wears :
  forall (T : Three Q) (g : GameLoop.Game Q) (fr : Frame Q),
    GameLoop.isActive (GameLoop.missionPhase g) = true ->
    0 <= delta fr ->
    let sound health :=
      0 <= hull health /\ (isDestroyed health = true <-> hull health <= 0) in
    let player := playerHealth (GameLoop.combatState g) in
    let enemyShip := enemyHealth (GameLoop.combatState g) in
    let inFlight :=
      inject_Z (Z.of_nat (length (WeaponSystem.torpedoes (GameLoop.weaponState g)))) in
    sound player -> sound enemyShip ->
    exists g' : GameLoop.Game Q,
      GameLoop.combatFrame g fr = Some g'
      /\ (let player' := playerHealth (GameLoop.combatState g') in
          let enemyShip' := enemyHealth (GameLoop.combatState g') in
          sound player' /\ sound enemyShip'
          /\ (hull player - (6 * delta fr + 15) <= hull player'
              /\ hull player' <= hull player)
          /\ (hull enemyShip - (8 * delta fr + 18 * inFlight) <= hull enemyShip'
              /\ hull enemyShip' <= hull enemyShip)
          /\ (isDestroyed player = true -> isDestroyed player' = true)
          /\ (isDestroyed enemyShip = true -> isDestroyed enemyShip' = true)
          /\ GameState.shieldStrength (GameLoop.state g')
             <= GameState.shieldStrength (GameLoop.state g)
          /\ (0 <= GameState.shieldStrength (GameLoop.state g) ->
              0 <= GameState.shieldStrength (GameLoop.state g'))).
Proof.
  intros T g fr Ha Hd. cbv zeta. intros Sp Se.
  rewrite (combatFrame_unfold g fr Ha). cbv zeta. eexists. split; [reflexivity |].
  cbn [GameLoop.combatState GameLoop.state].
  set (c0 := syncPlayerShields (GameLoop.combatState g) (GameLoop.state g)).
  set (r1 := updateEnemyAI (GameLoop.enemy g) (GameLoop.state g) c0 fr).
  set (r2 := checkPhaserHits (snd r1) (GameLoop.state g) (position (fst r1))
               (delta fr)).
  set (r3 := GameLoop.torpedoHits (snd r2)
               (WeaponSystem.torpedoes (GameLoop.weaponState g))
               (position (fst r1))).
  destruct (updateCombatTimers_fields (snd r3) (delta fr)) as (Ep4 & Ee4 & _).
  cbv zeta in Ep4, Ee4.
  destruct (torpedoHits_combat (snd r2)
              (WeaponSystem.torpedoes (GameLoop.weaponState g))
              (position (fst r1))) as (Ep3 & _ & n & Hn & Ee3).
  fold r3 in Ep3, Ee3.
  destruct (checkPhaserHits_combat (snd r1) (GameLoop.state g)
              (position (fst r1)) (delta fr)) as (Ep2 & _ & Ee2).
  cbv zeta in Ep2, Ee2. fold r2 in Ep2, Ee2.
  (* the player's record: at most a phaser burst and a torpedo *)
  assert (Hp : exists dmgs,
             Forall (fun r => 0 <= r) dmgs
             /\ fold_right Qplus 0 dmgs <= 6 * delta fr + 15
             /\ playerHealth (snd r1) = fold_left applyDamage dmgs (playerHealth c0)).
  { destruct (isDestroyed (enemyHealth c0)) eqn:Hdead.
    - exists []. split; [constructor |]. split; [cbn; lra |].
      subst r1.
      destruct (updateEnemyAI_destroyed (GameLoop.enemy g) (GameLoop.state g)
                  c0 fr Hdead) as [_ ->].
      reflexivity.
    - destruct (updateEnemyAI_fields (GameLoop.enemy g) (GameLoop.state g)
                  c0 fr Hdead) as (facingDot & _ & _ & _ & _ & _ & Fh & _).
      cbv zeta in Fh. fold r1 in Fh. rewrite Fh.
      unfold PHASER_BURST_DPS, TORPEDO_DAMAGE. js_Q.
      match goal with
      | |- context [if ?t then applyDamage (if ?p then _ else _) _ else _] =>
          destruct p; destruct t
      end;
        [ exists [match behavior (GameLoop.enemy g) with
                  | evasive => 6 * delta fr * 0.5
                  | _ => 6 * delta fr
                  end; 15]
        | exists [match behavior (GameLoop.enemy g) with
                  | evasive => 6 * delta fr * 0.5
                  | _ => 6 * delta fr
                  end]
        | exists [15]
        | exists [] ];
        (split; [repeat constructor; destruct (behavior (GameLoop.enemy g)); lra |]);
        (split; [cbn [fold_right]; destruct (behavior (GameLoop.enemy g)); lra
                | reflexivity]). }
  destruct Hp as (pd & Hpd & Hps & Hph).
  destruct (hits_sound pd Hpd (playerHealth c0)) as (P1 & P2 & P3 & P4 & P5).
  cbv zeta in *. rewrite <- Hph in *.
  (* the enemy's record: at most the player's phasers and every torpedo *)
  assert (He : exists dmgs,
             Forall (fun r => 0 <= r) dmgs
             /\ fold_right Qplus 0 dmgs
                <= 8 * delta fr
                   + 18 * inject_Z (Z.of_nat
                            (length (WeaponSystem.torpedoes (GameLoop.weaponState g))))
             /\ enemyHealth (snd r3)
                = fold_left applyDamage dmgs (enemyHealth (snd r1))).
  { assert (Hq : inject_Z (Z.of_nat n)
                 <= inject_Z (Z.of_nat
                      (length (WeaponSystem.torpedoes (GameLoop.weaponState g))))).
    { rewrite <- Zle_Qle. lia. }
    rewrite Ee3, Ee2, iter_applyDamage_hits. unfold PHASER_DPS. js_Q.
    destruct (fst r2).
    - exists ((8 * delta fr) :: repeat 18 n).
      split; [constructor; [lra | apply Forall_forall; intros x Hx;
                                  apply list_elem_of_In, repeat_spec in Hx;
                                  subst x; lra] |].
      split; [cbn [fold_right]; rewrite sum_repeat; lra | reflexivity].
    - exists (repeat 18 n).
      split; [apply Forall_forall; intros x Hx;
              apply list_elem_of_In, repeat_spec in Hx; subst x; lra |].
      split; [rewrite sum_repeat; lra | reflexivity]. }
  destruct He as (ed & Hed & Hes & Heh).
  destruct (hits_sound ed Hed (enemyHealth (snd r1))) as (E1 & E2 & E3 & E4 & E5).
  cbv zeta in *. rewrite <- Heh in *.
  (* what the enemy AI does to its own record, and the shield sync *)
  assert (Hown : hull (enemyHealth (snd r1)) = hull (enemyHealth (GameLoop.combatState g))
                 /\ isDestroyed (enemyHealth (snd r1))
                    = isDestroyed (enemyHealth (GameLoop.combatState g))).
  { destruct (isDestroyed (enemyHealth c0)) eqn:Hdead.
    - subst r1.
      destruct (updateEnemyAI_destroyed (GameLoop.enemy g) (GameLoop.state g)
                  c0 fr Hdead) as [_ ->].
      split; reflexivity.
    - destruct (updateEnemyAI_fields (GameLoop.enemy g) (GameLoop.state g)
                  c0 fr Hdead) as (facingDot & _ & _ & _ & _ & _ & _ & Fe & _).
      cbv zeta in Fe. fold r1 in Fe. rewrite Fe.
      destruct (behavior (GameLoop.enemy g)); split; reflexivity. }
  destruct Hown as [Hoh Hod]. rewrite Hoh, Hod in *.
  assert (Hsync : hull (playerHealth c0) = hull (playerHealth (GameLoop.combatState g))
                  /\ isDestroyed (playerHealth c0)
                     = isDestroyed (playerHealth (GameLoop.combatState g))
                  /\ shieldStrength (playerHealth c0)
                     = GameState.shieldStrength (GameLoop.state g))
    by (repeat split; reflexivity).
  destruct Hsync as (Hsh & Hsd & Hss). rewrite Hsh, Hsd, Hss in *.
  rewrite Ep4, Ee4, Ep3, Ep2.
  cbn [hull isDestroyed shieldStrength set_damageFlash].
  destruct (P1 Sp) as [Q1 Q2]. destruct (E1 Se) as [Q3 Q4].
  assert (Hstate : forall s : GameState.t Q,
             GameState.shieldStrength
               (let s' := GameState.set_shieldStrength s
                            (shieldStrength (playerHealth (snd r1))) in
                if Qle_bool (shieldStrength (playerHealth (snd r1))) 0
                then GameState.set_shieldsActive s' false else s')
             = shieldStrength (playerHealth (snd r1))).
  { intros s. cbv zeta. destruct (Qle_bool _ 0); reflexivity. }
  js_Q. rewrite Hstate.
  repeat split; try tauto; try lra.
Qed.

(** The witness of X20: the first frame of a mission. *)
Lemma combatFrame_wears_witness :
  GameLoop.combatFrame Scenario.mission_start Scenario.frame60 <> None.
Proof.
  destruct (combatFrame_wears RationalThree.Three_Q
              Scenario.mission_start Scenario.frame60) as (g' & Hg & _).
  - reflexivity.
  - vm_compute. discriminate.
  - split; [vm_compute; discriminate |].
    split; [discriminate | intros Hc; exfalso; revert Hc; vm_compute; auto].
  - split; [vm_compute; discriminate |].
    split; [discriminate | intros Hc; exfalso; revert Hc; vm_compute; auto].
  - rewrite Hg. discriminate.
Defined.

(** ** weapon-system.ts: phasers and projectiles in [updateWeapons] *)

Section WeaponSystemFields.
Import Effects WeaponSystem.
Context {N : Type} `{Number N} `{Three N}.
Local Open Scope js_scope.

(** The phaser block in closed form. *)
Lemma firePhasers_fields (ws : WeaponSystemState N) (gameState : GameState.t N)
    (delta : N) :
  let cooldown := Math_max (lit 0) (phaserCooldown ws - delta) in
  let spawn :=
    GameState.phaserFiring gameState
    && (GameState.phaserCharge gameState >? lit 5)
    && (cooldown <=? lit 0) in
  let drained :=
    Math_max (lit 0) (GameState.phaserCharge gameState - PHASER_DRAIN_RATE * delta) in
  let r := firePhasers ws gameState delta in
  phaserCooldown (fst r) = (if spawn then PHASER_COOLDOWN else cooldown)
  /\ length (phaserBeams (fst r))
     = (length (phaserBeams ws) + if spawn then 1 else 0)%nat
  /\ length (phaserCores (fst r))
     = (length (phaserCores ws) + if spawn then 1 else 0)%nat
  /\ GameState.phaserCharge (snd r)
     = (if GameState.phaserFiring gameState then drained
        else GameState.phaserCharge gameState)
  /\ GameState.phaserFiring (snd r)
     = GameState.phaserFiring gameState && negb (drained <=? lit 0).
Proof.
  cbv zeta. unfold firePhasers. cbv zeta.
  destruct (GameState.phaserFiring gameState) eqn:Hf; cbn [andb];
    [destruct (GameState.phaserCharge gameState >? lit 5); cbn [andb];
     [destruct (Math_max (lit 0) (phaserCooldown ws - delta) <=? lit 0) |] |];
    cbn [fst snd phaserCooldown phaserBeams phaserCores]; gs_simpl;
    try destruct (Math_max (lit 0) (GameState.phaserCharge gameState
                                    - PHASER_DRAIN_RATE * delta) <=? lit 0);
    gs_simpl; rewrite ?length_app; cbn [length negb];
    rewrite ?Hf, ?Nat.add_0_r; repeat split; reflexivity.
Qed.

(** What [updateWeapons] returns of the phasers is what the phaser block
    left; the torpedo block and the ageing loops do not write it. *)
Lemma updateWeapons_phaser_fields (ws : WeaponSystemState N)
    (gameState : GameState.t N) (delta : N) :
  let r := updateWeapons ws gameState delta in
  let p := firePhasers ws gameState delta in
  phaserCooldown (fst r) = phaserCooldown (fst p)
  /\ GameState.phaserCharge (snd r) = GameState.phaserCharge (snd p)
  /\ GameState.phaserFiring (snd r) = GameState.phaserFiring (snd p)
  /\ phaserBeams (fst r) = ageBeams (phaserBeams (fst p)) delta.
Proof.
  cbv zeta. unfold updateWeapons.
  destruct (firePhasers ws gameState delta) as [ws1 gs1]. cbn [fst snd].
  unfold fireTorpedo.
  destruct (GameState.torpedoFiring gs1 && (GameState.torpedoCount gs1 >? lit 0));
    cbn [fst snd phaserCooldown phaserBeams]; gs_simpl; repeat split; reflexivity.
Qed.

End WeaponSystemFields.

(** Running the torpedo ageing loop over a list of frame times. *)
Lemma ageTorpedoes_nil {N : Type} `{Number N} `{Three N} (deltas : list N) :
  fold_left WeaponSystem.ageTorpedoes deltas [] = [].
Proof. induction deltas as [| d deltas IH]; [reflexivity | exact IH]. Qed.

Import Effects WeaponSystem.

(** X21. Phasers in [updateWeapons], for a frame time [delta >= 0].  A
    beam (with its core) is spawned only while the phaser intent is set,
    the charge is above 5 and the cooldown is at most [delta]; a spawn
    sets the cooldown to 0.15, and without one the cooldown runs down by
    [delta] to no less than 0.  The charge is untouched while the intent
    is off and otherwise drops by [35 * delta] to no less than 0; the
    intent is never switched on, and stays on only with charge left. *)
Theorem updateWeapons_phasers :
  forall (T : Three Q) (ws : WeaponSystemState Q) (gameState : GameState.t Q)
         (delta : Q),
    0 <= delta ->
    let ws' := fst (firePhasers ws gameState delta) in
    let after := updateWeapons ws gameState delta in
    let spawned := (length (phaserBeams ws) <? length (phaserBeams ws'))%nat in
    (spawned = true ->
     GameState.phaserFiring gameState = true
     /\ 5 < GameState.phaserCharge gameState
     /\ phaserCooldown ws <= delta
     /\ phaserCooldown (fst after) == 0.15)
    /\ (spawned = false ->
        phaserBeams ws' = phaserBeams ws
        /\ phaserCooldown (fst after) == Qmax 0 (phaserCooldown ws - delta))
    /\ (GameState.phaserFiring gameState = false ->
        spawned = false
        /\ GameState.phaserCharge (snd after) = GameState.phaserCharge gameState
        /\ GameState.phaserFiring (snd after) = false)
    /\ (GameState.phaserFiring gameState = true ->
        GameState.phaserCharge (snd after)
        == Qmax 0 (GameState.phaserCharge gameState - 35 * delta))
    /\ (GameState.phaserFiring (snd after) = true ->
        GameState.phaserFiring gameState = true
        /\ 0 < GameState.phaserCharge (snd after)).
Proof.
  intros T ws gameState delta Hd. cbv zeta.
  destruct (updateWeapons_phaser_fields ws gameState delta) as (-> & -> & -> & _).
  destruct (firePhasers_fields ws gameState delta) as (Fc & Fb & _ & Fh & Ff).
  cbv zeta in *. rewrite Fc, Fh, Ff, Fb. clear Fc Fh Ff.
  unfold PHASER_COOLDOWN, PHASER_DRAIN_RATE in *. js_Q.
  assert (Hsame : phaserBeams (fst (firePhasers ws gameState delta))
                  = phaserBeams ws
                  \/ GameState.phaserFiring gameState
                     && Qltb 5 (GameState.phaserCharge gameState)
                     && Qle_bool (Qmaxb 0 (phaserCooldown ws - delta)) 0 = true).
  { unfold firePhasers. cbv zeta. js_Q.
    destruct (GameState.phaserFiring gameState
              && Qltb 5 (GameState.phaserCharge gameState)
              && Qle_bool (Qmaxb 0 (phaserCooldown ws - delta)) 0);
      [right; reflexivity | left].
    destruct (GameState.phaserFiring gameState); [| reflexivity].
    destruct (Qle_bool _ 0); reflexivity. }
  clear Fb.
  pose proof (Qmaxb_Qmax 0 (phaserCooldown ws - delta)) as Mc.
  pose proof (Qmaxb_Qmax 0 (GameState.phaserCharge gameState - 35 * delta)) as Mh.
  revert Hsame Mc Mh.
  generalize (Qmaxb 0 (phaserCooldown ws - delta))
             (Qmaxb 0 (GameState.phaserCharge gameState - 35 * delta)).
  intros mc mh Hsame Mc Mh.
  destruct (GameState.phaserFiring gameState) eqn:Hf; cbn [andb];
    [destruct (Qltb 5 (GameState.phaserCharge gameState)) eqn:H5; cbn [andb];
     [destruct (Qle_bool mc 0) eqn:Hc |] |];
    rewrite ?Nat.add_0_r, ?Nat.ltb_irrefl;
    try replace (length (phaserBeams ws) <? length (phaserBeams ws) + 1)%nat
      with true by (symmetry; apply Nat.ltb_lt; lia);
    destruct (Qle_bool mh 0) eqn:Hh; cbn [negb];
    Q_tests; repeat split; intros; try discriminate; try reflexivity;
    try assumption; try (rewrite <- ?Mc, <- ?Mh; reflexivity);
    try (destruct Hsame as [Hs | Hs]; [exact Hs | discriminate]);
    try (revert Mc Mh; Qmax_lra); try (revert Mc; Qmax_lra);
    try (revert Mh; Qmax_lra).
Qed.

(** The witness of X21: phasers firing at full charge with the cooldown
    run out. *)
Lemma updateWeapons_phasers_witness :
  GameState.phaserCharge
    (snd (updateWeapons Scenario.nothing_in_flight Scenario.player_firing
            Scenario.dt))
  == Qmax 0 (100 - 35 * Scenario.dt).
Proof.
  destruct (updateWeapons_phasers RationalThree.Three_Q
              Scenario.nothing_in_flight Scenario.player_firing Scenario.dt)
    as (_ & _ & _ & Hfire & _).
  - vm_compute. discriminate.
  - apply Hfire. reflexivity.
Defined.

Section TorpedoAgeing.
Context {N : Type} `{Number N} `{Three N}.
Local Open Scope js_scope.

(** One frame of the ageing loop on a single torpedo. *)
Lemma ageTorpedoes_single (t : PhotonTorpedo N) (d : N) :
  ageTorpedoes [t] d
  = (if age t + d >=? maxAge t then [] else [updateTorpedo t d])
  /\ age (updateTorpedo t d) = age t + d
  /\ maxAge (updateTorpedo t d) = maxAge t.
Proof. repeat split. Qed.

(** The age the code has accumulated for a torpedo by the end of each
    frame: one addition per frame, in the code's own arithmetic. *)
Lemma torpedo_survives :
  forall (deltas : list N) (t : PhotonTorpedo N),
    (forall k, (0 < k <= length deltas)%nat ->
               (fold_left js_add (firstn k deltas) (age t) >=? maxAge t) = false) ->
    exists t' : PhotonTorpedo N,
      fold_left ageTorpedoes deltas [t] = [t']
      /\ age t' = fold_left js_add deltas (age t)
      /\ maxAge t' = maxAge t.
Proof.
  induction deltas as [| d ds IH]; intros t Hlive.
  - exists t. repeat split.
  - cbn [fold_left].
    destruct (ageTorpedoes_single t d) as (-> & Ea & Em).
    pose proof (Hlive 1%nat ltac:(cbn [length]; lia)) as H1.
    change (firstn 1 (d :: ds)) with [d] in H1. cbn [fold_left] in H1. rewrite H1.
    destruct (IH (updateTorpedo t d)) as (t' & Ht' & Ha' & Hm').
    { intros k Hk. rewrite Ea, Em.
      apply (Hlive (S k)). cbn [length]. lia. }
    exists t'. rewrite Ea in Ha'. rewrite Em in Hm'. auto.
Qed.

Lemma torpedo_expires :
  forall (deltas : list N) (t : PhotonTorpedo N) (k : nat),
    (0 < k <= length deltas)%nat ->
    (fold_left js_add (firstn k deltas) (age t) >=? maxAge t) = true ->
    fold_left ageTorpedoes deltas [t] = [].
Proof.
  induction deltas as [| d ds IH]; intros t k Hk Hold.
  - cbn [length] in Hk. lia.
  - cbn [fold_left].
    destruct (ageTorpedoes_single t d) as (-> & Ea & Em).
    destruct (age t + d >=? maxAge t) eqn:E; [apply ageTorpedoes_nil |].
    destruct k as [| [| k]]; [lia | |].
    + change (firstn 1 (d :: ds)) with [d] in Hold. cbn [fold_left] in Hold. congruence.
    + apply (IH (updateTorpedo t d) (S k)).
      * cbn [length] in Hk. lia.
      * rewrite Ea, Em. exact Hold.
Qed.

End TorpedoAgeing.

(** X22. The life of a torpedo, for any arithmetic and any realisation of
    three.js.  Each frame adds the frame time to the torpedo's age, and
    the torpedo is dropped in the first frame that leaves this accumulated
    age at or above [maxAge]: while every frame so far has left it below,
    the torpedo is in the list with that age, and once a frame has not,
    the torpedo is gone for good.  The age is the code's running sum, not
    the time that has passed: on binary64 a torpedo just launched
    ([maxAge] 5) is still in flight after 100 frames of 0.05 s, the sum
    then being below 5, and is dropped by frame 101. *)
Theorem torpedo_lifetime :
  (forall (N : Type) (HN : Number N) (T : Three N)
          (deltas : list N) (t : PhotonTorpedo N),
     let ageAfter := fun k => fold_left js_add (firstn k deltas) (age t) in
     ((forall k, (0 < k <= length deltas)%nat ->
                 (ageAfter k >=? maxAge t)%js = false) ->
      exists t' : PhotonTorpedo N,
        fold_left ageTorpedoes deltas [t] = [t']
        /\ age t' = ageAfter (length deltas)
        /\ maxAge t' = maxAge t)
     /\ (forall k, (0 < k <= length deltas)%nat ->
                   (ageAfter k >=? maxAge t)%js = true ->
                   fold_left ageTorpedoes deltas [t] = []))
  /\ (forall (T : Three float) (origin direction : Vector3 float),
        let t := createTorpedoMesh origin direction in
        (exists t' : PhotonTorpedo float,
           fold_left ageTorpedoes (repeat (lit 0.05) 100) [t] = [t']
           /\ (age t' <? lit 5)%js = true)
        /\ fold_left ageTorpedoes (repeat (lit 0.05) 101) [t] = []).
Proof.
  split.
  - intros N HN T deltas t. cbv zeta. split.
    + intros Hlive. destruct (torpedo_survives deltas t Hlive) as (t' & Ht & Ha & Hm).
      exists t'. rewrite firstn_all. auto.
    + intros k Hk Hold. exact (torpedo_expires deltas t k Hk Hold).
  - intros T origin direction. cbv zeta. split.
    + destruct (torpedo_survives (repeat (lit 0.05) 100)
                  (createTorpedoMesh origin direction)) as (t' & Ht & Ha & _).
      { cbn [age maxAge createTorpedoMesh].
        intros k Hk.
        apply (prefixes_checked
                 (fun p => negb (fold_left js_add p (lit 0) >=? lit 5.0)%js)
                 (repeat (lit 0.05) 100)) in Hk.
        - apply negb_true_iff in Hk. exact Hk.
        - vm_compute. reflexivity. }
      exists t'. split; [exact Ht |]. rewrite Ha.
      cbn [age createTorpedoMesh]. vm_compute. reflexivity.
    + apply (torpedo_expires (repeat (lit 0.05) 101)
               (createTorpedoMesh origin direction) 101%nat).
      * rewrite repeat_length. lia.
      * cbn [age maxAge createTorpedoMesh]. vm_compute. reflexivity.
Qed.

(** The witness of X22 in exact arithmetic: a torpedo just launched and
    three frames of 2 s, the third of which takes the age to 6. *)
Lemma torpedo_lifetime_witness :
  fold_left (@ageTorpedoes Q Number_Q RationalThree.Three_Q) [2; 2; 2]%Q
            [Scenario.torpedo_away] = [].
Proof.
  destruct torpedo_lifetime as [Hgen _].
  destruct (Hgen Q Number_Q RationalThree.Three_Q [2; 2; 2]%Q Scenario.torpedo_away)
    as [_ Hgone].
  apply (Hgone 3%nat); [cbn [length]; lia | vm_compute; reflexivity].
Defined.

(** ** universe.ts and universe-manager.ts: warp travel between systems *)

Section UniverseFacts.
Import Universe UniverseManager.
Context {N : Type} `{Number N} `{Three N} `{HostSqrt N}.
Local Open Scope js_scope.

(** A reference [getSystem] returns is a place of the table that holds a
    system of the id asked for. *)
Lemma getSystem_Some (systems : list (StarSystem N)) (i : string) (r : SystemRef) :
  getSystem systems i = Some r ->
  exists s, systems !! r = Some s /\ id s = i.
Proof.
  unfold getSystem. intros Hg.
  destruct (list_find (fun s => id s = i) systems) as [[r' s] |] eqn:E;
    [| discriminate].
  cbn in Hg. injection Hg as ->.
  apply list_find_Some in E. destruct E as (Hs & Hi & _).
  exists s. split; assumption.
Qed.

(** Looking for an id among the systems a list of ids resolves to: found
    exactly when the id is in the list, and then it is the system the
    table gives for that id. *)
Lemma find_connected (systems : list (StarSystem N)) (systemId : string)
    (conns : list string) :
  List.find
    (fun r => match systems !! r with
              | Some s => String.eqb (id s) systemId
              | None => false
              end)
    (omap (getSystem systems) conns)
  = if bool_decide (systemId ∈ conns) then getSystem systems systemId else None.
Proof.
  induction conns as [| c conns IH].
  - cbn. rewrite bool_decide_eq_false_2 by apply not_elem_of_nil. reflexivity.
  - cbn [omap list_omap]. destruct (getSystem systems c) as [rc |] eqn:Ec.
    + destruct (getSystem_Some systems c rc Ec) as (s & Hs & Hi).
      cbn [List.find]. unfold SystemRef in *. rewrite Hs.
      destruct (String.eqb (id s) systemId) eqn:Eq.
      * apply String.eqb_eq in Eq. rewrite Hi in Eq. rewrite <- Eq.
        rewrite bool_decide_eq_true_2 by (apply elem_of_cons; left; reflexivity).
        symmetry. exact Ec.
      * apply String.eqb_neq in Eq. rewrite Hi in Eq. rewrite IH.
        apply (f_equal (fun b : bool => if b then getSystem systems systemId else None)).
        apply bool_decide_ext. rewrite elem_of_cons. intuition congruence.
    + rewrite IH.
      destruct (decide (c = systemId)) as [-> | Hne].
      * rewrite Ec. destruct (bool_decide (systemId ∈ conns));
          destruct (bool_decide (systemId ∈ systemId :: conns)); reflexivity.
      * apply (f_equal (fun b : bool => if b then getSystem systems systemId else None)).
        apply bool_decide_ext. rewrite elem_of_cons. intuition congruence.
Qed.

End UniverseFacts.

(** X23. [setDestination] accepts a system exactly when it is not the
    current one, the table has a system of the current id, that system
    lists the requested id among its connections, and the table has a
    system of the requested id.  An accepted call records the id and, as
    the destination, the table's first system of that id, and writes
    nothing else; a refused call writes nothing.  The travel phase is
    never consulted. *)
Theorem setDestination_accepts_direct_routes :
  forall (N : Type) (state : UniverseManager.UniverseState N)
         (systems : list (Universe.StarSystem N)) (systemId : string),
    let r := UniverseManager.setDestination state systems systemId in
    (fst r = true <->
     systemId <> UniverseManager.currentSystemId state
     /\ exists here current target,
          Universe.getSystem systems (UniverseManager.currentSystemId state) = Some here
          /\ systems !! here = Some current
          /\ systemId ∈ Universe.connections current
          /\ Universe.getSystem systems systemId = Some target)
    /\ (fst r = true ->
        snd r = UniverseManager.set_destination state (Some systemId)
                  (Universe.getSystem systems systemId))
    /\ (fst r = false -> snd r = state).
Proof.
  intros N state systems systemId. cbv zeta.
  unfold UniverseManager.setDestination, Universe.getConnectedSystems.
  destruct (String.eqb systemId (UniverseManager.currentSystemId state)) eqn:Eq.
  - apply String.eqb_eq in Eq. cbn [fst snd].
    repeat split; try discriminate; try tauto.
  - apply String.eqb_neq in Eq.
    destruct (Universe.getSystem systems (UniverseManager.currentSystemId state))
      as [here |] eqn:Eh.
    + destruct (systems !! here) as [current |] eqn:Ec.
      * rewrite find_connected.
        destruct (bool_decide (systemId ∈ Universe.connections current)) eqn:Ei.
        -- apply bool_decide_eq_true in Ei.
           destruct (Universe.getSystem systems systemId) as [target |] eqn:Et;
             cbn [fst snd].
           ++ repeat split; try discriminate; try assumption.
              exists here, current, target. auto.
           ++ repeat split; try discriminate.
              intros (_ & here' & current' & target & _ & _ & _ & Hc).
              discriminate.
        -- apply bool_decide_eq_false in Ei. cbn [fst snd].
           repeat split; try discriminate.
           intros (_ & here' & current' & target & Hh & Hc & Hin & _).
           injection Hh as <-. rewrite Ec in Hc. injection Hc as <-.
           contradiction.
      * cbn [List.find fst snd]. repeat split; try discriminate.
        intros (_ & here' & current' & target & Hh & Hc & _).
        injection Hh as <-. rewrite Ec in Hc. discriminate.
    + cbn [List.find fst snd]. repeat split; try discriminate.
      intros (_ & here' & current' & target & Hh & _). discriminate.
Qed.

(** Project through the field assignments of a [UniverseState] and of a
    [Travel]. *)
Ltac universe_simpl :=
  cbn [UniverseManager.currentSystemId UniverseManager.currentSystem
       UniverseManager.destinationId UniverseManager.destination
       UniverseManager.travelPhase UniverseManager.travelProgress
       UniverseManager.travelDuration UniverseManager.travelTimer
       UniverseManager.starMapOpen
       UniverseManager.set_destination UniverseManager.set_travelPhase
       UniverseManager.set_travelProgress UniverseManager.set_travelDuration
       UniverseManager.set_travelTimer UniverseManager.set_current
       UniverseManager.result UniverseManager.universe UniverseManager.table
       UniverseManager.ship UniverseManager.isIdle fst snd] in *.

(** X24. [initiateWarp] on references into the table.  It starts a trip
    exactly when a destination is set, the travel phase is idle and the
    throttle is at least 0.1.  A trip that starts is in the charging phase
    with timer and progress at 0 and a duration of
    [max(3, distance * 0.025)], so of at least 3 seconds, and keeps
    position and destination; a refused call writes nothing. *)
Theorem initiateWarp_guards :
  forall (T : Three Q) (S : HostSqrt Q) (uState : UniverseManager.UniverseState Q)
         (systems : list (Universe.StarSystem Q)) (gameState : GameState.t Q)
         (here : Universe.StarSystem Q),
    systems !! UniverseManager.currentSystem uState = Some here ->
    (forall d, UniverseManager.destination uState = Some d -> is_Some (systems !! d)) ->
    exists (started : bool) (uState' : UniverseManager.UniverseState Q),
      UniverseManager.initiateWarp uState systems gameState = Some (started, uState')
      /\ (started = true <->
          UniverseManager.destination uState <> None
          /\ UniverseManager.travelPhase uState = UniverseManager.idle
          /\ 0.1 <= GameState.throttle gameState)
      /\ (started = false -> uState' = uState)
      /\ (started = true ->
          UniverseManager.travelPhase uState' = UniverseManager.charging
          /\ UniverseManager.travelTimer uState' = 0
          /\ UniverseManager.travelProgress uState' = 0
          /\ 3 <= UniverseManager.travelDuration uState'
          /\ (forall there d,
                UniverseManager.destination uState = Some d ->
                systems !! d = Some there ->
                UniverseManager.travelDuration uState'
                == Qmax 3 (Universe.getMapDistance here there * 0.025))
          /\ UniverseManager.destination uState' = UniverseManager.destination uState
          /\ UniverseManager.destinationId uState'
             = UniverseManager.destinationId uState
          /\ UniverseManager.currentSystem uState'
             = UniverseManager.currentSystem uState
          /\ UniverseManager.currentSystemId uState'
             = UniverseManager.currentSystemId uState).
Proof.
  intros T S uState systems gameState here Hhere Hdest.
  unfold UniverseManager.initiateWarp.
  destruct (UniverseManager.destination uState) as [d |] eqn:Ed.
  - destruct (Hdest d eq_refl) as [there Hthere].
    destruct (UniverseManager.travelPhase uState) eqn:Ep; cbn [negb UniverseManager.isIdle];
      try (eexists; eexists; split; [reflexivity |];
           repeat split; intros; try discriminate; try tauto;
           match goal with
           | Hx : _ /\ _ /\ _ |- _ => destruct Hx as (_ & Hx & _); discriminate
           end).
    js_Q. destruct (Qltb (GameState.throttle gameState) 0.1) eqn:Et; Q_tests.
    + eexists; eexists; split; [reflexivity |].
      repeat split; intros; try discriminate; try tauto.
      match goal with
      | Hx : _ /\ _ /\ _ |- _ => destruct Hx as (_ & _ & Hx); lra
      end.
    + unfold Universe.SystemRef in *. rewrite Hhere, Hthere.
      eexists; eexists; split; [reflexivity |].
      unfold UniverseManager.WARP_MIN_DURATION, UniverseManager.WARP_SPEED_FACTOR.
      js_Q. universe_simpl. rewrite ?Ed.
      repeat split; intros; try discriminate; try reflexivity; try assumption.
      * rewrite Qmaxb_Qmax. Qmax_lra.
      * match goal with
        | Hx : Some _ = Some _ |- _ => injection Hx as <-
        end.
        match goal with
        | Hx : systems !! d = Some _ |- _ =>
            rewrite Hthere in Hx; injection Hx as <-
        end.
        rewrite Qmaxb_Qmax. Qmax_lra.
  - eexists; eexists; split; [reflexivity |].
    repeat split; intros; try discriminate; try tauto.
Qed.

(** The witness of X24: at Sol with Vulcan selected and the throttle at
    one half. *)
Lemma initiateWarp_guards_witness :
  UniverseManager.initiateWarp Scenario.bound_for_vulcan Scenario.catalogue
    Scenario.cruising <> None.
Proof.
  destruct (initiateWarp_guards RationalThree.Three_Q Sqrt_Q
              Scenario.bound_for_vulcan Scenario.catalogue Scenario.cruising
              (Universe.mkStarSystem "sol" "Alpha Quadrant" 0 0
                 ["vulcan"; "alpha-centauri"; "wolf359"] true))
    as (started & uState' & Hw & _).
  - reflexivity.
  - intros d Hd. vm_compute in Hd. injection Hd as <-. eexists. reflexivity.
  - rewrite Hw. discriminate.
Defined.

(** X25. The travel phases and their thresholds, in exact arithmetic and
    on a destination that is a place of the table.  [updateTravel] does
    nothing in the idle phase.  Otherwise the timer advances by the frame
    time, and: charging becomes warping, with the result 'started-warp'
    and the warp flag set, when the timer has reached 2; warping becomes
    arriving when the timer has reached the trip's duration (taken
    positive); arriving ends in idle, with the result 'arrived', when the
    timer has reached 1.5.  The changes to warping and to arriving reset
    the timer to 0; the arrival resets it when a destination is set, and
    leaves the advanced timer in place when the destination has been
    cleared during the trip.  No other result is reported, and before the
    arrival neither the table nor the current system is written. *)
Theorem updateTravel_phases :
  forall (T : Three Q) (S : HostSqrt Q) (uState : UniverseManager.UniverseState Q)
         (systems : list (Universe.StarSystem Q)) (gameState : GameState.t Q)
         (delta : Q),
    (forall d, UniverseManager.destination uState = Some d -> is_Some (systems !! d)) ->
    0 < UniverseManager.travelDuration uState ->
    exists t : UniverseManager.Travel Q,
      UniverseManager.updateTravel uState systems gameState delta = Some t
      /\ (let timer := UniverseManager.travelTimer uState + delta in
          let phase' := UniverseManager.travelPhase (UniverseManager.universe t) in
          let timer' := UniverseManager.travelTimer (UniverseManager.universe t) in
          match UniverseManager.travelPhase uState with
          | UniverseManager.idle =>
              t = UniverseManager.mkTravel UniverseManager.none uState systems gameState
          | UniverseManager.charging =>
              (2 <= timer ->
               UniverseManager.result t = UniverseManager.started_warp
               /\ phase' = UniverseManager.warping /\ timer' = 0
               /\ GameState.isWarp (UniverseManager.ship t) = true)
              /\ (timer < 2 ->
                  UniverseManager.result t = UniverseManager.none
                  /\ phase' = UniverseManager.charging /\ timer' = timer
                  /\ UniverseManager.ship t = gameState)
          | UniverseManager.warping =>
              UniverseManager.result t = UniverseManager.none
              /\ (UniverseManager.travelDuration uState <= timer ->
                  phase' = UniverseManager.arriving /\ timer' = 0)
              /\ (timer < UniverseManager.travelDuration uState ->
                  phase' = UniverseManager.warping /\ timer' = timer)
          | UniverseManager.arriving =>
              (1.5 <= timer ->
               UniverseManager.result t = UniverseManager.arrived
               /\ phase' = UniverseManager.idle
               /\ timer' = match UniverseManager.destination uState with
                           | Some _ => 0
                           | None => timer
                           end)
              /\ (timer < 1.5 ->
                  UniverseManager.result t = UniverseManager.none
                  /\ phase' = UniverseManager.arriving /\ timer' = timer)
          end
          /\ (UniverseManager.result t <> UniverseManager.arrived ->
              UniverseManager.table t = systems
              /\ UniverseManager.currentSystem (UniverseManager.universe t)
                 = UniverseManager.currentSystem uState
              /\ UniverseManager.destination (UniverseManager.universe t)
                 = UniverseManager.destination uState)).
Proof.
  intros T S uState systems gameState delta Hdest Hdur.
  unfold UniverseManager.updateTravel.
  destruct (UniverseManager.travelPhase uState) eqn:Ep.
  - eexists. split; [reflexivity |]. cbv zeta. universe_simpl.
    repeat split; reflexivity.
  - unfold UniverseManager.WARP_CHARGE_TIME. js_Q. universe_simpl.
    destruct (Qle_bool 2.0 (UniverseManager.travelTimer uState + delta)) eqn:E;
      Q_tests; (eexists; split; [reflexivity |]); cbv zeta; universe_simpl;
      repeat split; intros; try reflexivity; try discriminate; try lra;
      try assumption.
  - js_Q. universe_simpl.
    set (timer := UniverseManager.travelTimer uState + delta).
    assert (Hprog : Qle_bool 1 (Qminb 1 (timer / UniverseManager.travelDuration uState))
                    = true
                    <-> UniverseManager.travelDuration uState <= timer).
    { rewrite Qle_bool_iff, Qminb_Qmin. split.
      - intros Hle. apply Q.min_glb_r in Hle.
        apply (Qmult_le_compat_r _ _ (UniverseManager.travelDuration uState)) in Hle;
          [| lra].
        unfold Qdiv in Hle. rewrite <- Qmult_assoc, (Qmult_comm (/ _)) in Hle.
        rewrite Qmult_inv_r in Hle; lra.
      - intros Hle. apply Q.min_glb; [lra |].
        apply Qle_shift_div_l; lra. }
    destruct (Qle_bool 1 (Qminb 1 (timer / UniverseManager.travelDuration uState)))
      eqn:E;
      (eexists; split; [reflexivity |]); cbv zeta; universe_simpl;
      repeat split; intros; try reflexivity; try discriminate; try assumption.
    all: match goal with
         | Hx : UniverseManager.travelDuration _ <= _ |- _ =>
             apply Hprog in Hx; discriminate
         | Hx : _ < UniverseManager.travelDuration _ |- _ =>
             pose proof (proj1 Hprog eq_refl); lra
         end.
  - unfold UniverseManager.ARRIVAL_TIME. js_Q. universe_simpl.
    destruct (Qle_bool 1.5 (UniverseManager.travelTimer uState + delta)) eqn:E;
      Q_tests.
    + unfold UniverseManager.arriveAtDestination. universe_simpl.
      destruct (UniverseManager.destination uState) as [d |] eqn:Ed.
      * destruct (Hdest d eq_refl) as [sys Hsys].
        unfold Universe.SystemRef in *. rewrite Hsys.
        eexists. split; [reflexivity |]. cbv zeta. universe_simpl.
        repeat split; intros; try reflexivity; try lra; try congruence.
      * eexists. split; [reflexivity |]. cbv zeta. universe_simpl.
        repeat split; intros; try reflexivity; try lra; try congruence.
    + eexists. split; [reflexivity |]. cbv zeta. universe_simpl.
      repeat split; intros; try reflexivity; try discriminate; try lra;
        try assumption.
Qed.

(** The witness of X25: the first frame of the trip to Vulcan. *)
Lemma updateTravel_phases_witness :
  UniverseManager.updateTravel Scenario.warp_charging Scenario.catalogue
    Scenario.cruising Scenario.dt <> None.
Proof.
  destruct (updateTravel_phases RationalThree.Three_Q Sqrt_Q
              Scenario.warp_charging Scenario.catalogue Scenario.cruising
              Scenario.dt) as (t & Ht & _).
  - intros d Hd. vm_compute in Hd. injection Hd as <-. eexists. reflexivity.
  - vm_compute. reflexivity.
  - rewrite Ht. discriminate.
Defined.

(** X26. The ship during a trip, in exact arithmetic, with the timer not
    negative after the frame and a positive trip duration.  While idle or
    charging [updateTravel] leaves speed and throttle alone.  While
    warping it sets the warp flag and the speed to [5 + 3 * progress],
    with the progress in [0, 1], so a speed between 5 and 8.  While
    arriving it clears the warp flag and holds the speed between 0.3 and
    1; on arrival at a destination speed and throttle are both 0.3. *)
Theorem updateTravel_speeds :
  forall (T : Three Q) (S : HostSqrt Q) (uState : UniverseManager.UniverseState Q)
         (systems : list (Universe.StarSystem Q)) (gameState : GameState.t Q)
         (delta : Q),
    (forall d, UniverseManager.destination uState = Some d -> is_Some (systems !! d)) ->
    0 <= UniverseManager.travelTimer uState + delta ->
    0 < UniverseManager.travelDuration uState ->
    exists t : UniverseManager.Travel Q,
      UniverseManager.updateTravel uState systems gameState delta = Some t
      /\ (let ship' := UniverseManager.ship t in
          let progress' := UniverseManager.travelProgress (UniverseManager.universe t) in
          match UniverseManager.travelPhase uState with
          | UniverseManager.idle | UniverseManager.charging =>
              GameState.speed ship' = GameState.speed gameState
              /\ GameState.throttle ship' = GameState.throttle gameState
          | UniverseManager.warping =>
              GameState.isWarp ship' = true
              /\ (0 <= progress' /\ progress' <= 1)
              /\ GameState.speed ship' == 5 + 3 * progress'
              /\ (5 <= GameState.speed ship' /\ GameState.speed ship' <= 8)
              /\ GameState.throttle ship' = GameState.throttle gameState
          | UniverseManager.arriving =>
              GameState.isWarp ship' = false
              /\ (0.3 <= GameState.speed ship' /\ GameState.speed ship' <= 1)
              /\ (UniverseManager.result t = UniverseManager.arrived ->
                  UniverseManager.destination uState <> None ->
                  GameState.speed ship' == 0.3 /\ GameState.throttle ship' == 0.3)
          end).
Proof.
  intros T S uState systems gameState delta Hdest Htimer Hdur.
  unfold UniverseManager.updateTravel.
  destruct (UniverseManager.travelPhase uState) eqn:Ep.
  - eexists. split; [reflexivity |]. cbv zeta. universe_simpl.
    split; reflexivity.
  - unfold UniverseManager.WARP_CHARGE_TIME. js_Q. universe_simpl.
    destruct (Qle_bool 2.0 (UniverseManager.travelTimer uState + delta));
      (eexists; split; [reflexivity |]); cbv zeta; universe_simpl; gs_simpl;
      split; reflexivity.
  - js_Q. universe_simpl.
    set (timer := UniverseManager.travelTimer uState + delta) in *.
    assert (Hq : 0 <= timer / UniverseManager.travelDuration uState).
    { apply Qle_shift_div_l; lra. }
    pose proof (Qminb_Qmin 1 (timer / UniverseManager.travelDuration uState)) as Hm.
    revert Hm Hq.
    generalize (timer / UniverseManager.travelDuration uState).
    intros q Hm Hq.
    assert (Hp : 0 <= Qminb 1 q /\ Qminb 1 q <= 1).
    { rewrite Hm. split; Qmax_lra. }
    destruct (Qle_bool 1 (Qminb 1 q));
      (eexists; split; [reflexivity |]); cbv zeta; universe_simpl; gs_simpl;
      repeat split; try reflexivity; try tauto; lra.
  - unfold UniverseManager.ARRIVAL_TIME. js_Q. universe_simpl.
    set (timer := UniverseManager.travelTimer uState + delta) in *.
    assert (Hq : 0 <= timer / 1.5).
    { apply Qle_shift_div_l; lra. }
    pose proof (Qmaxb_Qmax 0.3 (1.0 - timer / 1.5)) as Hm.
    assert (Hs : 0.3 <= Qmaxb 0.3 (1.0 - timer / 1.5)
                 /\ Qmaxb 0.3 (1.0 - timer / 1.5) <= 1).
    { rewrite Hm. split; Qmax_lra. }
    destruct (Qle_bool 1.5 timer) eqn:E; Q_tests.
    + unfold UniverseManager.arriveAtDestination. universe_simpl.
      destruct (UniverseManager.destination uState) as [d |] eqn:Ed.
      * destruct (Hdest d eq_refl) as [sys Hsys].
        unfold Universe.SystemRef in *. rewrite Hsys.
        eexists. split; [reflexivity |]. cbv zeta. universe_simpl. gs_simpl.
        js_Q. repeat split; intros; try reflexivity; lra.
      * eexists. split; [reflexivity |]. cbv zeta. universe_simpl. gs_simpl.
        js_Q. repeat split; intros; try reflexivity; try tauto; try congruence.
    + eexists. split; [reflexivity |]. cbv zeta. universe_simpl. gs_simpl.
      js_Q. repeat split; intros; try reflexivity; try tauto; try discriminate.
Qed.

(** The witness of X26: the first frame of the trip to Vulcan. *)
Lemma updateTravel_speeds_witness :
  UniverseManager.updateTravel Scenario.warp_charging Scenario.catalogue
    Scenario.cruising Scenario.dt <> None.
Proof.
  destruct (updateTravel_speeds RationalThree.Three_Q Sqrt_Q
              Scenario.warp_charging Scenario.catalogue Scenario.cruising
              Scenario.dt) as (t & Ht & _).
  - intros d Hd. vm_compute in Hd. injection Hd as <-. eexists. reflexivity.
  - vm_compute. discriminate.
  - vm_compute. reflexivity.
  - rewrite Ht. discriminate.
Defined.

Section CatalogueFacts.
Import Universe UniverseManager.
Context {N : Type} `{Number N} `{Three N} `{HostSqrt N}.

(** [getSystem] reads nothing of the table but the ids. *)
Lemma getSystem_ids (i : string) :
  forall systems1 systems2 : list (StarSystem N),
    map id systems1 = map id systems2 ->
    getSystem systems1 i = getSystem systems2 i.
Proof.
  unfold getSystem.
  induction systems1 as [| s1 l1 IH]; intros [| s2 l2] Hids;
    try discriminate; [reflexivity |].
  cbn [map] in Hids. injection Hids as Hid Hrest.
  cbn [list_find]. rewrite Hid.
  destruct (decide (id s2 = i)); [reflexivity |].
  specialize (IH l2 Hrest).
  destruct (list_find (fun s => id s = i) l1) as [[r1 x1] |];
    destruct (list_find (fun s => id s = i) l2) as [[r2 x2] |];
    cbn in *; congruence.
Qed.

(** Marking a system discovered keeps every id in its place. *)
Lemma discover_ids (systems : list (StarSystem N)) (d : SystemRef) (sys : StarSystem N) :
  systems !! d = Some sys ->
  map id (<[d := set_discovered sys true]> systems) = map id systems.
Proof.
  intros Hd. unfold SystemRef in *.
  change (map id (<[d := set_discovered sys true]> systems))
    with (id <$> <[d := set_discovered sys true]> systems).
  rewrite list_fmap_insert. apply list_insert_id.
  rewrite list_lookup_fmap, Hd. reflexivity.
Qed.

(** What an [updateTravel] that does not arrive leaves of the table and of
    the position in it. *)
Lemma updateTravel_cases (uState : UniverseState N) (systems : list (StarSystem N))
    (gameState : GameState.t N) (delta : N) :
  (exists t, updateTravel uState systems gameState delta = Some t
             /\ result t <> arrived /\ table t = systems
             /\ currentSystem (universe t) = currentSystem uState
             /\ currentSystemId (universe t) = currentSystemId uState)
  \/ (travelPhase uState = arriving
      /\ updateTravel uState systems gameState delta
         = arriveAtDestination
             (set_travelTimer uState (travelTimer uState + delta)%js) systems
             (GameState.set_speed (GameState.set_isWarp gameState false)
                (Math_max (lit 0.3)
                   (lit 1.0 - (travelTimer uState + delta) / ARRIVAL_TIME))%js)).
Proof.
  unfold updateTravel.
  destruct (travelPhase uState) eqn:Ep.
  - left. eexists. split; [reflexivity |]. cbn. repeat split. discriminate.
  - left. cbn [travelTimer set_travelTimer].
    destruct (_ >=? WARP_CHARGE_TIME)%js; eexists; (split; [reflexivity |]);
      cbn; repeat split; discriminate.
  - left. cbv zeta. cbn [travelProgress set_travelProgress].
    destruct (_ >=? lit 1)%js; eexists; (split; [reflexivity |]);
      cbn; repeat split; discriminate.
  - cbn [travelTimer set_travelTimer].
    destruct (_ >=? ARRIVAL_TIME)%js.
    + right. split; reflexivity.
    + left. eexists. split; [reflexivity |]. cbn. repeat split. discriminate.
Qed.

End CatalogueFacts.

(** X27. Arrival.  On a destination that is a place of the table,
    [updateTravel] returns, and whatever the phase the table keeps its
    length and every system its id, position, routes and a [discovered]
    flag that was set, so that a system is found by id where it was
    before.  When the result is 'arrived' the travel phase is idle and the
    warp flag is off; with a destination set, that system is now the
    current one, it is marked discovered in the table, the destination is
    cleared and the ship is at the origin; with the destination cleared
    during the trip, the ship is back in the system it left and the table
    is untouched. *)
Theorem updateTravel_arrival :
  forall (N : Type) (HN : Number N) (T : Three N) (S : HostSqrt N)
         (uState : UniverseManager.UniverseState N)
         (systems : list (Universe.StarSystem N)) (gameState : GameState.t N)
         (delta : N),
    (forall d, UniverseManager.destination uState = Some d -> is_Some (systems !! d)) ->
    exists t : UniverseManager.Travel N,
      UniverseManager.updateTravel uState systems gameState delta = Some t
      /\ length (UniverseManager.table t) = length systems
      /\ (forall j s,
            systems !! j = Some s ->
            exists s',
              UniverseManager.table t !! j = Some s'
              /\ Universe.id s' = Universe.id s
              /\ Universe.sector s' = Universe.sector s
              /\ Universe.mapX s' = Universe.mapX s
              /\ Universe.mapY s' = Universe.mapY s
              /\ Universe.connections s' = Universe.connections s
              /\ (Universe.discovered s = true -> Universe.discovered s' = true))
      /\ (forall i, Universe.getSystem (UniverseManager.table t) i
                    = Universe.getSystem systems i)
      /\ (UniverseManager.result t = UniverseManager.arrived ->
          UniverseManager.travelPhase (UniverseManager.universe t)
          = UniverseManager.idle
          /\ GameState.isWarp (UniverseManager.ship t) = false
          /\ match UniverseManager.destination uState with
             | Some d =>
                 exists sys,
                   systems !! d = Some sys
                   /\ UniverseManager.currentSystem (UniverseManager.universe t) = d
                   /\ UniverseManager.currentSystemId (UniverseManager.universe t)
                      = Universe.id sys
                   /\ UniverseManager.table t
                      = <[d := Universe.set_discovered sys true]> systems
                   /\ UniverseManager.destination (UniverseManager.universe t) = None
                   /\ UniverseManager.destinationId (UniverseManager.universe t) = None
                   /\ GameState.position (UniverseManager.ship t)
                      = mkVector3 (lit 0) (lit 0) (lit 0)
             | None =>
                 UniverseManager.table t = systems
                 /\ UniverseManager.currentSystem (UniverseManager.universe t)
                    = UniverseManager.currentSystem uState
                 /\ UniverseManager.currentSystemId (UniverseManager.universe t)
                    = UniverseManager.currentSystemId uState
             end).
Proof.
  intros N HN T S uState systems gameState delta Hdest.
  assert (Hsame : forall j s, systems !! j = Some s ->
            exists s', systems !! j = Some s'
              /\ Universe.id s' = Universe.id s
              /\ Universe.sector s' = Universe.sector s
              /\ Universe.mapX s' = Universe.mapX s
              /\ Universe.mapY s' = Universe.mapY s
              /\ Universe.connections s' = Universe.connections s
              /\ (Universe.discovered s = true -> Universe.discovered s' = true)).
  { intros j s Hj. exists s. repeat split; auto. }
  destruct (updateTravel_cases uState systems gameState delta)
    as [(t & Ht & Hres & Htab & _) | (Ep & Harr)].
  - exists t. split; [exact Ht |]. rewrite Htab.
    repeat split; auto. all: contradiction.
  - rewrite Harr. unfold UniverseManager.arriveAtDestination. universe_simpl.
    destruct (UniverseManager.destination uState) as [d |] eqn:Ed.
    + destruct (Hdest d eq_refl) as [sys Hsys].
      unfold Universe.SystemRef in *. rewrite Hsys.
      eexists. split; [reflexivity |]. universe_simpl. gs_simpl.
      split; [apply length_insert |].
      split.
      { intros j s Hj. destruct (decide (j = d)) as [-> | Hne].
        - rewrite Hj in Hsys. injection Hsys as ->.
          exists (Universe.set_discovered sys true).
          rewrite list_lookup_insert_eq by (eapply lookup_lt_Some; exact Hj).
          repeat split; reflexivity.
        - exists s. rewrite list_lookup_insert_ne by congruence.
          repeat split; auto. }
      split.
      { intros i. apply getSystem_ids. apply discover_ids. exact Hsys. }
      intros _. repeat split. exists sys. repeat split; reflexivity.
    + eexists. split; [reflexivity |]. universe_simpl. gs_simpl.
      repeat split; auto.
Qed.

(** The witness of X27: the last frame of the trip to Vulcan. *)
Lemma updateTravel_arrival_witness :
  UniverseManager.updateTravel Scenario.warp_arriving Scenario.catalogue
    Scenario.cruising Scenario.dt <> None.
Proof.
  destruct (updateTravel_arrival Q Number_Q RationalThree.Three_Q Sqrt_Q
              Scenario.warp_arriving Scenario.catalogue Scenario.cruising
              Scenario.dt) as (t & Ht & _).
  - intros d Hd. vm_compute in Hd. injection Hd as <-. eexists. reflexivity.
  - rewrite Ht. discriminate.
Defined.

(** ** voice-executor.ts and the start of a frame *)

Section FrameStartFacts.
Import VoiceExecutor FrameStart.
Context {N : Type} `{Number N} `{Three N}.
Local Open Scope js_scope.

(** No voice command writes the magazine or the phaser charge, and
    neither do the burst and the auto-pilot. *)
Lemma executeVoiceCommand_keeps (action : CommandAction N) (gs : GameState.t N) :
  GameState.torpedoCount (executeVoiceCommand action gs) = GameState.torpedoCount gs
  /\ GameState.phaserCharge (executeVoiceCommand action gs)
     = GameState.phaserCharge gs.
Proof.
  destruct action; cbn [executeVoiceCommand]; cbv zeta;
    repeat match goal with
    | |- context [if ?b then _ else _] => destruct b
    end; gs_simpl; split; reflexivity.
Qed.

Lemma voiceCommands_keeps (resolveNavTarget : string -> option (Vector3 N))
    (commands : list (CommandAction N)) :
  forall (timer : N) (target : option (Vector3 N)) (state : GameState.t N),
    GameState.torpedoCount
      (snd (voiceCommands resolveNavTarget commands timer target state))
    = GameState.torpedoCount state
    /\ GameState.phaserCharge
         (snd (voiceCommands resolveNavTarget commands timer target state))
       = GameState.phaserCharge state.
Proof.
  unfold voiceCommands.
  induction commands as [| action commands IH]; intros timer target state;
    [split; reflexivity |].
  cbn [fold_left].
  destruct (executeVoiceCommand_keeps action state) as [Hc Hp].
  match goal with
  | |- context [fold_left ?f commands (?t, ?g, ?s)] =>
      destruct (IH t g s) as [-> ->]
  end.
  split; assumption.
Qed.

Lemma voicePhaserBurst_keeps (timer : N) (state : GameState.t N)
    (input : InputManager.t) (delta : N) :
  GameState.torpedoCount (snd (voicePhaserBurst timer state input delta))
  = GameState.torpedoCount state
  /\ GameState.phaserCharge (snd (voicePhaserBurst timer state input delta))
     = GameState.phaserCharge state.
Proof.
  unfold voicePhaserBurst. cbv zeta.
  repeat match goal with
  | |- context [if ?b then _ else _] => destruct b
  end; gs_simpl; split; reflexivity.
Qed.

Lemma autoPilot_keeps (target : option (Vector3 N)) (state : GameState.t N)
    (input : InputManager.t) (delta : N) :
  GameState.torpedoCount (snd (autoPilot target state input delta))
  = GameState.torpedoCount state
  /\ GameState.phaserCharge (snd (autoPilot target state input delta))
     = GameState.phaserCharge state.
Proof.
  unfold autoPilot. destruct target as [target |]; [| split; reflexivity].
  cbv zeta.
  repeat match goal with
  | |- context [if ?b then _ else _] => destruct b
  end; gs_simpl; split; reflexivity.
Qed.

(** The state and the keys [updateShip] is run on at the start of a
    frame. *)
Lemma frameStart_unfold (resolveNavTarget : string -> option (Vector3 N))
    (commands : list (CommandAction N)) (h : Helm N) (delta : N) :
  exists before : GameState.t N,
    FrameStart.state (frameStart resolveNavTarget commands h delta)
    = fst (ShipController.updateShip before (FrameStart.input h) delta)
    /\ GameState.torpedoCount before = GameState.torpedoCount (FrameStart.state h)
    /\ GameState.phaserCharge before = GameState.phaserCharge (FrameStart.state h).
Proof.
  unfold frameStart.
  destruct (voiceCommands_keeps resolveNavTarget commands (voicePhaserBurstTimer h)
              (autoPilotTarget h) (FrameStart.state h)) as [Hc1 Hp1].
  destruct (voiceCommands resolveNavTarget commands (voicePhaserBurstTimer h)
              (autoPilotTarget h) (FrameStart.state h))
    as [[timer1 target1] s1].
  destruct (voicePhaserBurst_keeps timer1 s1 (FrameStart.input h) delta)
    as [Hc2 Hp2].
  destruct (voicePhaserBurst timer1 s1 (FrameStart.input h) delta) as [timer2 s2].
  destruct (autoPilot_keeps target1 s2 (FrameStart.input h) delta)
    as [Hc3 Hp3].
  destruct (autoPilot target1 s2 (FrameStart.input h) delta)
    as [target s3].
  cbn [fst snd] in *. exists s3.
  destruct (ShipController.updateShip s3 (FrameStart.input h) delta) as [s4 i4].
  cbn [FrameStart.state fst]. repeat split; congruence.
Qed.

End FrameStartFacts.

(** X28. Spoken fire commands need a key.  At the start of a frame the
    queued voice commands, the voice phaser burst and the auto-pilot run
    before [updateShip], which assigns both fire intents from the
    keyboard alone.  Whatever was spoken, and wherever a spoken target
    resolves to, the state handed to the weapons
    has the torpedo intent set exactly when T was just pressed with
    torpedoes left, and the phaser intent exactly when Space is held with
    the recharged charge above 5; the magazine is as it was. *)
Theorem voice_fire_needs_keys :
  forall (N : Type) (HN : Number N) (T : Three N)
         (resolveNavTarget : string -> option (Vector3 N))
         (commands : list (VoiceExecutor.CommandAction N))
         (h : FrameStart.Helm N) (delta : N),
    let state := FrameStart.state h in
    let state' :=
      FrameStart.state (FrameStart.frameStart resolveNavTarget commands h delta) in
    let charge :=
      (if GameState.phaserCharge state <? lit 100
       then Math_min (lit 100) (GameState.phaserCharge state + lit 10 * delta)
       else GameState.phaserCharge state)%js in
    GameState.torpedoFiring state'
    = bool_decide ("KeyT" ∈ InputManager.justPressed (FrameStart.input h))
      && (GameState.torpedoCount state >? lit 0)%js
    /\ GameState.phaserFiring state'
       = InputManager.isPressed (FrameStart.input h) "Space" && (charge >? lit 5)%js
    /\ GameState.torpedoCount state' = GameState.torpedoCount state.
Proof.
  intros N HN T resolveNavTarget commands h delta. cbv zeta.
  destruct (frameStart_unfold resolveNavTarget commands h delta)
    as (before & -> & Hc & Hp).
  rewrite updateShip_torpedoFiring.
  destruct (updateShip_phasers before (FrameStart.input h) delta) as (_ & ->).
  destruct (updateShip_frame before (FrameStart.input h) delta) as (_ & _ & ->).
  rewrite Hc, Hp. unfold ShipController.PHASER_RECHARGE. repeat split.
Qed.

(** ** mission-system.ts: the mission log *)

Section MissionFacts.
Import MissionSystem.

(** The objective loop, by cases: with an incomplete objective in the
    current system, the first such is the one completed; without one,
    nothing changes. *)
Lemma completeFirst_hit (sys : string) :
  forall (objs : list MissionObjective) (k : nat) (o : MissionObjective),
    objs !! k = Some o ->
    completed o = false ->
    systemId o = sys ->
    (forall j oj, (j < k)%nat -> objs !! j = Some oj ->
                  completed oj = true \/ systemId oj <> sys) ->
    completeFirst objs sys = <[k := mkMissionObjective sys true]> objs.
Proof.
  induction objs as [| obj rest IH]; intros k o Hk Hc Hs Hbefore;
    [discriminate |].
  destruct k as [| k].
  - cbn in Hk. injection Hk as ->. cbn [completeFirst].
    rewrite Hc, Hs, String.eqb_refl. reflexivity.
  - cbn in Hk. cbn [completeFirst].
    destruct (Hbefore 0%nat obj ltac:(lia) eq_refl) as [Hd | Hn].
    + rewrite Hd. cbn [negb andb]. cbn [insert list_insert]. f_equal.
      apply (IH k o Hk Hc Hs). intros j oj Hj Hoj.
      apply (Hbefore (S j) oj); [lia | exact Hoj].
    + apply String.eqb_neq in Hn. rewrite Hn, andb_false_r.
      cbn [insert list_insert]. f_equal.
      apply (IH k o Hk Hc Hs). intros j oj Hj Hoj.
      apply (Hbefore (S j) oj); [lia | exact Hoj].
Qed.

Lemma completeFirst_miss (sys : string) :
  forall objs : list MissionObjective,
    (forall o, In o objs -> completed o = true \/ systemId o <> sys) ->
    completeFirst objs sys = objs.
Proof.
  induction objs as [| obj rest IH]; intros Hall; [reflexivity |].
  cbn [completeFirst].
  destruct (Hall obj (or_introl eq_refl)) as [Hd | Hn].
  - rewrite Hd. cbn [negb andb]. f_equal. apply IH.
    intros o Ho. apply Hall. right. exact Ho.
  - apply String.eqb_neq in Hn. rewrite Hn, andb_false_r. f_equal. apply IH.
    intros o Ho. apply Hall. right. exact Ho.
Qed.

(** [checkMissionObjectives] on an active mission. *)
Lemma checkMissionObjectives_active (state : MissionState) (sys activeId : string)
    (i : nat) (mission : Mission) :
  activeMissionId state = Some activeId ->
  activeId <> EmptyString ->
  findMission state activeId = Some (i, mission) ->
  status mission = active ->
  let objs' := completeFirst (objectives mission) sys in
  let allDone := forallb completed objs' in
  let mission' :=
    set_status (set_objectives mission objs') (if allDone then done else active) in
  checkMissionObjectives state sys
  = (mkCheckResult allDone (Some mission'),
     (if allDone then updateRating else fun s => s)
       {| missions := <[i := mission']> (missions state);
          activeMissionId := if allDone then None else Some activeId;
          completedCount :=
            (if allDone then S (completedCount state) else completedCount state);
          rating := rating state |}).
Proof.
  intros Ha Hne Hf Hs. cbv zeta. unfold checkMissionObjectives.
  rewrite Ha. destruct activeId as [| c rest]; [contradiction |].
  cbn [truthy negb]. rewrite Hf, Hs. cbn [isActive negb].
  cbn [objectives set_objectives].
  destruct (forallb completed (completeFirst (objectives mission) sys)).
  - reflexivity.
  - assert (Hm : set_status
                   (set_objectives mission (completeFirst (objectives mission) sys))
                   active
                 = set_objectives mission (completeFirst (objectives mission) sys)).
    { destruct mission; cbn in *. subst. reflexivity. }
    rewrite Hm. reflexivity.
Qed.

End MissionFacts.

(** X29. Objectives are completed by place, not by position in the list.
    For the active mission, an arrival completes the first objective that
    is still open and lies in the system arrived at, whether or not
    earlier objectives are open; it completes nothing if there is none;
    and it never re-opens an objective.  The call reports completion
    exactly when every objective is then completed, and only then marks
    the mission completed, clears the active mission and counts it. *)
Theorem objectives_complete_by_place :
  forall (state : MissionSystem.MissionState) (sys activeId : string) (i : nat)
         (mission : MissionSystem.Mission),
    MissionSystem.activeMissionId state = Some activeId ->
    activeId <> EmptyString ->
    MissionSystem.findMission state activeId = Some (i, mission) ->
    MissionSystem.status mission = MissionSystem.active ->
    let objs := MissionSystem.objectives mission in
    let r := MissionSystem.checkMissionObjectives state sys in
    exists mission' : MissionSystem.Mission,
      MissionSystem.missions (snd r) !! i = Some mission'
      /\ MissionSystem.res_mission (fst r) = Some mission'
      /\ (let objs' := MissionSystem.objectives mission' in
          (forall k o,
             objs !! k = Some o ->
             MissionSystem.completed o = false ->
             MissionSystem.systemId o = sys ->
             (forall j oj, (j < k)%nat -> objs !! j = Some oj ->
                MissionSystem.completed oj = true
                \/ MissionSystem.systemId oj <> sys) ->
             objs' = <[k := MissionSystem.mkMissionObjective sys true]> objs)
          /\ ((forall o, In o objs ->
                 MissionSystem.completed o = true
                 \/ MissionSystem.systemId o <> sys) ->
              objs' = objs)
          /\ MissionSystem.res_completed (fst r)
             = forallb MissionSystem.completed objs'
          /\ (MissionSystem.res_completed (fst r) = true ->
              MissionSystem.status mission' = MissionSystem.done
              /\ MissionSystem.activeMissionId (snd r) = None
              /\ MissionSystem.completedCount (snd r)
                 = S (MissionSystem.completedCount state))
          /\ (MissionSystem.res_completed (fst r) = false ->
              MissionSystem.status mission' = MissionSystem.active
              /\ MissionSystem.activeMissionId (snd r) = Some activeId
              /\ MissionSystem.completedCount (snd r)
                 = MissionSystem.completedCount state)).
Proof.
  intros state sys activeId i mission Ha Hne Hf Hs. cbv zeta.
  rewrite (checkMissionObjectives_active state sys activeId i mission Ha Hne Hf Hs).
  cbv zeta. cbn [fst snd MissionSystem.res_mission MissionSystem.res_completed].
  apply list_find_Some in Hf. destruct Hf as (Hi & _ & _).
  exists (MissionSystem.set_status
            (MissionSystem.set_objectives mission
               (MissionSystem.completeFirst (MissionSystem.objectives mission) sys))
            (if forallb MissionSystem.completed
                  (MissionSystem.completeFirst (MissionSystem.objectives mission) sys)
             then MissionSystem.done else MissionSystem.active)).
  split.
  { destruct (forallb _ _); cbn [MissionSystem.updateRating MissionSystem.missions];
      apply list_lookup_insert_eq; eapply lookup_lt_Some; exact Hi. }
  split; [reflexivity |].
  cbn [MissionSystem.objectives MissionSystem.set_status
       MissionSystem.set_objectives MissionSystem.status].
  split; [intros k o Hk Hc Hsys Hbefore;
          apply (completeFirst_hit sys _ k o Hk Hc Hsys Hbefore) |].
  split; [apply completeFirst_miss |].
  split; [reflexivity |].
  destruct (forallb MissionSystem.completed
              (MissionSystem.completeFirst (MissionSystem.objectives mission) sys));
    split; intros; try discriminate; repeat split; reflexivity.
Qed.

(** The witness of X29: the memorial patrol, "Wolf 359, then return to
    Sol", accepted at Sol; an arrival at Sol completes the second
    objective while the first is open. *)
Lemma objectives_complete_by_place_witness :
  MissionSystem.objectives <$>
    MissionSystem.res_mission
      (fst (MissionSystem.checkMissionObjectives
              (MissionSystem.step MissionSystem.createMissionState
                 (MissionSystem.Accept "mission-1")) "sol"))
  = Some [MissionSystem.mkMissionObjective "wolf359" false;
          MissionSystem.mkMissionObjective "sol" true].
Proof.
  destruct (objectives_complete_by_place
              (MissionSystem.step MissionSystem.createMissionState
                 (MissionSystem.Accept "mission-1"))
              "sol" "mission-1" 1%nat
              (MissionSystem.mkMission "mission-1" MissionSystem.patrol
                 MissionSystem.active "sol"
                 [MissionSystem.mkMissionObjective "wolf359" false;
                  MissionSystem.mkMissionObjective "sol" false] 15 50))
    as (mission' & _ & Hres & Hhit & _).
  - reflexivity.
  - discriminate.
  - vm_compute. reflexivity.
  - reflexivity.
  - rewrite Hres. cbn [fmap option_fmap option_map]. f_equal.
    apply (Hhit 1%nat (MissionSystem.mkMissionObjective "sol" false));
      try reflexivity.
    intros j oj Hj Hoj. assert (j = 0%nat) by lia. subst j.
    cbn in Hoj. injection Hoj as <-. right. discriminate.
Defined.

Section MissionLog.
Import MissionSystem.

Lemma lookup_insert_cases {A : Type} (l : list A) (i j : nat) (x y : A) :
  (<[i := x]> l) !! j = Some y ->
  (j = i /\ y = x) \/ (j <> i /\ l !! j = Some y).
Proof.
  intros H. apply list_lookup_insert_Some in H.
  destruct H as [(-> & -> & _) | (Hne & H)]; [left | right]; auto.
Qed.

Lemma filter_insert_length {A : Type} (P : A -> bool) :
  forall (l : list A) (i : nat) (x y : A),
    l !! i = Some x ->
    (length (List.filter P (<[i := y]> l)) + (if P x then 1 else 0)
     = length (List.filter P l) + (if P y then 1 else 0))%nat.
Proof.
  induction l as [| a l IH]; intros i x y Hi; [discriminate |].
  destruct i as [| i].
  - cbn in Hi. injection Hi as ->. cbn [insert list_insert List.filter].
    destruct (P x), (P y); simpl; lia.
  - cbn in Hi. cbn [insert list_insert List.filter].
    specialize (IH i x y Hi).
    destruct (P a); simpl; [f_equal |]; exact IH.
Qed.

Lemma fmap_insert_same {A B : Type} (f : A -> B) (l : list A) (i : nat) (x y : A) :
  l !! i = Some x -> f y = f x -> f <$> <[i := y]> l = f <$> l.
Proof.
  intros Hi Hf. rewrite list_fmap_insert, Hf. apply list_insert_id.
  rewrite list_lookup_fmap, Hi. reflexivity.
Qed.

Lemma ids_distinct (state : MissionState) (j k : nat) (mj mk : Mission) :
  ids state = ids createMissionState ->
  missions state !! j = Some mj -> missions state !! k = Some mk ->
  id mj = id mk -> j = k.
Proof.
  intros Hids Hj Hk Heq.
  assert (Hnd : NoDup (ids state)).
  { rewrite Hids. apply (proj1 (bool_decide_eq_true _)). vm_compute. reflexivity. }
  apply (NoDup_lookup _ j k (id mj) Hnd); unfold ids; rewrite list_lookup_fmap.
  - rewrite Hj. reflexivity.
  - rewrite Hk, Heq. reflexivity.
Qed.

Lemma ids_named (state : MissionState) (j : nat) (m : Mission) :
  ids state = ids createMissionState ->
  missions state !! j = Some m -> id m <> EmptyString.
Proof.
  intros Hids Hj Heq.
  assert (Hin : id m ∈ ids state).
  { unfold ids. apply (list_elem_of_fmap_2 id). eapply list_elem_of_lookup_2. exact Hj. }
  rewrite Hids, Heq in Hin. revert Hin.
  apply (proj1 (bool_decide_eq_false _)). vm_compute. reflexivity.
Qed.

Lemma wellFormed_create : wellFormed createMissionState.
Proof.
  unfold wellFormed, ids. repeat split; try discriminate; try reflexivity.
  - intros Hs. exfalso. revert j m H Hs.
    assert (Hall : Forall (fun m => status m = available) (missions createMissionState))
      by (vm_compute; repeat constructor).
    intros j m Hj Hs. eapply Forall_lookup_1 in Hall; [| exact Hj].
    cbv beta in Hall. congruence.
Qed.

Lemma wellFormed_accept (state : MissionState) (missionId : string) :
  wellFormed state -> wellFormed (snd (acceptMission state missionId)).
Proof.
  intros Hw. pose proof Hw as (Hids & Hne & Hact & Hcount & Hrating).
  unfold acceptMission.
  destruct (truthy (activeMissionId state)) eqn:Ht; [exact Hw |].
  assert (Hnone : activeMissionId state = None).
  { destruct (activeMissionId state) as [[| c r] |]; try discriminate;
      [contradiction | reflexivity]. }
  destruct (findMission state missionId) as [[i mission] |] eqn:Hf;
    [| exact Hw].
  destruct (isAvailable (status mission)) eqn:Hav; cbn [negb];
    [| exact Hw].
  apply list_find_Some in Hf. destruct Hf as (Hi & Hid & _).
  cbn [snd]. unfold wellFormed, ids, completedMissions.
  cbn [missions activeMissionId completedCount rating updateRating].
  split; [| split; [| split; [| split]]].
  - etransitivity; [| exact Hids]. unfold ids. apply (fmap_insert_same id _ i mission); [exact Hi | reflexivity].
  - intros Heq. injection Heq as Heq.
    apply (ids_named state i mission Hids Hi). congruence.
  - intros j m Hj. apply lookup_insert_cases in Hj.
    destruct Hj as [(-> & ->) | (Hji & Hj)].
    + cbn [id set_status status]. rewrite Hid. tauto.
    + pose proof (Hact j m Hj) as Hjm. rewrite Hnone in Hjm. split.
      * intros Hs. apply Hjm in Hs. discriminate.
      * intros Heq. injection Heq as Heq. exfalso. apply Hji.
        apply (ids_distinct state j i m mission Hids Hj Hi). congruence.
  - pose proof (filter_insert_length isCompleted (missions state) i mission
                  (set_status mission active) Hi) as Hlen.
    assert (Hx : isCompleted mission = false)
      by (unfold isCompleted; destruct (status mission); try discriminate; reflexivity).
    assert (Hy : isCompleted (set_status mission active) = false) by reflexivity.
    rewrite Hx, Hy in Hlen. unfold completedMissions in Hcount. lia.
  - exact Hrating.
Qed.

Lemma wellFormed_check (state : MissionState) (sys : string) :
  wellFormed state -> wellFormed (snd (checkMissionObjectives state sys)).
Proof.
  intros Hw. pose proof Hw as (Hids & Hne & Hact & Hcount & Hrating).
  destruct (activeMissionId state) as [activeId |] eqn:Ha;
    [| unfold checkMissionObjectives; rewrite Ha; exact Hw].
  assert (Hnamed : activeId <> EmptyString) by congruence.
  destruct (findMission state activeId) as [[i mission] |] eqn:Hf.
  2: { unfold checkMissionObjectives. rewrite Ha.
       destruct activeId; [contradiction |]. cbn [truthy negb]. rewrite Hf.
       exact Hw. }
  destruct (isActive (status mission)) eqn:Hs.
  2: { unfold checkMissionObjectives. rewrite Ha.
       destruct activeId; [contradiction |]. cbn [truthy negb]. rewrite Hf, Hs.
       exact Hw. }
  assert (Hs' : status mission = active) by (destruct (status mission); try discriminate; reflexivity).
  rewrite (checkMissionObjectives_active state sys activeId i mission Ha Hnamed Hf Hs').
  cbv zeta. cbn [snd].
  apply list_find_Some in Hf. destruct Hf as (Hi & Hid & _).
  set (objs' := completeFirst (objectives mission) sys).
  destruct (forallb completed objs') eqn:Hall.
  - unfold wellFormed, ids, completedMissions.
    cbn [missions activeMissionId completedCount rating updateRating].
    split; [| split; [| split; [| split]]].
    + etransitivity; [| exact Hids]. unfold ids. apply (fmap_insert_same id _ i mission); [exact Hi | reflexivity].
    + discriminate.
    + intros j m Hj. apply lookup_insert_cases in Hj.
      destruct Hj as [(-> & ->) | (Hji & Hj)].
      * cbn [id set_status status]. split; discriminate.
      * split; [| discriminate]. intros Hm. exfalso. apply Hji.
        apply (ids_distinct state j i m mission Hids Hj Hi).
        apply (Hact j m Hj) in Hm. rewrite ?Ha in Hm. congruence.
    + pose proof (filter_insert_length isCompleted (missions state) i mission
                    (set_status (set_objectives mission objs') done) Hi) as Hlen.
      assert (Hx : isCompleted mission = false)
        by (unfold isCompleted; rewrite Hs'; reflexivity).
      assert (Hy : isCompleted (set_status (set_objectives mission objs') done) = true)
        by reflexivity.
      rewrite Hx, Hy in Hlen. unfold completedMissions in Hcount. lia.
    + reflexivity.
  - unfold wellFormed, ids, completedMissions.
    cbn [missions activeMissionId completedCount rating updateRating].
    split; [| split; [| split; [| split]]].
    + etransitivity; [| exact Hids]. unfold ids. apply (fmap_insert_same id _ i mission); [exact Hi | reflexivity].
    + congruence.
    + intros j m Hj. apply lookup_insert_cases in Hj.
      destruct Hj as [(-> & ->) | (Hji & Hj)].
      * cbn [id set_status set_objectives status]. rewrite Hid. tauto.
      * apply (Hact j m Hj).
    + pose proof (filter_insert_length isCompleted (missions state) i mission
                    (set_status (set_objectives mission objs') active) Hi) as Hlen.
      assert (Hx : isCompleted mission = false)
        by (unfold isCompleted; rewrite Hs'; reflexivity).
      assert (Hy : isCompleted (set_status (set_objectives mission objs') active) = false)
        by reflexivity.
      rewrite Hx, Hy in Hlen. unfold completedMissions in Hcount. lia.
    + exact Hrating.
Qed.

Lemma wellFormed_run (events : list Event) :
  forall state, wellFormed state -> wellFormed (run state events).
Proof.
  unfold run. induction events as [| e events IH]; intros state Hw; [exact Hw |].
  cbn [fold_left]. apply IH. destruct e as [missionId | sys]; cbn [step].
  - apply wellFormed_accept. exact Hw.
  - apply wellFormed_check. exact Hw.
Qed.

End MissionLog.

(** X30. One mission at a time.  Whatever missions are accepted and
    whatever systems are arrived at, starting from a new log: at most one
    mission has status 'active', and it is the one [activeMissionId]
    names; while one is named, [acceptMission] refuses every mission and
    changes nothing; [completedCount] is the number of missions of status
    'completed', at most the eight there are; and the rating is the one
    [updateRating] gives for that count. *)
Theorem one_mission_at_a_time :
  forall events : list MissionSystem.Event,
    let state := MissionSystem.run MissionSystem.createMissionState events in
    (forall j k mj mk,
       MissionSystem.missions state !! j = Some mj ->
       MissionSystem.missions state !! k = Some mk ->
       MissionSystem.status mj = MissionSystem.active ->
       MissionSystem.status mk = MissionSystem.active ->
       j = k)
    /\ (forall j m,
          MissionSystem.missions state !! j = Some m ->
          (MissionSystem.status m = MissionSystem.active
           <-> MissionSystem.activeMissionId state = Some (MissionSystem.id m)))
    /\ (forall missionId,
          MissionSystem.activeMissionId state <> None ->
          MissionSystem.acceptMission state missionId = (false, state))
    /\ MissionSystem.completedCount state
       = length (MissionSystem.completedMissions state)
    /\ (MissionSystem.completedCount state <= 8)%nat
    /\ MissionSystem.rating state
       = MissionSystem.rating (MissionSystem.updateRating state).
Proof.
  intros events state.
  destruct (wellFormed_run events MissionSystem.createMissionState
              wellFormed_create) as (Hids & Hne & Hact & Hcount & Hrating).
  fold state in Hids, Hne, Hact, Hcount, Hrating.
  split; [| split; [| split; [| split; [| split]]]].
  - intros j k mj mk Hj Hk Hsj Hsk.
    apply (ids_distinct state j k mj mk Hids Hj Hk).
    apply (Hact j mj Hj) in Hsj. apply (Hact k mk Hk) in Hsk. congruence.
  - exact Hact.
  - intros missionId Hsome. unfold MissionSystem.acceptMission.
    destruct (MissionSystem.activeMissionId state) as [[| c r] |];
      [contradiction | reflexivity | contradiction].
  - exact Hcount.
  - rewrite Hcount. unfold MissionSystem.completedMissions.
    etransitivity; [apply List.filter_length_le |].
    assert (Hlen : length (MissionSystem.ids state)
                   = length (MissionSystem.ids MissionSystem.createMissionState))
      by (rewrite Hids; reflexivity).
    unfold MissionSystem.ids in Hlen at 1. rewrite length_fmap in Hlen.
    rewrite Hlen. vm_compute. lia.
  - exact Hrating.
Qed.

(** ** The magazine: who writes [torpedoCount] *)

Section MagazineWriters.
Context {N : Type} `{Number N} `{Three N} `{HostSqrt N}.
Local Open Scope js_scope.

Lemma updateTravel_torpedoCount
    (uState : UniverseManager.UniverseState N)
    (systems : list (Universe.StarSystem N)) (gameState : GameState.t N)
    (delta : N) (t : UniverseManager.Travel N) :
  UniverseManager.updateTravel uState systems gameState delta = Some t ->
  GameState.torpedoCount (UniverseManager.ship t) = GameState.torpedoCount gameState.
Proof.
  unfold UniverseManager.updateTravel, UniverseManager.arriveAtDestination.
  cbv zeta. intros Ht.
  repeat match type of Ht with
  | context [match ?x with _ => _ end] => destruct x
  end;
  try discriminate; injection Ht as <-; reflexivity.
Qed.

Lemma combatFrame_torpedoCount (g g' : GameLoop.Game N) (fr : EnemyAI.Frame N) :
  GameLoop.combatFrame g fr = Some g' ->
  GameState.torpedoCount (GameLoop.state g') = GameState.torpedoCount (GameLoop.state g).
Proof.
  unfold GameLoop.combatFrame. intros Hg.
  destruct (GameLoop.isActive (GameLoop.missionPhase g));
    [| injection Hg as <-; reflexivity].
  destruct (EnemyAI.updateEnemyAI _ _ _ _) as [enemy1 combat1].
  destruct (CombatSystem.checkPhaserHits _ _ _ _) as [hit combat2].
  destruct (GameLoop.torpedoHits _ _ _) as [[remaining |] combat3];
    [| discriminate].
  cbv zeta in Hg. injection Hg as <-. cbn [GameLoop.state].
  destruct (_ <=? lit 0); reflexivity.
Qed.

Lemma engageKey_torpedoCount
    (uState uState' : UniverseManager.UniverseState N)
    (systems : list (Universe.StarSystem N)) (state state' : GameState.t N)
    (input input' : InputManager.t) :
  Voyage.engageKey uState systems state input = Some (uState', state', input') ->
  GameState.torpedoCount state' = GameState.torpedoCount state.
Proof.
  unfold Voyage.engageKey. cbv zeta. intros Hk.
  repeat match type of Hk with
  | context [match ?x with _ => _ end] => destruct x
  | context [let '(_, _) := ?x in _] => destruct x
  end;
  try discriminate; injection Hk as <- <- <-; reflexivity.
Qed.

(** The rewards: the count is raised exactly for a completed mission. *)
Lemma applyRewards_torpedoCount
    (result : MissionSystem.CheckResult) (state : GameState.t N) :
  GameState.torpedoCount (Voyage.applyRewards result state)
  = match MissionSystem.res_completed result, MissionSystem.res_mission result with
    | true, Some mission =>
        Math_min (lit 64)
          (GameState.torpedoCount state
           + Voyage.ofCount (MissionSystem.torpedoReward mission))
    | _, _ => GameState.torpedoCount state
    end.
Proof.
  unfold Voyage.applyRewards.
  destruct (MissionSystem.res_completed result);
    destruct (MissionSystem.res_mission result); reflexivity.
Qed.

(** [travelStep] by cases: no arrival or no mission log, and the count is
    the old one; an arrival, and the rewards of the mission check are
    applied to it. *)
Lemma travelStep_torpedoCount
    (uState : UniverseManager.UniverseState N)
    (systems : list (Universe.StarSystem N))
    (missionState : option MissionSystem.MissionState)
    (state : GameState.t N) (delta : N)
    (r : UniverseManager.Travel N * option MissionSystem.MissionState) :
  Voyage.travelStep uState systems missionState state delta = Some r ->
  GameState.torpedoCount (UniverseManager.ship (fst r)) = GameState.torpedoCount state
  \/ exists t log result log',
       missionState = Some log
       /\ UniverseManager.updateTravel uState systems state delta = Some t
       /\ UniverseManager.result t = UniverseManager.arrived
       /\ MissionSystem.checkMissionObjectives log
            (UniverseManager.currentSystemId (UniverseManager.universe t))
          = (result, log')
       /\ GameState.torpedoCount (UniverseManager.ship (fst r))
          = GameState.torpedoCount (Voyage.applyRewards result state).
Proof.
  unfold Voyage.travelStep. intros Hr.
  destruct (UniverseManager.updateTravel uState systems state delta) as [t |] eqn:Ht;
    [| discriminate].
  pose proof (updateTravel_torpedoCount uState systems state delta t Ht) as Hc.
  destruct (UniverseManager.result t) eqn:Hres;
    try (injection Hr as <-; left; exact Hc).
  unfold Voyage.checkArrival in Hr.
  destruct missionState as [log |];
    [| injection Hr as <-; left; exact Hc].
  destruct (MissionSystem.checkMissionObjectives log _) as [result log'] eqn:Hcheck.
  injection Hr as <-. right. exists t, log, result, log'.
  repeat split; try assumption.
  cbn [fst UniverseManager.ship]. rewrite !applyRewards_torpedoCount, Hc.
  reflexivity.
Qed.

(** Every other writer leaves the count as it is. *)
Lemma write_keeps_torpedoCount (w : Writers.Writer N) (state state' : GameState.t N) :
  Writers.write w state = Some state' ->
  match w with
  | Writers.UpdateWeapons _ _ | Writers.TravelStep _ _ _ _ | Writers.RestartGame =>
      True
  | _ => GameState.torpedoCount state' = GameState.torpedoCount state
  end.
Proof.
  destruct w as
    [input d | ws d | wst en cs ph fr | resolve commands timer target | timer input d
    | target input d | uState systems missionState d | uState systems input
    | uState systems | centre minDist | speed | heading bearing speedDisplay |];
    cbn [Writers.write]; intros Hw; try exact I.
  - injection Hw as <-.
    destruct (updateShip_frame state input d) as (_ & _ & Hc). exact Hc.
  - destruct (GameLoop.combatFrame _ fr) as [g' |] eqn:Hg; [| discriminate].
    cbn in Hw. injection Hw as <-.
    apply (combatFrame_torpedoCount _ _ _ Hg).
  - injection Hw as <-. apply voiceCommands_keeps.
  - injection Hw as <-. apply voicePhaserBurst_keeps.
  - injection Hw as <-. apply autoPilot_keeps.
  - destruct (Voyage.engageKey uState systems state input) as [[[u s] i] |] eqn:Hk;
      [| discriminate].
    cbn in Hw. injection Hw as <-.
    apply (engageKey_torpedoCount _ _ _ _ _ _ _ Hk).
  - unfold Voyage.onEngageWarp in Hw. cbv zeta in Hw.
    destruct (UniverseManager.initiateWarp _ _ _) as [[ok u] |]; [| discriminate].
    cbn in Hw. injection Hw as <-. destruct (_ <? lit 0.3); reflexivity.
  - injection Hw as <-. unfold GameLoop.collide. cbv zeta.
    destruct (_ <? minDist); [| reflexivity].
    destruct (GameState.isWarp _); reflexivity.
  - injection Hw as <-. reflexivity.
  - injection Hw as <-. reflexivity.
Qed.

End MagazineWriters.



